(** * icons.go: the icon enrichment pipeline

    A shallow embedding of [src/icons/icons.go].  Go strings are byte
    sequences; the functions of the Go standard library that the program
    calls ([strings], [unicode/utf8], [regexp], [encoding/json]) are modelled
    on bytes and runes the way the library computes them.  What the library
    reads from data that is not part of this repository (the Unicode case
    tables beyond ASCII, the network, the UUID source, the clock) is a
    field of the record [Env]. *)

From Stdlib Require Import ZArith List Bool Lia QArith Permutation.
From Stdlib Require Import Strings.String Strings.Ascii Strings.Byte.
Import ListNotations.

Open Scope string_scope.
Open Scope Z_scope.
Open Scope list_scope.

(** ** Go strings: sequences of bytes *)

Definition gostring := list byte.

Definition lit (s : string) : gostring := list_byte_of_string s.
Coercion lit : string >-> gostring.

Definition rune := Z.

Definition byteZ (b : byte) : Z := Z.of_N (Byte.to_N b).

(** Go's conversion [byte(x)]: truncation to eight bits. *)
Definition zbyte (z : Z) : byte :=
  match Byte.of_N (Z.to_N (z mod 256)) with
  | Some b => b
  | None => x00
  end.

Definition byte_eqb (a b : byte) : bool := Byte.eqb a b.

(** ** unicode/utf8 *)

Definition RuneError : rune := 0xFFFD.
Definition RuneSelf : Z := 0x80.
Definition MaxRune : rune := 0x10FFFF.

(** The [first] table of the utf8 package: for a leading byte, the length of
    the sequence and the accepted range of the second byte.  [None] is an
    invalid leading byte; ASCII is handled before the table is consulted. *)
Definition first (s0 : Z) : option (nat * Z * Z) :=
  if s0 <? 0xC2 then None
  else if s0 <=? 0xDF then Some (2%nat, 0x80, 0xBF)
  else if s0 =? 0xE0 then Some (3%nat, 0xA0, 0xBF)
  else if s0 <=? 0xEC then Some (3%nat, 0x80, 0xBF)
  else if s0 =? 0xED then Some (3%nat, 0x80, 0x9F)
  else if s0 <=? 0xEF then Some (3%nat, 0x80, 0xBF)
  else if s0 =? 0xF0 then Some (4%nat, 0x90, 0xBF)
  else if s0 <=? 0xF3 then Some (4%nat, 0x80, 0xBF)
  else if s0 =? 0xF4 then Some (4%nat, 0x80, 0x8F)
  else None.

Definition iscont (b : Z) : bool := (0x80 <=? b) && (b <=? 0xBF).

(** [utf8.DecodeRuneInString]: the first rune of [s] and its width in bytes.
    An invalid or truncated sequence decodes as [(RuneError, 1)]. *)
Definition DecodeRune (s : gostring) : rune * nat :=
  match s with
  | [] => (RuneError, 0%nat)
  | b0 :: t0 =>
    let s0 := byteZ b0 in
    if s0 <? RuneSelf then (s0, 1%nat)
    else match first s0 with
    | None => (RuneError, 1%nat)
    | Some (sz, lo, hi) =>
      match t0 with
      | [] => (RuneError, 1%nat)
      | b1 :: t1 =>
        let s1 := byteZ b1 in
        if (s1 <? lo) || (hi <? s1) then (RuneError, 1%nat)
        else if (sz <=? 2)%nat then
          (Z.lor (Z.shiftl (Z.land s0 0x1F) 6) (Z.land s1 0x3F), 2%nat)
        else match t1 with
        | [] => (RuneError, 1%nat)
        | b2 :: t2 =>
          let s2 := byteZ b2 in
          if negb (iscont s2) then (RuneError, 1%nat)
          else if (sz <=? 3)%nat then
            (Z.lor (Z.lor (Z.shiftl (Z.land s0 0x0F) 12)
                          (Z.shiftl (Z.land s1 0x3F) 6))
                   (Z.land s2 0x3F), 3%nat)
          else match t2 with
          | [] => (RuneError, 1%nat)
          | b3 :: _ =>
            let s3 := byteZ b3 in
            if negb (iscont s3) then (RuneError, 1%nat)
            else
              (Z.lor (Z.lor (Z.lor (Z.shiftl (Z.land s0 0x07) 18)
                                   (Z.shiftl (Z.land s1 0x3F) 12))
                            (Z.shiftl (Z.land s2 0x3F) 6))
                     (Z.land s3 0x3F), 4%nat)
          end
        end
      end
    end
  end.

(** [utf8.AppendRune]: surrogates and values outside the Unicode range are
    written as the encoding of [RuneError]. *)
Definition EncodeRune (r : rune) : gostring :=
  let enc3 (r : rune) :=
    [ zbyte (Z.lor 0xE0 (Z.shiftr r 12));
      zbyte (Z.lor 0x80 (Z.land (Z.shiftr r 6) 0x3F));
      zbyte (Z.lor 0x80 (Z.land r 0x3F)) ] in
  if r <? 0 then enc3 RuneError
  else if r <=? 0x7F then [zbyte r]
  else if r <=? 0x7FF then
    [ zbyte (Z.lor 0xC0 (Z.shiftr r 6)); zbyte (Z.lor 0x80 (Z.land r 0x3F)) ]
  else if (MaxRune <? r) || ((0xD800 <=? r) && (r <=? 0xDFFF)) then enc3 RuneError
  else if r <=? 0xFFFF then enc3 r
  else
    [ zbyte (Z.lor 0xF0 (Z.shiftr r 18));
      zbyte (Z.lor 0x80 (Z.land (Z.shiftr r 12) 0x3F));
      zbyte (Z.lor 0x80 (Z.land (Z.shiftr r 6) 0x3F));
      zbyte (Z.lor 0x80 (Z.land r 0x3F)) ].

(** [for i, c := range s]: the runes of [s] in order, each with the bytes
    it was decoded from.  [skip] counts the bytes of the current rune that
    are still to be passed over. *)
Fixpoint rangeFrom (skip : nat) (s : gostring) : list (rune * gostring) :=
  match s with
  | [] => []
  | _ :: t =>
    match skip with
    | S k => rangeFrom k t
    | O => let (r, w) := DecodeRune s in (r, firstn w s) :: rangeFrom (w - 1) t
    end
  end.

Definition range (s : gostring) : list (rune * gostring) := rangeFrom 0 s.

(** [utf8.ValidString] *)
Definition ValidString (s : gostring) : bool :=
  forallb (fun c => negb ((fst c =? RuneError) && (List.length (snd c) =? 1)%nat)) (range s).

Definition isASCII (s : gostring) : bool :=
  forallb (fun b => byteZ b <? RuneSelf) s.

(** ** unicode *)

(** The case tables of Go's [unicode] package ([unicode.CaseRanges]) are data
    of the standard library.  [unicode.ToLower] and [unicode.ToUpper] answer
    for ASCII without consulting them; for every other rune they look the
    rune up, which is what [lowerTable] and [upperTable] stand for. *)
Record CaseTables := {
  lowerTable : rune -> rune;
  upperTable : rune -> rune
}.

Definition MaxASCII : rune := 0x7F.
Definition MaxLatin1 : rune := 0xFF.

Definition unicode_ToLower (T : CaseTables) (r : rune) : rune :=
  if r <=? MaxASCII then
    (if (0x41 <=? r) && (r <=? 0x5A) then r + 32 else r)
  else lowerTable T r.

Definition unicode_ToUpper (T : CaseTables) (r : rune) : rune :=
  if r <=? MaxASCII then
    (if (0x61 <=? r) && (r <=? 0x7A) then r - 32 else r)
  else upperTable T r.

(** [unicode.IsSpace]: the Latin-1 switch, then the [White_Space] table. *)
Definition unicode_IsSpace (r : rune) : bool :=
  if (0 <=? r) && (r <=? MaxLatin1) then
    (r =? 0x09) || (r =? 0x0A) || (r =? 0x0B) || (r =? 0x0C) || (r =? 0x0D)
    || (r =? 0x20) || (r =? 0x85) || (r =? 0xA0)
  else
    (r =? 0x1680) || ((0x2000 <=? r) && (r <=? 0x200A)) || (r =? 0x2028)
    || (r =? 0x2029) || (r =? 0x202F) || (r =? 0x205F) || (r =? 0x3000).

(** ** strings *)

(** [strings.Map]: every rune of [s] (an invalid byte reads as [RuneError])
    is replaced by the encoding of its image; a negative image is dropped. *)
Definition strings_Map (f : rune -> rune) (s : gostring) : gostring :=
  flat_map (fun c => let r := f (fst c) in if r <? 0 then [] else EncodeRune r)
           (range s).

Definition isUpperByte (b : byte) : bool := (0x41 <=? byteZ b) && (byteZ b <=? 0x5A).
Definition isLowerByte (b : byte) : bool := (0x61 <=? byteZ b) && (byteZ b <=? 0x7A).

Definition lowerByte (b : byte) : byte :=
  if isUpperByte b then zbyte (byteZ b + 32) else b.
Definition upperByte (b : byte) : byte :=
  if isLowerByte b then zbyte (byteZ b - 32) else b.

(** [strings.ToLower], with its fast path for ASCII-only strings. *)
Definition strings_ToLower (T : CaseTables) (s : gostring) : gostring :=
  if isASCII s then
    (if existsb isUpperByte s then map lowerByte s else s)
  else strings_Map (unicode_ToLower T) s.

(** [strings.ToUpper] *)
Definition strings_ToUpper (T : CaseTables) (s : gostring) : gostring :=
  if isASCII s then
    (if existsb isLowerByte s then map upperByte s else s)
  else strings_Map (unicode_ToUpper T) s.

Fixpoint HasPrefix (s prefix : gostring) : bool :=
  match prefix, s with
  | [], _ => true
  | p :: prefix', b :: s' => byte_eqb p b && HasPrefix s' prefix'
  | _ :: _, [] => false
  end.

(** [strings.Contains] *)
Fixpoint strings_Contains (s substr : gostring) : bool :=
  HasPrefix s substr ||
  match s with
  | [] => false
  | _ :: t => strings_Contains t substr
  end.

Fixpoint replaceFrom (skip : nat) (old new s : gostring) : gostring :=
  match s with
  | [] => []
  | b :: t =>
    match skip with
    | S k => replaceFrom k old new t
    | O =>
      if HasPrefix s old then new ++ replaceFrom (List.length old - 1) old new t
      else b :: replaceFrom 0 old new t
    end
  end.

(** [strings.ReplaceAll] for a non-empty [old]: the non-overlapping
    occurrences of [old], leftmost first, become [new].  (The program only
    calls it with a one-byte [old].) *)
Definition strings_ReplaceAll (s old new : gostring) : gostring :=
  match old with
  | [] => s
  | _ => replaceFrom 0 old new s
  end.

(** [strings.FieldsFunc]: [start] is the open span, if any. *)
Fixpoint fieldsLoop (f : rune -> bool) (start : option gostring)
         (cs : list (rune * gostring)) : list gostring :=
  match cs with
  | [] => match start with Some w => [w] | None => [] end
  | (r, bs) :: rest =>
    if f r then
      match start with
      | Some w => w :: fieldsLoop f None rest
      | None => fieldsLoop f None rest
      end
    else
      match start with
      | Some w => fieldsLoop f (Some (w ++ bs)) rest
      | None => fieldsLoop f (Some bs) rest
      end
  end.

(** [strings.Fields]: split around runs of white space. *)
Definition strings_Fields (s : gostring) : list gostring :=
  fieldsLoop unicode_IsSpace None (range s).

Fixpoint dropSpaces (cs : list (rune * gostring)) : list (rune * gostring) :=
  match cs with
  | [] => []
  | c :: rest => if unicode_IsSpace (fst c) then dropSpaces rest else cs
  end.

(** [strings.TrimSpace]: leading and trailing white space removed.  A
    white-space rune is a valid sequence that starts at a leading byte, so
    reading the string backwards (as the library does for the tail) finds
    the same runes as reading it forwards. *)
Definition strings_TrimSpace (s : gostring) : gostring :=
  List.concat (map snd (rev (dropSpaces (rev (dropSpaces (range s)))))).

(** [strings.Join] *)
Fixpoint strings_Join (elems : list gostring) (sep : gostring) : gostring :=
  match elems with
  | [] => []
  | [e] => e
  | e :: rest => e ++ sep ++ strings_Join rest sep
  end.

(** ** regexp *)

(** The program's only pattern over titles, [[^a-z0-9-]]: one rune that is
    not a lowercase ASCII letter, a digit or a hyphen. *)
Definition slugChar (r : rune) : bool :=
  ((0x61 <=? r) && (r <=? 0x7A)) || ((0x30 <=? r) && (r <=? 0x39)) || (r =? 0x2D).

Definition notSlugChar (r : rune) : bool := negb (slugChar r).

(** [Regexp.ReplaceAllString] for a pattern that matches exactly one rune:
    every matching rune becomes [repl], the rest of [src] is copied. *)
Definition ReplaceAllString (matches : rune -> bool) (src repl : gostring) : gostring :=
  flat_map (fun c => if matches (fst c) then repl else snd c) (range src).

(** ** The program: pure string functions *)

Section Strings.

Variable T : CaseTables.

Definition generateSlug (provider title : gostring) : gostring :=
  let clean :=
    ReplaceAllString notSlugChar
      (strings_ToLower T (strings_ReplaceAll title " " "-")) [] in
  strings_ToLower T provider ++ lit "-" ++ clean.

(** [string(word[0])]: the conversion of a byte to a string yields the
    encoding of the rune with that value. *)
Definition capitalize (word : gostring) : gostring :=
  match word with
  | [] => word
  | b :: rest => strings_ToUpper T (EncodeRune (byteZ b)) ++ strings_ToLower T rest
  end.

Definition cleanDisplayName (title : gostring) : gostring :=
  let name := strings_TrimSpace title in
  let name := strings_ReplaceAll (strings_ReplaceAll name "_" " ") "-" " " in
  let words := strings_Fields name in
  strings_Join (map capitalize words) " ".

End Strings.

(** ** Data model *)

Module PendingIcon.
Record t := mk {
  Category : gostring;
  Title : gostring;
  Link : gostring;
  DisplayName : gostring
}.
End PendingIcon.

Module IconPayload.
(** [Popularity] is a [float32]; the program only stores 1.0 and 0.5,
    both exact, so a rational holds it. *)
Record t := mk {
  ID : gostring;
  Slug : gostring;
  IconifyID : gostring;
  Provider : gostring;
  URL : gostring;
  SemanticProfile : gostring;
  DisplayName : gostring;
  Aliases : gostring;
  Description : gostring;
  TechnicalIntent : gostring;
  ShapeType : gostring;
  DefaultWidth : Z;
  IsContainer : bool;
  IconPosition : gostring;
  ColorTheme : gostring;
  Popularity : Q;
  Tags : gostring;
  LastScraped : gostring
}.
End IconPayload.

Module LLMEnrichmentResponse.
Record t := mk {
  Category : gostring;
  Aliases : list gostring;
  TechnicalIntent : gostring;
  SemanticProfile : gostring;
  Tags : list gostring;
  ShapeType : gostring;
  IsContainer : bool;
  BrandColor : gostring
}.
(** The value of [var enrichment LLMEnrichmentResponse] and of every
    element of [make([]LLMEnrichmentResponse, n)]. *)
Definition zero : t := mk [] [] [] [] [] [] false [].
End LLMEnrichmentResponse.

Module BatchIconInput.
Record t := mk {
  Provider : gostring;
  Title : gostring;
  DisplayName : gostring
}.
End BatchIconInput.

Module BatchClassifyRequest.
Record t := mk { Icons : list BatchIconInput.t }.
End BatchClassifyRequest.

Module BatchClassifyResponse.
Record t := mk {
  Results : list LLMEnrichmentResponse.t;
  Total : Z;
  ProcessingTimeMs : Q
}.
End BatchClassifyResponse.

Module IconifySearchResult.
Record t := mk {
  Icons : list gostring;
  Total : Z
}.
End IconifySearchResult.

(** ** Constants *)

Definition sourceURL : gostring := "https://icons.terrastruct.com".
Definition llmServiceURL : gostring := "http://localhost:5000/classify".
Definition llmBatchURL : gostring := "http://localhost:5000/batch".
Definition llmHealthURL : gostring := "http://localhost:5000/health".
Definition StatusOK : Z := 200.

(** The switches of the [const] block.  They are compile-time constants in
    the source; the record lets the branches they select be stated. *)
Record Config := {
  useLLMEnrichment : bool;
  useBatchProcessing : bool;
  batchSize : Z
}.

(** The values in the source. *)
Definition config : Config := {|
  useLLMEnrichment := false;
  useBatchProcessing := true;
  batchSize := 5
|}.

Definition popularServices : list gostring :=
  [ lit "ec2"; lit "s3"; lit "lambda"; lit "rds"; lit "dynamodb";
    lit "vpc"; lit "eks"; lit "ecs"; lit "kubernetes"; lit "docker" ].

Definition providerMap : list (gostring * gostring) :=
  [ (lit "AWS", lit "Amazon Web Services"); (lit "AZURE", lit "Microsoft Azure");
    (lit "GCP", lit "Google Cloud Platform"); (lit "ESSENTIALS", lit "Essential Icons");
    (lit "DEV", lit "Development Tools"); (lit "INFRA", lit "Infrastructure");
    (lit "TECH", lit "Technology"); (lit "SOCIAL", lit "Social Media");
    (lit "EMOTIONS", lit "Emojis") ].

Fixpoint gostring_eqb (a b : gostring) : bool :=
  match a, b with
  | [], [] => true
  | x :: a', y :: b' => byte_eqb x y && gostring_eqb a' b'
  | _, _ => false
  end.

Fixpoint lookup {V} (m : list (gostring * V)) (k : gostring) : option V :=
  match m with
  | [] => None
  | (k', v) :: m' => if gostring_eqb k' k then Some v else lookup m' k
  end.

(** ** The world outside the program *)

(** A request as [http.NewRequest] builds it. *)
Record Request := {
  Method : gostring;
  ReqURL : gostring;
  Body : gostring
}.

(** What [httpClient.Do] returns. *)
Inductive Reply :=
| Failed                                  (* the client returned an error *)
| Response (StatusCode : Z) (body : gostring).

(** What the run reads from outside: the libraries' tables, the decoders of
    [encoding/json] on response bodies ([None] is a decoding error), the
    network, the identifier source and the clock. *)
Record Env := {
  (* unicode.CaseRanges *)
  tables : CaseTables;
  (* strings.Title, which also reads the letter and title-case tables *)
  strings_Title : gostring -> gostring;
  (* json.Marshal of the batch request and of the classify payload *)
  json_MarshalBatch : BatchClassifyRequest.t -> option gostring;
  json_MarshalClassify : gostring -> gostring -> gostring -> option gostring;
  (* whether http.NewRequest accepts the method and the URL *)
  validRequest : gostring -> gostring -> bool;
  (* the answer to a request, given the requests sent before it *)
  http_Do : list Request -> Request -> Reply;
  (* json decoding of the three kinds of response body *)
  json_DecodeBatch : gostring -> option BatchClassifyResponse.t;
  json_DecodeEnrichment : gostring -> option LLMEnrichmentResponse.t;
  json_UnmarshalSearch : gostring -> option IconifySearchResult.t;
  (* the k-th value of uuid.New().String() in the run *)
  uuid_New : nat -> gostring;
  (* time.Now().UTC().Format(time.RFC3339) *)
  time_Now : gostring
}.

(** The state a run threads: the package variable [llmServiceAvailable],
    how many identifiers were drawn, and the requests sent so far, oldest
    first. *)
Record World := {
  llmServiceAvailable : bool;
  drawn : nat;
  sent : list Request
}.

(** How a computation ends. *)
Inductive outcome (A : Type) :=
| Done (a : A) (w : World)
| Panic                                   (* a run-time panic *)
| Diverge.                                (* the loop does not end *)
Arguments Done {A} a w.
Arguments Panic {A}.
Arguments Diverge {A}.

(** Computations that read and change the world and may panic. *)
Definition M (A : Type) := World -> outcome A.

Definition ret {A} (a : A) : M A := fun w => Done a w.
Definition bind {A B} (m : M A) (k : A -> M B) : M B :=
  fun w => match m w with
           | Done a w' => k a w'
           | Panic => Panic
           | Diverge => Diverge
           end.
Definition panic {A} : M A := fun _ => Panic.

Notation "x <- m ;; k" := (bind m (fun x => k))
  (at level 61, m at next level, right associativity).

(** The state of a fresh process: [llmServiceAvailable = false]. *)
Definition world0 : World :=
  {| llmServiceAvailable := false; drawn := 0; sent := [] |}.

(** ** encoding/json: [json.Marshal] of a [[]string] *)

Definition hex (n : Z) : byte :=
  nth (Z.to_nat n) (lit "0123456789abcdef") x00.

(** [htmlSafeSet]: the ASCII bytes written as they are. *)
Definition htmlSafe (b : Z) : bool :=
  (0x20 <=? b) && (b <? RuneSelf)
  && negb ((b =? 0x22) || (b =? 0x5C) || (b =? 0x3C) || (b =? 0x3E) || (b =? 0x26)).

(** One step of [appendString] (with HTML escaping, as [json.Marshal] sets
    it): how the rune [c], read from the bytes [bs], is written.  The short
    forms of backspace and form feed are those of Go 1.22 and later; older
    releases write them as [\u0008] and [\u000c], the same characters. *)
Definition appendRune (c : rune * gostring) : gostring :=
  let (r, bs) := c in
  if r <? RuneSelf then
    if htmlSafe r then bs
    else if (r =? 0x5C) || (r =? 0x22) then [x5c; zbyte r]
    else if r =? 0x08 then lit "\b"
    else if r =? 0x0C then lit "\f"
    else if r =? 0x0A then lit "\n"
    else if r =? 0x0D then lit "\r"
    else if r =? 0x09 then lit "\t"
    else lit "\u00" ++ [hex (Z.shiftr r 4); hex (Z.land r 0xF)]
  else if (r =? RuneError) && (List.length bs =? 1)%nat then lit "\ufffd"
  else if (r =? 0x2028) || (r =? 0x2029) then lit "\u202" ++ [hex (Z.land r 0xF)]
  else bs.

Definition appendString (src : gostring) : gostring :=
  [x22] ++ flat_map appendRune (range src) ++ [x22].

Fixpoint appendElems (arr : list gostring) : gostring :=
  match arr with
  | [] => []
  | [e] => appendString e
  | e :: rest => appendString e ++ lit "," ++ appendElems rest
  end.

(** [json.Marshal(arr)] for [arr []string] that is not nil.  It cannot fail. *)
Definition json_MarshalStrings (arr : list gostring) : gostring :=
  lit "[" ++ appendElems arr ++ lit "]".

(** ** The program: helpers of the payload assembler *)

Definition determineShapeType (category : gostring) : gostring := "image".

Definition determineDefaultWidth (category : gostring) : Z :=
  if gostring_eqb category "network" || gostring_eqb category "container" then 128
  else if gostring_eqb category "storage" || gostring_eqb category "database" then 96
  else 64.

Definition arrayToJSON (arr : list gostring) : gostring :=
  if (List.length arr =? 0)%nat then "[]"
  else json_MarshalStrings arr.

Section Helpers.

Variable E : Env.

(** [for service := range popularServices]: the map is visited in an order
    the language leaves open. *)
Definition calculatePopularityIn (order : list gostring) (title : gostring) : Q :=
  let titleLower := strings_ToLower (tables E) title in
  if existsb (fun service => strings_Contains titleLower service) order
  then 1%Q else (1 # 2)%Q.

Definition calculatePopularity (title : gostring) : Q :=
  calculatePopularityIn popularServices title.

Definition getFullProviderName (provider : gostring) : gostring :=
  match lookup providerMap (strings_ToUpper (tables E) provider) with
  | Some fullName => fullName
  | None => strings_Title E (strings_ToLower (tables E) provider)
  end.

End Helpers.

(** ** The program: network clients and the driver *)

Section Program.

Variable E : Env.
Variable C : Config.

(** [http.NewRequestWithContext]: [None] is its error. *)
Definition NewRequest (method url body : gostring) : option Request :=
  if validRequest E method url
  then Some {| Method := method; ReqURL := url; Body := body |}
  else None.

(** [httpClient.Do]: the request is sent, the world answers. *)
Definition Do (req : Request) : M Reply :=
  fun w => Done (http_Do E (sent w) req)
                {| llmServiceAvailable := llmServiceAvailable w;
                   drawn := drawn w;
                   sent := sent w ++ [req] |}.

(** [httpClient.Get] *)
Definition Get (url : gostring) : M Reply :=
  match NewRequest "GET" url [] with
  | None => ret Failed
  | Some req => Do req
  end.

(** [uuid.New().String()] *)
Definition uuid_NewString : M gostring :=
  fun w => Done (uuid_New E (drawn w))
                {| llmServiceAvailable := llmServiceAvailable w;
                   drawn := S (drawn w);
                   sent := sent w |}.

(** Writing and reading the package variable [llmServiceAvailable]. *)
Definition setAvailable (b : bool) : M unit :=
  fun w => Done tt {| llmServiceAvailable := b; drawn := drawn w; sent := sent w |}.

Definition getAvailable : M bool :=
  fun w => Done (llmServiceAvailable w) w.

Definition checkLLMService : M bool :=
  match NewRequest "GET" llmHealthURL [] with
  | None => ret false
  | Some req =>
    resp <- Do req ;;
    match resp with
    | Failed => ret false
    | Response code _ => ret (code =? StatusOK)
    end
  end.

(** [make([]LLMEnrichmentResponse, n)] *)
Definition zeros (n : nat) : list LLMEnrichmentResponse.t :=
  repeat LLMEnrichmentResponse.zero n.

Definition batchInputOf (p : PendingIcon.t) : BatchIconInput.t :=
  BatchIconInput.mk (PendingIcon.Category p) (PendingIcon.Title p)
                    (PendingIcon.DisplayName p).

Definition batchEnrichIcons (pending : list PendingIcon.t)
  : M (list LLMEnrichmentResponse.t) :=
  let batchInput := BatchClassifyRequest.mk (map batchInputOf pending) in
  match json_MarshalBatch E batchInput with
  | None => ret (zeros (List.length pending))
  | Some jsonData =>
    match NewRequest "POST" llmBatchURL jsonData with
    | None => ret (zeros (List.length pending))
    | Some req =>
      resp <- Do req ;;
      match resp with
      | Failed => ret (zeros (List.length pending))
      | Response code body =>
        if negb (code =? StatusOK) then ret (zeros (List.length pending))
        else match json_DecodeBatch E body with
        | None => ret (zeros (List.length pending))
        | Some batchResp => ret (BatchClassifyResponse.Results batchResp)
        end
      end
    end
  end.

(** The errors of [json.Marshal] and of [http.NewRequestWithContext] are
    dropped here: a failed marshal leaves an empty body, a failed request
    construction leaves a nil request, and setting its header panics. *)
Definition getLLMEnrichment (provider title displayName : gostring)
  : M LLMEnrichmentResponse.t :=
  let jsonData :=
    match json_MarshalClassify E provider title displayName with
    | Some d => d
    | None => []
    end in
  match NewRequest "POST" llmServiceURL jsonData with
  | None => panic
  | Some req =>
    resp <- Do req ;;
    match resp with
    | Failed => ret LLMEnrichmentResponse.zero
    | Response code body =>
      if negb (code =? StatusOK) then ret LLMEnrichmentResponse.zero
      else match json_DecodeEnrichment E body with
      | None => ret LLMEnrichmentResponse.zero
      | Some enrichment => ret enrichment
      end
    end
  end.

Definition searchURL (query : gostring) : gostring :=
  lit "https://api.iconify.design/search?query=" ++ query ++ lit "&limit=3".

Definition fallbackIconifyID (provider title : gostring) : gostring :=
  let providerLower := strings_ToLower (tables E) provider in
  let titleClean :=
    ReplaceAllString notSlugChar
      (strings_ToLower (tables E) (strings_ReplaceAll title " " "-")) [] in
  lit "logos:" ++ providerLower ++ lit "-" ++ titleClean.

(** The [for _, query := range queries] loop of [verifyIconifyID]; [None]
    is falling out of the loop. *)
Fixpoint tryQueries (queries : list gostring) : M (option gostring) :=
  match queries with
  | [] => ret None
  | query :: rest =>
    resp <- Get (searchURL query) ;;
    match resp with
    | Failed => tryQueries rest
    | Response _ body =>
      match json_UnmarshalSearch E body with
      | None => tryQueries rest
      | Some result =>
        if (IconifySearchResult.Total result >? 0)
           && (0 <? List.length (IconifySearchResult.Icons result))%nat
        then match IconifySearchResult.Icons result with
             | icon :: _ => ret (Some icon)
             | [] => panic
             end
        else tryQueries rest
      end
    end
  end.

Definition verifyIconifyID (provider title slug : gostring) : M gostring :=
  let queries := [ provider ++ lit " " ++ title; title; slug ] in
  found <- tryQueries queries ;;
  match found with
  | Some icon => ret icon
  | None => ret (fallbackIconifyID provider title)
  end.

Definition createIconPayload (provider title link displayName : gostring)
    (enrichment : LLMEnrichmentResponse.t) (timestamp : gostring)
  : M IconPayload.t :=
  let slug := generateSlug (tables E) provider title in
  iconifyID <- verifyIconifyID provider title slug ;;
  let description :=
    displayName ++ lit " from " ++ provider ++ lit ". "
    ++ LLMEnrichmentResponse.TechnicalIntent enrichment in
  let iconPosition : gostring :=
    if LLMEnrichmentResponse.IsContainer enrichment then "top-left" else "center" in
  id <- uuid_NewString ;;
  ret {| IconPayload.ID := id;
         IconPayload.Slug := slug;
         IconPayload.IconifyID := iconifyID;
         IconPayload.Provider := getFullProviderName E provider;
         IconPayload.URL := sourceURL ++ lit "/" ++ link;
         IconPayload.SemanticProfile := LLMEnrichmentResponse.SemanticProfile enrichment;
         IconPayload.DisplayName := displayName;
         IconPayload.Aliases := arrayToJSON (LLMEnrichmentResponse.Aliases enrichment);
         IconPayload.Description := description;
         IconPayload.TechnicalIntent := LLMEnrichmentResponse.TechnicalIntent enrichment;
         IconPayload.ShapeType := LLMEnrichmentResponse.ShapeType enrichment;
         IconPayload.DefaultWidth :=
           determineDefaultWidth (LLMEnrichmentResponse.Category enrichment);
         IconPayload.IsContainer := LLMEnrichmentResponse.IsContainer enrichment;
         IconPayload.IconPosition := iconPosition;
         IconPayload.ColorTheme := LLMEnrichmentResponse.BrandColor enrichment;
         IconPayload.Popularity := calculatePopularity E title;
         IconPayload.Tags := arrayToJSON (LLMEnrichmentResponse.Tags enrichment);
         IconPayload.LastScraped := timestamp |}.

(** *** Generate *)

(** The two accumulators of [Generate]: [allIcons], and [providerIcons]
    keyed by the full provider name. *)
Definition Icons : Type := list IconPayload.t * list (gostring * list IconPayload.t).

Fixpoint appendAt (m : list (gostring * list IconPayload.t)) (k : gostring)
         (icon : IconPayload.t) : list (gostring * list IconPayload.t) :=
  match m with
  | [] => [(k, [icon])]
  | (k', v) :: m' =>
    if gostring_eqb k' k then (k', v ++ [icon]) :: m'
    else (k', v) :: appendAt m' k icon
  end.

Definition addIcon (acc : Icons) (icon : IconPayload.t) : Icons :=
  (fst acc ++ [icon], appendAt (snd acc) (IconPayload.Provider icon) icon).

(** [s[i:j]]; out of range is a panic.  (The loop never asks for more than
    the length, so length and capacity need not be told apart.) *)
Definition slice {A} (s : list A) (i j : Z) : option (list A) :=
  if (0 <=? i) && (i <=? j) && (j <=? Z.of_nat (List.length s))
  then Some (firstn (Z.to_nat (j - i)) (skipn (Z.to_nat i) s))
  else None.

(** [s[j]]; out of range is a panic. *)
Definition index {A} (s : list A) (j : nat) : M A :=
  match nth_error s j with
  | Some a => ret a
  | None => panic
  end.

(** [for j, pending := range batch] of the batch branch, from index [j]. *)
Fixpoint assembleBatch (timestamp : gostring)
         (enrichments : list LLMEnrichmentResponse.t)
         (j : nat) (batch : list PendingIcon.t) (acc : Icons) : M Icons :=
  match batch with
  | [] => ret acc
  | pending :: rest =>
    enrichment <-
      (if (j <? List.length enrichments)%nat then index enrichments j
       else ret LLMEnrichmentResponse.zero) ;;
    icon <- createIconPayload (PendingIcon.Category pending) (PendingIcon.Title pending)
              (PendingIcon.Link pending) (PendingIcon.DisplayName pending)
              enrichment timestamp ;;
    assembleBatch timestamp enrichments (S j) rest (addIcon acc icon)
  end.

(** [for i := 0; i < len(pendingIcons); i += batchSize].  Every turn of the
    loop uses one unit of [fuel]. *)
Fixpoint batchLoop (fuel : nat) (timestamp : gostring)
         (pendingIcons : list PendingIcon.t) (i : Z) (acc : Icons) : M Icons :=
  let len := Z.of_nat (List.length pendingIcons) in
  if i <? len then
    match fuel with
    | O => fun _ => Diverge
    | S fuel' =>
      let end_ := i + batchSize C in
      let end_ := if end_ >? len then len else end_ in
      match slice pendingIcons i end_ with
      | None => panic
      | Some batch =>
        enrichments <- batchEnrichIcons batch ;;
        acc' <- assembleBatch timestamp enrichments 0 batch acc ;;
        batchLoop fuel' timestamp pendingIcons (i + batchSize C) acc'
      end
    end
  else ret acc.

(** [for _, pending := range pendingIcons] of the other branch. *)
Fixpoint eachLoop (timestamp : gostring) (pendingIcons : list PendingIcon.t)
         (acc : Icons) : M Icons :=
  match pendingIcons with
  | [] => ret acc
  | pending :: rest =>
    available <- getAvailable ;;
    enrichment <-
      (if useLLMEnrichment C && available
       then getLLMEnrichment (PendingIcon.Category pending) (PendingIcon.Title pending)
                             (PendingIcon.DisplayName pending)
       else ret LLMEnrichmentResponse.zero) ;;
    icon <- createIconPayload (PendingIcon.Category pending) (PendingIcon.Title pending)
              (PendingIcon.Link pending) (PendingIcon.DisplayName pending)
              enrichment timestamp ;;
    eachLoop timestamp rest (addIcon acc icon)
  end.

(** [Generate], from the collected [pendingIcons] to the records it writes:
    the health check and the loop over the pending icons, which fill
    [allIcons] (to [output/icons_rag.json]) and [providerIcons] (one file
    per provider).  The scraping between the two (see [visit] below), the
    making of the directories and the writing of the files, each with its
    [log.Fatalf] exit, are outside this definition, and so is the request
    for the page, which the collector sends with a client of its own: the
    definition speaks of the records and of the requests sent through
    [httpClient].  When the step is positive the batch loop ends within
    [len(pendingIcons)] turns. *)
Definition Generate (pendingIcons : list PendingIcon.t) : M Icons :=
  _ <- (if useLLMEnrichment C then
          ok <- checkLLMService ;;
          if ok then setAvailable true else setAvailable false
        else ret tt) ;;
  let timestamp := time_Now E in
  available <- getAvailable ;;
  if useLLMEnrichment C && available && useBatchProcessing C then
    batchLoop (List.length pendingIcons) timestamp pendingIcons 0 ([], [])
  else
    eachLoop timestamp pendingIcons ([], []).

(** [strings.Split(link, "%")[0]] *)
Fixpoint beforePercent (link : gostring) : gostring :=
  match link with
  | [] => []
  | b :: rest => if byte_eqb b "%" then [] else b :: beforePercent rest
  end.

(** The record that the scraping callback appends for an icon element with
    link [link] and [data-search] attribute [title] (test mode off); [None]
    when the element is skipped. *)
Definition collectIcon (link title : gostring) : option PendingIcon.t :=
  if negb (gostring_eqb link []) && strings_Contains link "%" then
    let category := strings_ToUpper (tables E) (beforePercent link) in
    Some (PendingIcon.mk category title link (cleanDisplayName (tables E) title))
  else None.

End Program.

(** ** The program: scraping and the provider keys *)

Definition reverseMap : list (gostring * gostring) :=
  [ (lit "Amazon Web Services", lit "aws"); (lit "Microsoft Azure", lit "azure");
    (lit "Google Cloud Platform", lit "gcp"); (lit "Essential Icons", lit "essentials");
    (lit "Development Tools", lit "dev"); (lit "Infrastructure", lit "infra");
    (lit "Technology", lit "tech"); (lit "Social Media", lit "social");
    (lit "Emojis", lit "emotions") ].

Definition getProviderKey (T : CaseTables) (fullProviderName : gostring) : gostring :=
  match lookup reverseMap fullProviderName with
  | Some key => key
  | None => strings_ToLower T fullProviderName
  end.

(** The value of a character of the class [[0-9a-fA-F]]. *)
Definition hexDigit (z : Z) : option Z :=
  if (0x30 <=? z) && (z <=? 0x39) then Some (z - 0x30)
  else if (0x61 <=? z) && (z <=? 0x66) then Some (z - 0x61 + 10)
  else if (0x41 <=? z) && (z <=? 0x46) then Some (z - 0x41 + 10)
  else None.

(** A match of [escapeRgx], the pattern [\\u([0-9a-fA-F]{4})], at the head
    of [s]: the value of its four hexadecimal digits
    ([strconv.ParseInt(hexCode, 16, 32)]). *)
Definition escapeAt (s : gostring) : option Z :=
  match s with
  | b0 :: b1 :: h1 :: h2 :: h3 :: h4 :: _ =>
    if byte_eqb b0 x5c && byte_eqb b1 "u" then
      match hexDigit (byteZ h1), hexDigit (byteZ h2),
            hexDigit (byteZ h3), hexDigit (byteZ h4) with
      | Some d1, Some d2, Some d3, Some d4 => Some (((d1 * 16 + d2) * 16 + d3) * 16 + d4)
      | _, _, _, _ => None
      end
    else None
  | _ => None
  end.

(** [escapeRgx.ReplaceAllStringFunc]: the matches, leftmost first and not
    overlapping, become [string(rune(unicodeValue))]; [skip] counts the
    bytes of the current match still to be passed over. *)
Fixpoint unescapeFrom (skip : nat) (s : gostring) : gostring :=
  match s with
  | [] => []
  | b :: t =>
    match skip with
    | S k => unescapeFrom k t
    | O =>
      match escapeAt s with
      | Some unicodeValue => EncodeRune unicodeValue ++ unescapeFrom 5 t
      | None => b :: unescapeFrom 0 t
      end
    end
  end.

Definition getUnescaped (escaped : gostring) : gostring := unescapeFrom 0 escaped.

(** [strings.TrimPrefix] *)
Definition strings_TrimPrefix (s prefix : gostring) : gostring :=
  if HasPrefix s prefix then skipn (List.length prefix) s else s.

(** [strings.HasSuffix] *)
Definition HasSuffix (s suffix : gostring) : bool :=
  (List.length suffix <=? List.length s)%nat
  && gostring_eqb (skipn (List.length s - List.length suffix) s) suffix.

(** [strings.TrimSuffix] *)
Definition strings_TrimSuffix (s suffix : gostring) : gostring :=
  if HasSuffix s suffix then firstn (List.length s - List.length suffix) s else s.

(** The attributes the callback reads from a [div] element ([e.Attr] is
    the empty string for a missing attribute). *)
Record Element := {
  classAttr : gostring;
  onclick : gostring;
  dataSearch : gostring
}.

(** The two test-mode constants of the [const] block. *)
Record TestMode := {
  testingMode : bool;
  testLimit : Z
}.

(** The values in the source. *)
Definition testMode : TestMode := {| testingMode := false; testLimit := 10 |}.

(** What the callback updates: [pendingIcons] (here [collected]),
    [categoryCount] and the package variable [categories]. *)
Record Scraped := {
  collected : list PendingIcon.t;
  categoryCount : list (gostring * Z);
  categories : list (gostring * bool)
}.

(** [m[k] = v] *)
Fixpoint assign {V} (m : list (gostring * V)) (k : gostring) (v : V)
  : list (gostring * V) :=
  match m with
  | [] => [(k, v)]
  | (k', v') :: m' =>
    if gostring_eqb k' k then (k', v) :: m' else (k', v') :: assign m' k v
  end.

(** [categoryCount[category]]: a missing key reads as zero. *)
Definition count (m : list (gostring * Z)) (k : gostring) : Z :=
  match lookup m k with
  | Some n => n
  | None => 0
  end.

Section Scraping.

Variable T : CaseTables.
Variable TM : TestMode.

(** The link of an icon element: its [onclick] attribute unescaped, without
    the call around it. *)
Definition linkOf (e : Element) : gostring :=
  let unescaped := getUnescaped (onclick e) in
  strings_TrimSuffix (strings_TrimPrefix unescaped (lit "clickIcon(" ++ [x22]))
                     ([x22] ++ lit ")").

(** The callback of [c.OnHTML] for [div] elements, on one element.
    [strings.Split] with a non-empty separator returns at least one part, so
    the test [len(parts) > 0] always succeeds, and [parts[0]] is the part of
    the link before its first percent sign. *)
Definition onDiv (st : Scraped) (e : Element) : Scraped :=
  if gostring_eqb (classAttr e) "icon" then
    let link := linkOf e in
    if negb (gostring_eqb link []) && strings_Contains link "%" then
      let category := strings_ToUpper T (beforePercent link) in
      if testingMode TM && (count (categoryCount st) category >=? testLimit TM) then st
      else
        let title := dataSearch e in
        {| collected :=
             collected st
             ++ [PendingIcon.mk category title link (cleanDisplayName T title)];
           categoryCount :=
             assign (categoryCount st) category (count (categoryCount st) category + 1);
           categories := assign (categories st) category true |}
    else st
  else st.

(** [c.Visit(sourceURL)]: the callback runs on the [div] elements of the
    page in document order. *)
Definition visit (st : Scraped) (page : list Element) : Scraped :=
  fold_left onDiv page st.

End Scraping.

(** The state before the page is visited in a fresh process. *)
Definition scraped0 : Scraped :=
  {| collected := []; categoryCount := []; categories := [] |}.

(** * Notions used in the statements *)

(** ** Decoded runes *)

(** The shapes a decoded rune can have: the sequence it is read from, its
    value and its width. *)
Inductive decoded : gostring -> rune -> nat -> Prop :=
| dec_ascii b t :
    byteZ b < 0x80 -> decoded (b :: t) (byteZ b) 1
| dec_invalid b t :
    0x80 <= byteZ b -> decoded (b :: t) RuneError 1
| dec_two b0 b1 t :
    0xC2 <= byteZ b0 <= 0xDF -> 0x80 <= byteZ b1 <= 0xBF ->
    decoded (b0 :: b1 :: t) ((byteZ b0 mod 32) * 64 + byteZ b1 mod 64) 2
| dec_three b0 b1 b2 t :
    0xE0 <= byteZ b0 <= 0xEF -> 0x80 <= byteZ b1 <= 0xBF ->
    (byteZ b0 = 0xE0 -> 0xA0 <= byteZ b1) ->
    (byteZ b0 = 0xED -> byteZ b1 <= 0x9F) ->
    0x80 <= byteZ b2 <= 0xBF ->
    decoded (b0 :: b1 :: b2 :: t)
            ((byteZ b0 mod 16) * 4096 + (byteZ b1 mod 64) * 64 + byteZ b2 mod 64) 3
| dec_four b0 b1 b2 b3 t :
    0xF0 <= byteZ b0 <= 0xF4 -> 0x80 <= byteZ b1 <= 0xBF ->
    (byteZ b0 = 0xF0 -> 0x90 <= byteZ b1) ->
    (byteZ b0 = 0xF4 -> byteZ b1 <= 0x8F) ->
    0x80 <= byteZ b2 <= 0xBF -> 0x80 <= byteZ b3 <= 0xBF ->
    decoded (b0 :: b1 :: b2 :: b3 :: t)
            ((byteZ b0 mod 8) * 262144 + (byteZ b1 mod 64) * 4096
             + (byteZ b2 mod 64) * 64 + byteZ b3 mod 64) 4.

(** ** Slugs *)

(** The byte is one that the sanitizer keeps. *)
Definition slugByte (b : byte) : bool := slugChar (byteZ b).

(** A byte that is a lowercase ASCII letter, a digit or a hyphen. *)
Definition lowerDigitHyphen (b : byte) : Prop :=
  0x61 <= byteZ b <= 0x7A \/ 0x30 <= byteZ b <= 0x39 \/ byteZ b = 0x2D.

(** The sanitization that [generateSlug] and the fallback of
    [verifyIconifyID] apply to a title. *)
Definition sanitize (T : CaseTables) (title : gostring) : gostring :=
  ReplaceAllString notSlugChar
    (strings_ToLower T (strings_ReplaceAll title " " "-")) [].

(** Spaces to hyphens, as [strings.ReplaceAll(title, " ", "-")] does. *)
Definition hyphenate (b : byte) : byte := if byte_eqb " " b then "-"%byte else b.

(** ** Batches *)

(** ceil(n/b) *)
Definition ceilDiv (n b : nat) : nat := ((n + b - 1) / b)%nat.

(** The slices [l[0:B]], [l[B:2B]], ... that cover [l]. *)
Definition batches {A} (B : nat) (l : list A) : list (list A) :=
  map (fun k => firstn B (skipn (k * B) l)) (seq 0 (ceilDiv (List.length l) B)).

(** ** A decoder for JSON arrays of strings

    The reader the specification appeals to when it says that the output of
    [arrayToJSON] parses back: the grammar of RFC 8259 for an array whose
    elements are strings, read byte by byte.  Bytes of a string that are not
    part of an escape are taken as they are; [\uXXXX] escapes are written
    in UTF-8, a surrogate pair as one rune and a lone surrogate as U+FFFD. *)

Inductive jmode :=
| JStart                      (* before the opening bracket *)
| JFirst                      (* after the bracket: a string or the end *)
| JValue                      (* after a comma: a string *)
| JString                     (* inside a string *)
| JEscape                     (* after a backslash *)
| JHex (n : nat) (v : Z)      (* after [\u] and [n] hexadecimal digits *)
| JAfter                      (* after a string: a comma or the end *)
| JEnd.                       (* after the closing bracket *)

Record jstate := {
  jmod : jmode;
  jcur : gostring;            (* the string being read *)
  jhigh : option Z;           (* a high surrogate waiting for its pair *)
  jacc : list gostring        (* the strings read so far *)
}.

Definition jspace (z : Z) : bool :=
  (z =? 0x20) || (z =? 0x09) || (z =? 0x0A) || (z =? 0x0D).

Definition hexval (z : Z) : option Z :=
  if (0x30 <=? z) && (z <=? 0x39) then Some (z - 0x30)
  else if (0x61 <=? z) && (z <=? 0x66) then Some (z - 0x61 + 10)
  else if (0x41 <=? z) && (z <=? 0x46) then Some (z - 0x41 + 10)
  else None.

Definition unescape (z : Z) : option byte :=
  if z =? 0x22 then Some x22
  else if z =? 0x5C then Some x5c
  else if z =? 0x2F then Some x2f
  else if z =? 0x62 then Some x08
  else if z =? 0x66 then Some x0c
  else if z =? 0x6E then Some x0a
  else if z =? 0x72 then Some x0d
  else if z =? 0x74 then Some x09
  else None.

(** The string read so far, a waiting high surrogate written as U+FFFD. *)
Definition jflush (cur : gostring) (high : option Z) : gostring :=
  match high with
  | Some _ => cur ++ EncodeRune RuneError
  | None => cur
  end.

Definition isHighSurrogate (r : Z) : bool := (0xD800 <=? r) && (r <=? 0xDBFF).
Definition isLowSurrogate (r : Z) : bool := (0xDC00 <=? r) && (r <=? 0xDFFF).

(** The state after the escape [\uXXXX] with value [r]. *)
Definition junicode (st : jstate) (r : Z) : jstate :=
  match jhigh st with
  | Some h =>
    if isLowSurrogate r then
      {| jmod := JString;
         jcur := jcur st ++ EncodeRune (0x10000 + (h - 0xD800) * 0x400 + (r - 0xDC00));
         jhigh := None; jacc := jacc st |}
    else if isHighSurrogate r then
      {| jmod := JString; jcur := jcur st ++ EncodeRune RuneError;
         jhigh := Some r; jacc := jacc st |}
    else
      {| jmod := JString; jcur := jcur st ++ EncodeRune RuneError ++ EncodeRune r;
         jhigh := None; jacc := jacc st |}
  | None =>
    if isHighSurrogate r then
      {| jmod := JString; jcur := jcur st; jhigh := Some r; jacc := jacc st |}
    else
      {| jmod := JString; jcur := jcur st ++ EncodeRune r;
         jhigh := None; jacc := jacc st |}
  end.

Definition jmove (st : jstate) (m : jmode) : jstate :=
  {| jmod := m; jcur := jcur st; jhigh := jhigh st; jacc := jacc st |}.

Definition jstep (st : jstate) (b : byte) : option jstate :=
  let z := byteZ b in
  match jmod st with
  | JStart =>
    if jspace z then Some st
    else if z =? 0x5B then Some (jmove st JFirst)
    else None
  | JFirst =>
    if jspace z then Some st
    else if z =? 0x5D then Some (jmove st JEnd)
    else if z =? 0x22 then Some (jmove st JString)
    else None
  | JValue =>
    if jspace z then Some st
    else if z =? 0x22 then Some (jmove st JString)
    else None
  | JString =>
    if z =? 0x22 then
      Some {| jmod := JAfter; jcur := []; jhigh := None;
              jacc := jacc st ++ [jflush (jcur st) (jhigh st)] |}
    else if z =? 0x5C then Some (jmove st JEscape)
    else if z <? 0x20 then None
    else Some {| jmod := JString; jcur := jflush (jcur st) (jhigh st) ++ [b];
                 jhigh := None; jacc := jacc st |}
  | JEscape =>
    if z =? 0x75 then Some (jmove st (JHex 0 0))
    else match unescape z with
    | Some c => Some {| jmod := JString; jcur := jflush (jcur st) (jhigh st) ++ [c];
                        jhigh := None; jacc := jacc st |}
    | None => None
    end
  | JHex n v =>
    match hexval z with
    | None => None
    | Some d =>
      if (n =? 3)%nat then Some (junicode st (v * 16 + d))
      else Some (jmove st (JHex (S n) (v * 16 + d)))
    end
  | JAfter =>
    if jspace z then Some st
    else if z =? 0x2C then Some (jmove st JValue)
    else if z =? 0x5D then Some (jmove st JEnd)
    else None
  | JEnd => if jspace z then Some st else None
  end.

Fixpoint jrun (st : jstate) (s : gostring) : option jstate :=
  match s with
  | [] => Some st
  | b :: t =>
    match jstep st b with
    | Some st' => jrun st' t
    | None => None
    end
  end.

Definition jinit : jstate :=
  {| jmod := JStart; jcur := []; jhigh := None; jacc := [] |}.

(** The array of strings that the JSON text [s] denotes, if it is one. *)
Definition json_DecodeStrings (s : gostring) : option (list gostring) :=
  match jrun jinit s with
  | Some st =>
    match jmod st with
    | JEnd => Some (jacc st)
    | _ => None
    end
  | None => None
  end.

(** The decoder inside a string, [cur] read so far. *)
Definition inString (cur : gostring) (acc : list gostring) : jstate :=
  {| jmod := JString; jcur := cur; jhigh := None; jacc := acc |}.

(** The decoder between elements. *)
Definition between (m : jmode) (acc : list gostring) : jstate :=
  {| jmod := m; jcur := []; jhigh := None; jacc := acc |}.

(** ** ASCII strings *)

(** The rune an ASCII byte decodes to, with the byte it is read from. *)
Definition chunk1 (b : byte) : rune * gostring := (byteZ b, [b]).

(** The two replacements of [cleanDisplayName], byte by byte. *)
Definition separate (b : byte) : byte :=
  if byte_eqb "-" (if byte_eqb "_" b then " "%byte else b) then " "%byte
  else if byte_eqb "_" b then " "%byte else b.

(** ** Runs of the program *)

Section Notions.

Variable E : Env.
Variable C : Config.

(** The world after [reqs] more requests were sent. *)
Definition sending (w : World) (reqs : list Request) : World :=
  {| llmServiceAvailable := llmServiceAvailable w;
     drawn := drawn w;
     sent := sent w ++ reqs |}.

(** What a search response offers: the first icon of a result that reports
    a positive total and a non-empty list. *)
Definition firstIcon (resp : Reply) : option gostring :=
  match resp with
  | Failed => None
  | Response _ body =>
    match json_UnmarshalSearch E body with
    | None => None
    | Some result =>
      if IconifySearchResult.Total result >? 0
      then hd_error (IconifySearchResult.Icons result)
      else None
    end
  end.

(** The world after one more identifier was drawn. *)
Definition drawing (w : World) : World :=
  {| llmServiceAvailable := llmServiceAvailable w;
     drawn := S (drawn w);
     sent := sent w |}.

(** The record [createIconPayload] returns, given the identifier it drew
    and the icon reference the search found. *)
Definition payload (p : PendingIcon.t) (e : LLMEnrichmentResponse.t)
    (timestamp id iconifyID : gostring) : IconPayload.t :=
  {| IconPayload.ID := id;
     IconPayload.Slug :=
       generateSlug (tables E) (PendingIcon.Category p) (PendingIcon.Title p);
     IconPayload.IconifyID := iconifyID;
     IconPayload.Provider := getFullProviderName E (PendingIcon.Category p);
     IconPayload.URL := sourceURL ++ lit "/" ++ PendingIcon.Link p;
     IconPayload.SemanticProfile := LLMEnrichmentResponse.SemanticProfile e;
     IconPayload.DisplayName := PendingIcon.DisplayName p;
     IconPayload.Aliases := arrayToJSON (LLMEnrichmentResponse.Aliases e);
     IconPayload.Description :=
       PendingIcon.DisplayName p ++ lit " from " ++ PendingIcon.Category p
       ++ lit ". " ++ LLMEnrichmentResponse.TechnicalIntent e;
     IconPayload.TechnicalIntent := LLMEnrichmentResponse.TechnicalIntent e;
     IconPayload.ShapeType := LLMEnrichmentResponse.ShapeType e;
     IconPayload.DefaultWidth :=
       determineDefaultWidth (LLMEnrichmentResponse.Category e);
     IconPayload.IsContainer := LLMEnrichmentResponse.IsContainer e;
     IconPayload.IconPosition :=
       if LLMEnrichmentResponse.IsContainer e then lit "top-left" else lit "center";
     IconPayload.ColorTheme := LLMEnrichmentResponse.BrandColor e;
     IconPayload.Popularity := calculatePopularity E (PendingIcon.Title p);
     IconPayload.Tags := arrayToJSON (LLMEnrichmentResponse.Tags e);
     IconPayload.LastScraped := timestamp |}.

(** [createIconPayload] on a pending icon, as [Generate] calls it. *)
Definition create (p : PendingIcon.t) (e : LLMEnrichmentResponse.t)
    (timestamp : gostring) : M IconPayload.t :=
  createIconPayload E (PendingIcon.Category p) (PendingIcon.Title p)
    (PendingIcon.Link p) (PendingIcon.DisplayName p) e timestamp.

(** The icons a loop appended: the [k]-th identifier goes to the first
    pending icon, the next to the second, and so on; each record is built
    from its pending icon and the enrichment paired with it. *)
Inductive built (timestamp : gostring)
  : nat -> list (PendingIcon.t * LLMEnrichmentResponse.t) -> list IconPayload.t -> Prop :=
| built_nil k : built timestamp k [] []
| built_cons k p e iconifyID pes icons :
    built timestamp (S k) pes icons ->
    built timestamp k ((p, e) :: pes)
          (payload p e timestamp (uuid_New E k) iconifyID :: icons).

(** The accumulators after [icons] were appended one by one. *)
Definition addIcons (acc : Icons) (icons : list IconPayload.t) : Icons :=
  fold_left addIcon icons acc.

(** The enrichment the batch branch pairs with position [j]. *)
Definition enrichmentAt (enrichments : list LLMEnrichmentResponse.t) (j : nat)
  : LLMEnrichmentResponse.t :=
  nth j enrichments LLMEnrichmentResponse.zero.

(** A batch with the enrichments of its positions, from index [j] on. *)
Definition paired (enrichments : list LLMEnrichmentResponse.t) (j : nat)
    (batch : list PendingIcon.t)
  : list (PendingIcon.t * LLMEnrichmentResponse.t) :=
  combine batch (map (enrichmentAt enrichments) (seq j (List.length batch))).

(** The world after a loop that drew [n] identifiers. *)
Definition after (w w' : World) (n : nat) : Prop :=
  llmServiceAvailable w' = llmServiceAvailable w
  /\ drawn w' = (drawn w + n)%nat
  /\ exists reqs, sent w' = sent w ++ reqs.

(** The ways a batch request fails: the request cannot be serialized, the
    request cannot be constructed, the transport returns an error, the
    status is not 200, or the body does not decode. *)
Inductive batchFailure (pending : list PendingIcon.t) (w : World) : Prop :=
| fail_serialize :
    json_MarshalBatch E (BatchClassifyRequest.mk (map batchInputOf pending)) = None ->
    batchFailure pending w
| fail_construct jsonData :
    json_MarshalBatch E (BatchClassifyRequest.mk (map batchInputOf pending))
      = Some jsonData ->
    NewRequest E "POST" llmBatchURL jsonData = None ->
    batchFailure pending w
| fail_transport jsonData req :
    json_MarshalBatch E (BatchClassifyRequest.mk (map batchInputOf pending))
      = Some jsonData ->
    NewRequest E "POST" llmBatchURL jsonData = Some req ->
    http_Do E (sent w) req = Failed ->
    batchFailure pending w
| fail_status jsonData req code body :
    json_MarshalBatch E (BatchClassifyRequest.mk (map batchInputOf pending))
      = Some jsonData ->
    NewRequest E "POST" llmBatchURL jsonData = Some req ->
    http_Do E (sent w) req = Response code body ->
    code <> StatusOK ->
    batchFailure pending w
| fail_decode jsonData req body :
    json_MarshalBatch E (BatchClassifyRequest.mk (map batchInputOf pending))
      = Some jsonData ->
    NewRequest E "POST" llmBatchURL jsonData = Some req ->
    http_Do E (sent w) req = Response StatusOK body ->
    json_DecodeBatch E body = None ->
    batchFailure pending w.

(** The world after [llmServiceAvailable] was assigned. *)
Definition setting (w : World) (b : bool) : World :=
  {| llmServiceAvailable := b; drawn := drawn w; sent := sent w |}.

(** The world in which [Generate] enters its loop: after the health check,
    if enrichment is on. *)
Definition checked (w : World) : World :=
  if useLLMEnrichment C then
    match checkLLMService E w with
    | Done ok w1 => setting w1 ok
    | _ => w
    end
  else w.

(** What a record looks like when nothing enriched it. *)
Definition unenriched (icon : IconPayload.t) : Prop :=
  IconPayload.Aliases icon = lit "[]"
  /\ IconPayload.Tags icon = lit "[]"
  /\ IconPayload.SemanticProfile icon = []
  /\ IconPayload.TechnicalIntent icon = []
  /\ IconPayload.IsContainer icon = false
  /\ IconPayload.IconPosition icon = lit "center".

(** One call of [batchEnrichIcons] per chunk, then the assembly of the
    chunk, chunk after chunk. *)
Fixpoint perChunk (timestamp : gostring) (chunks : list (list PendingIcon.t))
         (acc : Icons) : M Icons :=
  match chunks with
  | [] => ret acc
  | chunk :: rest =>
    enrichments <- batchEnrichIcons E chunk ;;
    acc' <- assembleBatch E timestamp enrichments 0 chunk acc ;;
    perChunk timestamp rest acc'
  end.

End Notions.

(** ** cleanDisplayName, as specified *)

Section DisplayNameSpec.

Variable T : CaseTables.

(** What the specification asks of a word: its first character uppercased,
    the remaining characters lowercased.  The first character is the first
    rune, which [utf8.DecodeRuneInString] delimits. *)
Definition capitalizeRune (word : gostring) : gostring :=
  let (_, width) := DecodeRune word in
  strings_ToUpper T (firstn width word) ++ strings_ToLower T (skipn width word).

(** [cleanDisplayName] as the specification words it: underscores and
    hyphens become spaces, then every white-space separated word is
    capitalized and the words are joined by single spaces. *)
Definition cleanDisplayName_spec (title : gostring) : gostring :=
  let name := strings_ReplaceAll (strings_ReplaceAll title "_" " ") "-" " " in
  strings_Join (map capitalizeRune (strings_Fields name)) " ".

(** A word starts with an ASCII byte. *)
Definition asciiInitial (word : gostring) : Prop :=
  match word with
  | [] => True
  | b :: _ => byteZ b < RuneSelf
  end.

End DisplayNameSpec.

(** ** The records and requests of a run *)

(** The icons of [icons] whose provider is [k], in order. *)
Definition ofProvider (k : gostring) (icons : list IconPayload.t) : list IconPayload.t :=
  filter (fun icon => gostring_eqb (IconPayload.Provider icon) k) icons.

(** [providerIcons] holds, under every provider that occurs, the icons of
    that provider in the order of [allIcons], and no other key. *)
Definition grouped (acc : Icons) : Prop :=
  NoDup (map fst (snd acc))
  /\ forall k,
       match lookup (snd acc) k with
       | Some group => group = ofProvider k (fst acc) /\ group <> []
       | None => ofProvider k (fst acc) = []
       end.

(** What a record takes over from its pending icon. *)
Definition fromPending (E : Env) (timestamp : gostring) (p : PendingIcon.t)
    (icon : IconPayload.t) : Prop :=
  IconPayload.DisplayName icon = PendingIcon.DisplayName p
  /\ IconPayload.URL icon = sourceURL ++ lit "/" ++ PendingIcon.Link p
  /\ IconPayload.Slug icon
     = generateSlug (tables E) (PendingIcon.Category p) (PendingIcon.Title p)
  /\ IconPayload.Provider icon = getFullProviderName E (PendingIcon.Category p)
  /\ IconPayload.Popularity icon = calculatePopularity E (PendingIcon.Title p)
  /\ IconPayload.LastScraped icon = timestamp.

(** The ranges of the derived fields of a record. *)
Definition inRange (icon : IconPayload.t) : Prop :=
  (IconPayload.DefaultWidth icon = 64 \/ IconPayload.DefaultWidth icon = 96
   \/ IconPayload.DefaultWidth icon = 128)
  /\ (IconPayload.Popularity icon = 1%Q \/ IconPayload.Popularity icon = (1 # 2)%Q)
  /\ ((IconPayload.IsContainer icon = true
       /\ IconPayload.IconPosition icon = lit "top-left")
      \/ (IconPayload.IsContainer icon = false
          /\ IconPayload.IconPosition icon = lit "center")).

(** A request to the icon search service. *)
Definition isSearch (req : Request) : Prop :=
  Method req = lit "GET" /\ Body req = [] /\ exists query, ReqURL req = searchURL query.

(** A request to the classification service: to its health, classify or
    batch endpoint. *)
Definition toService (req : Request) : Prop :=
  ReqURL req = llmHealthURL \/ ReqURL req = llmServiceURL \/ ReqURL req = llmBatchURL.

(** ** Scraping *)

(** A byte that can be neither the [u] nor a digit of an escape. *)
Definition endsEscape (c : byte) : Prop :=
  byte_eqb c "u" = false /\ hexDigit (byteZ c) = None.

(** The collected icons of a category. *)
Definition ofCategory (c : gostring) (l : list PendingIcon.t) : list PendingIcon.t :=
  filter (fun p => gostring_eqb (PendingIcon.Category p) c) l.

(** A pending icon as the callback derives it from a link and a title: the
    link is not empty and has a percent sign, the category is the upper-cased
    part of the link before the first percent sign, the display name is the
    cleaned title. *)
Definition scrapedIcon (T : CaseTables) (p : PendingIcon.t) : Prop :=
  PendingIcon.Link p <> []
  /\ strings_Contains (PendingIcon.Link p) "%" = true
  /\ PendingIcon.Category p = strings_ToUpper T (beforePercent (PendingIcon.Link p))
  /\ PendingIcon.DisplayName p = cleanDisplayName T (PendingIcon.Title p).

(** An element the callback takes an icon from (test mode aside): its
    class is [icon] and its link is not empty and has a percent sign. *)
Definition iconLink (e : Element) : bool :=
  gostring_eqb (classAttr e) "icon"
  && negb (gostring_eqb (linkOf e) [])
  && strings_Contains (linkOf e) "%".

(** The maps of the callback agree with the list it builds. *)
Definition registry (st : Scraped) : Prop :=
  forall c,
    count (categoryCount st) c = Z.of_nat (List.length (ofCategory c (collected st)))
    /\ lookup (categories st) c
       = if existsb (fun p => gostring_eqb (PendingIcon.Category p) c) (collected st)
         then Some true else None.

(** ** The classify request *)

(** The body [getLLMEnrichment] posts: the marshalled payload, or nothing
    when marshalling failed (the error is dropped). *)
Definition classifyBody (E : Env) (provider title displayName : gostring) : gostring :=
  match json_MarshalClassify E provider title displayName with
  | Some d => d
  | None => []
  end.

(** The ways the classify request fails after it was sent: a transport
    error, a status other than 200, or a body that does not decode. *)
Definition classifyFailure (E : Env) (resp : Reply) : Prop :=
  match resp with
  | Failed => True
  | Response code body => code <> StatusOK \/ json_DecodeEnrichment E body = None
  end.

(** ** Reading JSON back *)

(** What is read back from the text [json.Marshal] writes for a string:
    every byte that is not part of a well-formed UTF-8 sequence is replaced
    by the encoding EF BF BD of U+FFFD, everything else is kept. *)
Definition replaceInvalid (v : gostring) : gostring :=
  flat_map (fun c => if (fst c =? RuneError) && (List.length (snd c) =? 1)%nat
                     then [xef; xbf; xbd] else snd c)
           (range v).

(** The request [getLLMEnrichment] sends for a pending icon. *)
Definition classifyRequest (E : Env) (p : PendingIcon.t) : Request :=
  {| Method := "POST";
     ReqURL := llmServiceURL;
     Body := classifyBody E (PendingIcon.Category p) (PendingIcon.Title p)
               (PendingIcon.DisplayName p) |}.

Definition isPost (req : Request) : bool := gostring_eqb (Method req) "POST".

(** The request [batchEnrichIcons] posts for a chunk: to [llmBatchURL], with
    the marshalled list of the provider, title and display name of the
    icons of the chunk, in their order. *)
Definition batchRequest (E : Env) (chunk : list PendingIcon.t) : Request :=
  {| Method := "POST";
     ReqURL := llmBatchURL;
     Body :=
       match json_MarshalBatch E
               (BatchClassifyRequest.mk
                  (map (fun p => BatchIconInput.mk (PendingIcon.Category p)
                                   (PendingIcon.Title p) (PendingIcon.DisplayName p))
                       chunk)) with
       | Some jsonData => jsonData
       | None => []
       end |}.

(** ** Display names *)

(** An ASCII byte that is neither white space nor a separator. *)
Definition plainByte (b : byte) : bool :=
  (byteZ b <? RuneSelf) && negb (unicode_IsSpace (byteZ b))
  && negb (byte_eqb "_" b) && negb (byte_eqb "-" b).

Definition plainWord (w : gostring) : Prop := w <> [] /\ forallb plainByte w = true.

(** A word as [cleanDisplayName] leaves it: no lowercase letter at the
    front, no uppercase letter behind it. *)
Definition capitalized (w : gostring) : Prop :=
  plainWord w
  /\ match w with
     | [] => True
     | b :: rest => isLowerByte b = false /\ existsb isUpperByte rest = false
     end.

(** ** Concrete environments and inputs for the examples *)

(** The case tables on the Latin-1 block (the ranges U+00B5, U+00C0..U+00DE,
    U+00E0..U+00FF of [unicode.CaseRanges]); runes above it are left alone. *)
Definition latin1 : CaseTables := {|
  lowerTable r :=
    if (0xC0 <=? r) && (r <=? 0xDE) && negb (r =? 0xD7) then r + 32 else r;
  upperTable r :=
    if r =? 0xB5 then 0x39C
    else if r =? 0xFF then 0x178
    else if (0xE0 <=? r) && (r <=? 0xFE) && negb (r =? 0xF7) then r - 32 else r
|}.

(** No service answers: every request fails. *)
Definition offline : Env := {|
  tables := latin1;
  strings_Title := fun s => s;
  json_MarshalBatch := fun _ => Some (lit "{}");
  json_MarshalClassify := fun _ _ _ => Some (lit "{}");
  validRequest := fun _ _ => true;
  http_Do := fun _ _ => Failed;
  json_DecodeBatch := fun _ => None;
  json_DecodeEnrichment := fun _ => None;
  json_UnmarshalSearch := fun _ => None;
  uuid_New := fun k => lit "id-" ++ repeat "i"%byte k;
  time_Now := "2024-01-01T00:00:00Z"
|}.

(** An enrichment that marks a container. *)
Definition sampleEnrichment : LLMEnrichmentResponse.t :=
  LLMEnrichmentResponse.mk "compute" [lit "vm"] "run servers" "virtual machine"
    [lit "compute"] "image" true "#FF9900".

(** Every request is answered with status 200; a batch response carries two
    results, whatever was asked. *)
Definition online : Env := {|
  tables := latin1;
  strings_Title := fun s => s;
  json_MarshalBatch := fun _ => Some (lit "{}");
  json_MarshalClassify := fun _ _ _ => Some (lit "{}");
  validRequest := fun _ _ => true;
  http_Do := fun _ _ => Response 200 (lit "{}");
  json_DecodeBatch := fun _ =>
    Some (BatchClassifyResponse.mk [sampleEnrichment; sampleEnrichment] 2 1%Q);
  json_DecodeEnrichment := fun _ => Some sampleEnrichment;
  json_UnmarshalSearch := fun _ => Some (IconifySearchResult.mk [lit "logos:aws"] 1);
  uuid_New := fun k => lit "id-" ++ repeat "i"%byte k;
  time_Now := "2024-01-01T00:00:00Z"
|}.


(** The configuration of the source with LLM enrichment switched on. *)
Definition batchConfig : Config :=
  {| useLLMEnrichment := true; useBatchProcessing := true; batchSize := 5 |}.

(** The pending icons of two scraped elements. *)
Definition ec2 : PendingIcon.t :=
  PendingIcon.mk "AWS" "ec2_instance" "aws%2FCompute%2Fec2_instance.svg" "Ec2 Instance".

Definition s3 : PendingIcon.t :=
  PendingIcon.mk "AWS" "S3 Bucket" "aws%2FStorage%2FS3-Bucket.svg" "S3 Bucket".

Definition sevenIcons : list PendingIcon.t := [ec2; s3; ec2; s3; ec2; s3; ec2].

(** An icon element as the page has it. *)
Definition iconElement (link title : gostring) : Element :=
  {| classAttr := "icon";
     onclick := lit "clickIcon(" ++ [x22] ++ link ++ [x22] ++ lit ")";
     dataSearch := title |}.

(** A page: two icons of one category, one of another, an element that is
    no icon and an icon without a category. *)
Definition samplePage : list Element :=
  [ iconElement "aws%2Fec2.svg" "ec2_instance";
    {| classAttr := "header"; onclick := []; dataSearch := [] |};
    iconElement "aws%2Fs3.svg" "s3-bucket";
    iconElement "plain.svg" "plain";
    iconElement "gcp%2Frun.svg" "cloud run" ].

(** * Properties *)

(** ** Bytes and bit arithmetic *)

Lemma byteZ_range (b : byte) : 0 <= byteZ b < 256.
Proof.
  unfold byteZ. pose proof (Byte.to_N_bounded b) as H. lia.
Qed.

Lemma zbyte_byteZ (b : byte) : zbyte (byteZ b) = b.
Proof.
  unfold zbyte. pose proof (byteZ_range b) as H.
  rewrite Z.mod_small by lia. unfold byteZ.
  rewrite N2Z.id, Byte.of_to_N. reflexivity.
Qed.

Lemma byteZ_inj (a b : byte) : byteZ a = byteZ b -> a = b.
Proof.
  intros H. rewrite <- (zbyte_byteZ a), <- (zbyte_byteZ b), H. reflexivity.
Qed.

Lemma byte_eqb_eq (a b : byte) : byte_eqb a b = true <-> a = b.
Proof.
  unfold byte_eqb. split; [apply Byte.byte_dec_bl | apply Byte.byte_dec_lb].
Qed.

Lemma gostring_eqb_eq (a b : gostring) : gostring_eqb a b = true <-> a = b.
Proof.
  revert b. induction a as [|x a IH]; intros [|y b]; simpl; split;
    try congruence; try reflexivity.
  - intros H. apply andb_true_iff in H as [H1 H2].
    apply byte_eqb_eq in H1. apply IH in H2. congruence.
  - intros H. inversion H; subst. apply andb_true_iff. split.
    + now apply byte_eqb_eq.
    + now apply IH.
Qed.

Lemma gostring_eqb_neq (a b : gostring) : a <> b -> gostring_eqb a b = false.
Proof.
  intros H. destruct (gostring_eqb a b) eqn:Heq; [|reflexivity].
  apply gostring_eqb_eq in Heq. contradiction.
Qed.

(** [a << n | b] is [a * 2^n + b] when [b] fits in the [n] low bits. *)
Lemma lor_shiftl_add (a b n : Z) :
  0 <= n -> 0 <= b < 2 ^ n -> Z.lor (Z.shiftl a n) b = a * 2 ^ n + b.
Proof.
  intros Hn Hb.
  assert (Hland : Z.land (Z.shiftl a n) b = 0).
  { apply Z.bits_inj'. intros m Hm.
    rewrite Z.land_spec, Z.bits_0.
    destruct (Z.lt_ge_cases m n) as [Hlt | Hge].
    - rewrite Z.shiftl_spec_low by assumption. reflexivity.
    - rewrite <- (Z.mod_small b (2 ^ n)) by assumption.
      rewrite Z.mod_pow2_bits_high by lia. apply andb_false_r. }
  rewrite <- Z.lxor_lor by assumption.
  rewrite <- Z.add_nocarry_lxor by assumption.
  rewrite Z.shiftl_mul_pow2 by assumption. reflexivity.
Qed.

Lemma land_low (x n : Z) : 0 <= n -> Z.land x (2 ^ n - 1) = x mod 2 ^ n.
Proof.
  intros Hn. rewrite <- Z.land_ones by assumption.
  f_equal. rewrite Z.ones_equiv. lia.
Qed.

Ltac Zify.zify_post_hook ::= Z.div_mod_to_equations.

(** The value of a two-byte sequence. *)
Lemma rune2 (s0 s1 : Z) :
  0 <= s0 < 256 -> 0 <= s1 < 256 ->
  Z.lor (Z.shiftl (Z.land s0 0x1F) 6) (Z.land s1 0x3F)
  = (s0 mod 32) * 64 + s1 mod 64.
Proof.
  intros H0 H1.
  change 0x1F with (2 ^ 5 - 1). change 0x3F with (2 ^ 6 - 1).
  rewrite !land_low by lia.
  rewrite lor_shiftl_add by lia. reflexivity.
Qed.

Lemma rune3 (s0 s1 s2 : Z) :
  0 <= s0 < 256 -> 0 <= s1 < 256 -> 0 <= s2 < 256 ->
  Z.lor (Z.lor (Z.shiftl (Z.land s0 0x0F) 12) (Z.shiftl (Z.land s1 0x3F) 6))
        (Z.land s2 0x3F)
  = (s0 mod 16) * 4096 + (s1 mod 64) * 64 + s2 mod 64.
Proof.
  intros H0 H1 H2.
  change 0x0F with (2 ^ 4 - 1). change 0x3F with (2 ^ 6 - 1).
  rewrite !land_low by lia.
  rewrite (Z.shiftl_mul_pow2 (s1 mod 2 ^ 6)) by lia.
  rewrite (lor_shiftl_add _ _ 12) by lia.
  replace (s0 mod 2 ^ 4 * 2 ^ 12 + s1 mod 2 ^ 6 * 2 ^ 6)
    with ((s0 mod 2 ^ 4 * 2 ^ 6 + s1 mod 2 ^ 6) * 2 ^ 6) by lia.
  rewrite <- (Z.shiftl_mul_pow2 _ 6) by lia.
  rewrite lor_shiftl_add by lia. lia.
Qed.

Lemma rune4 (s0 s1 s2 s3 : Z) :
  0 <= s0 < 256 -> 0 <= s1 < 256 -> 0 <= s2 < 256 -> 0 <= s3 < 256 ->
  Z.lor (Z.lor (Z.lor (Z.shiftl (Z.land s0 0x07) 18)
                      (Z.shiftl (Z.land s1 0x3F) 12))
               (Z.shiftl (Z.land s2 0x3F) 6))
        (Z.land s3 0x3F)
  = (s0 mod 8) * 262144 + (s1 mod 64) * 4096 + (s2 mod 64) * 64 + s3 mod 64.
Proof.
  intros H0 H1 H2 H3.
  change 0x07 with (2 ^ 3 - 1). change 0x3F with (2 ^ 6 - 1).
  rewrite !land_low by lia.
  rewrite (Z.shiftl_mul_pow2 (s1 mod 2 ^ 6)) by lia.
  rewrite (Z.shiftl_mul_pow2 (s2 mod 2 ^ 6)) by lia.
  rewrite (lor_shiftl_add _ _ 18) by lia.
  replace (s0 mod 2 ^ 3 * 2 ^ 18 + s1 mod 2 ^ 6 * 2 ^ 12)
    with ((s0 mod 2 ^ 3 * 2 ^ 6 + s1 mod 2 ^ 6) * 2 ^ 12) by lia.
  rewrite <- (Z.shiftl_mul_pow2 _ 12) by lia.
  rewrite (lor_shiftl_add _ _ 12) by lia.
  replace ((s0 mod 2 ^ 3 * 2 ^ 6 + s1 mod 2 ^ 6) * 2 ^ 12 + s2 mod 2 ^ 6 * 2 ^ 6)
    with (((s0 mod 2 ^ 3 * 2 ^ 6 + s1 mod 2 ^ 6) * 2 ^ 6 + s2 mod 2 ^ 6) * 2 ^ 6) by lia.
  rewrite <- (Z.shiftl_mul_pow2 _ 6) by lia.
  rewrite lor_shiftl_add by lia. lia.
Qed.

(** ** Decoding *)

Ltac break_if :=
  match goal with
  | H : context [if ?c then _ else _] |- _ => destruct c eqn:?
  | |- context [if ?c then _ else _] => destruct c eqn:?
  end.

Lemma DecodeRune_decoded (b : byte) (t : gostring) :
  decoded (b :: t) (fst (DecodeRune (b :: t))) (snd (DecodeRune (b :: t))).
Proof.
  pose proof (byteZ_range b) as Hb.
  unfold DecodeRune, RuneSelf.
  destruct (byteZ b <? 128) eqn:Hascii.
  { apply dec_ascii. lia. }
  assert (Hinv : decoded (b :: t) RuneError 1) by (apply dec_invalid; lia).
  destruct (first (byteZ b)) as [[[sz lo] hi]|] eqn:Hfirst; [|exact Hinv].
  destruct t as [|b1 t1]; [exact Hinv|].
  pose proof (byteZ_range b1) as Hb1.
  destruct ((byteZ b1 <? lo) || (hi <? byteZ b1)) eqn:Hacc; [exact Hinv|].
  apply orb_false_iff in Hacc as [Hlo Hhi].
  unfold first in Hfirst.
  destruct (sz <=? 2)%nat eqn:Hsz2.
  { cbn [fst snd]. rewrite rune2 by assumption.
    repeat break_if; inversion Hfirst; subst; try discriminate;
      apply dec_two; lia. }
  destruct t1 as [|b2 t2]; [exact Hinv|].
  pose proof (byteZ_range b2) as Hb2.
  unfold iscont.
  destruct (negb ((128 <=? byteZ b2) && (byteZ b2 <=? 191))) eqn:Hc2; [exact Hinv|].
  apply negb_false_iff, andb_true_iff in Hc2 as [Hc2 Hc2'].
  destruct (sz <=? 3)%nat eqn:Hsz3.
  { cbn [fst snd]. rewrite rune3 by assumption.
    repeat break_if; inversion Hfirst; subst; try discriminate;
      apply dec_three; lia. }
  destruct t2 as [|b3 t3]; [exact Hinv|].
  pose proof (byteZ_range b3) as Hb3.
  destruct (negb ((128 <=? byteZ b3) && (byteZ b3 <=? 191))) eqn:Hc3; [exact Hinv|].
  apply negb_false_iff, andb_true_iff in Hc3 as [Hc3 Hc3'].
  cbn [fst snd]. rewrite rune4 by assumption.
  repeat break_if; inversion Hfirst; subst; try discriminate;
    apply dec_four; lia.
Qed.

Lemma decoded_width (s : gostring) (r : rune) (w : nat) :
  decoded s r w -> (1 <= w <= List.length s)%nat.
Proof. intros H. destruct H; simpl; lia. Qed.

(** A rune below [RuneSelf] is a single byte with that value. *)
Lemma decoded_ascii (s : gostring) (r : rune) (w : nat) :
  decoded s r w -> r < RuneSelf ->
  exists b t, s = b :: t /\ r = byteZ b /\ w = 1%nat.
Proof.
  intros H Hr. destruct H; unfold RuneSelf, RuneError in *;
    repeat match goal with b : byte |- _ =>
      pose proof (byteZ_range b); revert b end; intros;
    try lia.
  exists b, t. auto.
Qed.

(** Every byte of a rune that is not ASCII has its high bit set. *)
Lemma decoded_high (s : gostring) (r : rune) (w : nat) :
  decoded s r w -> RuneSelf <= r ->
  Forall (fun b => 0x80 <= byteZ b) (firstn w s).
Proof.
  unfold RuneSelf. intros H Hr.
  destruct H; simpl; repeat constructor; lia.
Qed.

Lemma rangeFrom_skipn (k : nat) (s : gostring) :
  rangeFrom k s = range (skipn k s).
Proof.
  revert k. induction s as [|b t IH]; intros k.
  - destruct k; reflexivity.
  - destruct k as [|k]; [reflexivity|]. simpl. apply IH.
Qed.

Lemma range_cons (b : byte) (t : gostring) :
  range (b :: t)
  = (fst (DecodeRune (b :: t)), firstn (snd (DecodeRune (b :: t))) (b :: t))
      :: range (skipn (snd (DecodeRune (b :: t))) (b :: t)).
Proof.
  pose proof (DecodeRune_decoded b t) as Hd.
  apply decoded_width in Hd.
  unfold range at 1. cbn [rangeFrom].
  destruct (DecodeRune (b :: t)) as [r w] eqn:Hdec. cbn [fst snd] in *.
  rewrite rangeFrom_skipn.
  destruct w as [|w]; [lia|].
  replace (S w - 1)%nat with w by lia. reflexivity.
Qed.

(** Induction over a string rune by rune. *)
Lemma range_ind (P : gostring -> Prop) :
  P [] ->
  (forall b t r w,
      decoded (b :: t) r w ->
      range (b :: t) = (r, firstn w (b :: t)) :: range (skipn w (b :: t)) ->
      P (skipn w (b :: t)) -> P (b :: t)) ->
  forall s, P s.
Proof.
  intros Hnil Hcons s.
  remember (List.length s) as n eqn:Hn.
  revert s Hn. induction n as [n IH] using lt_wf_ind. intros s Hn.
  destruct s as [|b t]; [exact Hnil|].
  pose proof (DecodeRune_decoded b t) as Hd.
  apply (Hcons b t _ _ Hd (range_cons b t)).
  apply (IH (List.length (skipn (snd (DecodeRune (b :: t))) (b :: t)))); [|reflexivity].
  apply decoded_width in Hd. rewrite length_skipn. subst n.
  generalize dependent (snd (DecodeRune (b :: t))). intros w Hw.
  cbn [List.length] in *. lia.
Qed.

Lemma filter_none {A} (f : A -> bool) (l : list A) :
  (forall x, In x l -> f x = false) -> filter f l = [].
Proof.
  induction l as [|a l IH]; intros H; [reflexivity|].
  simpl. rewrite (H a) by (left; reflexivity).
  apply IH. intros x Hx. apply H. right. exact Hx.
Qed.

(** ** The sanitizer *)

Lemma slugChar_ascii (r : rune) : slugChar r = true -> r < RuneSelf.
Proof. unfold slugChar, RuneSelf. lia. Qed.

(** Deleting the runes outside [[a-z0-9-]] keeps exactly the bytes that are
    lowercase ASCII letters, digits or hyphens. *)
Lemma ReplaceAllString_notSlugChar (s : gostring) :
  ReplaceAllString notSlugChar s [] = filter slugByte s.
Proof.
  induction s as [|b t r w Hd Hr IH] using range_ind; [reflexivity|].
  unfold ReplaceAllString in *. rewrite Hr. cbn [flat_map fst snd].
  rewrite IH.
  rewrite <- (firstn_skipn w (b :: t)) at 3.
  rewrite filter_app. f_equal.
  unfold notSlugChar.
  destruct (slugChar r) eqn:Hslug; cbn [negb].
  - destruct (decoded_ascii _ _ _ Hd (slugChar_ascii _ Hslug))
      as (b' & t' & Hs & Hb & Hw).
    inversion Hs; subst. simpl. unfold slugByte. rewrite Hslug. reflexivity.
  - symmetry.
    destruct (Z.lt_ge_cases r RuneSelf) as [Hlt | Hge].
    + destruct (decoded_ascii _ _ _ Hd Hlt) as (b' & t' & Hs & Hb & Hw).
      inversion Hs; subst. simpl. unfold slugByte. rewrite Hslug. reflexivity.
    + apply filter_none. intros x Hx.
      pose proof (decoded_high _ _ _ Hd Hge) as Hall.
      rewrite Forall_forall in Hall. specialize (Hall x Hx).
      unfold slugByte, slugChar. lia.
Qed.

Lemma replaceFrom_byte (a b : byte) (s : gostring) :
  replaceFrom 0 [a] [b] s = map (fun c => if byte_eqb a c then b else c) s.
Proof.
  induction s as [|c s IH]; [reflexivity|].
  cbn [replaceFrom HasPrefix List.length Nat.sub map app].
  replace (HasPrefix s []) with true by (destruct s; reflexivity).
  rewrite andb_true_r. destruct (byte_eqb a c); rewrite IH; reflexivity.
Qed.

(** Replacing one byte by another everywhere is a map over the bytes. *)
Lemma ReplaceAll_byte (a b : byte) (s : gostring) :
  strings_ReplaceAll s [a] [b] = map (fun c => if byte_eqb a c then b else c) s.
Proof. unfold strings_ReplaceAll. apply replaceFrom_byte. Qed.

Lemma slugByte_spec (b : byte) : slugByte b = true <-> lowerDigitHyphen b.
Proof. unfold slugByte, slugChar, lowerDigitHyphen. lia. Qed.

(** The sanitizer in one line: hyphenate, lowercase, keep [[a-z0-9-]]. *)
Lemma sanitize_filter (T : CaseTables) (title : gostring) :
  sanitize T title = filter slugByte (strings_ToLower T (map hyphenate title)).
Proof.
  unfold sanitize. rewrite ReplaceAllString_notSlugChar.
  change (lit " ") with [" "%byte]. change (lit "-") with ["-"%byte].
  rewrite ReplaceAll_byte. reflexivity.
Qed.

Lemma sanitize_clean (T : CaseTables) (title : gostring) :
  Forall lowerDigitHyphen (sanitize T title).
Proof.
  rewrite sanitize_filter. apply Forall_forall. intros b Hb.
  apply filter_In in Hb as [_ Hb]. now apply slugByte_spec.
Qed.

(** ** generateSlug *)

(** C6.  [generateSlug] is a function of its two arguments: equal providers
    and equal titles give equal slugs.  The slug is the lowercased provider,
    a hyphen, and a rest that consists of lowercase ASCII letters, digits
    and hyphens only. *)
Theorem generateSlug_deterministic_clean (T : CaseTables)
    (provider1 title1 provider2 title2 : gostring)
    (Hprovider : provider1 = provider2) (Htitle : title1 = title2) :
  generateSlug T provider1 title1 = generateSlug T provider2 title2
  /\ exists rest,
       generateSlug T provider1 title1
       = strings_ToLower T provider1 ++ lit "-" ++ rest
       /\ Forall lowerDigitHyphen rest.
Proof.
  split.
  - rewrite Hprovider, Htitle. reflexivity.
  - exists (sanitize T title1). split; [reflexivity|]. apply sanitize_clean.
Qed.

Lemma generateSlug_deterministic_clean_witness :
  generateSlug latin1 "AWS" "EC2 Instance (new)"
  = generateSlug latin1 "AWS" "EC2 Instance (new)"
  /\ exists rest,
       generateSlug latin1 "AWS" "EC2 Instance (new)"
       = strings_ToLower latin1 "AWS" ++ lit "-" ++ rest
       /\ Forall lowerDigitHyphen rest.
Proof.
  apply (generateSlug_deterministic_clean latin1
           "AWS" "EC2 Instance (new)" "AWS" "EC2 Instance (new)");
    reflexivity.
Defined.

(** ** The network clients *)

Section Clients.

Variable E : Env.

Lemma sending_nil (w : World) : sending w [] = w.
Proof. destruct w. unfold sending. simpl. rewrite app_nil_r. reflexivity. Qed.

Lemma sending_app (w : World) (r1 r2 : list Request) :
  sending (sending w r1) r2 = sending w (r1 ++ r2).
Proof. unfold sending. simpl. rewrite app_assoc. reflexivity. Qed.

Lemma Do_sends (req : Request) (w : World) :
  Do E req w = Done (http_Do E (sent w) req) (sending w [req]).
Proof. reflexivity. Qed.

(** A [Get] returns, having sent at most one request. *)
Lemma Get_done (url : gostring) (w : World) :
  exists resp reqs,
    Get E url w = Done resp (sending w reqs) /\ (List.length reqs <= 1)%nat.
Proof.
  unfold Get. destruct (NewRequest E "GET" url []) as [req|].
  - exists (http_Do E (sent w) req), [req]. split; [reflexivity | simpl; lia].
  - exists Failed, []. rewrite sending_nil. split; [reflexivity | simpl; lia].
Qed.

Lemma tryQueries_cons (query : gostring) (rest : list gostring) (w : World)
      (resp : Reply) (w1 : World) :
  Get E (searchURL query) w = Done resp w1 ->
  tryQueries E (query :: rest) w =
  match firstIcon E resp with
  | Some icon => Done (Some icon) w1
  | None => tryQueries E rest w1
  end.
Proof.
  intros HGet. cbn [tryQueries]. unfold bind. rewrite HGet.
  destruct resp as [|code body]; [reflexivity|]. cbn [firstIcon].
  destruct (json_UnmarshalSearch E body) as [result|]; [|reflexivity].
  destruct (IconifySearchResult.Total result >? 0); [|reflexivity].
  destruct (IconifySearchResult.Icons result) as [|icon icons]; reflexivity.
Qed.



(** The query loop always falls through or returns; it draws no identifier
    and sends at most one request per query. *)
Lemma tryQueries_done (queries : list gostring) (w : World) :
  exists found reqs,
    tryQueries E queries w = Done found (sending w reqs)
    /\ (List.length reqs <= List.length queries)%nat.
Proof.
  revert w. induction queries as [|query rest IH]; intros w.
  - exists None, []. rewrite sending_nil. split; [reflexivity | simpl; lia].
  - destruct (Get_done (searchURL query) w) as (resp & reqs & HGet & Hlen).
    rewrite (tryQueries_cons _ _ _ _ _ HGet).
    destruct (firstIcon E resp) as [icon|].
    + exists (Some icon), reqs. split; [reflexivity | simpl; lia].
    + destruct (IH (sending w reqs)) as (found & reqs' & Hrest & Hlen').
      exists found, (reqs ++ reqs'). rewrite Hrest, sending_app.
      split; [reflexivity | rewrite length_app; simpl; lia].
Qed.

(** [verifyIconifyID] always returns; it draws no identifier and sends at
    most three requests. *)
Lemma verifyIconifyID_done (provider title slug : gostring) (w : World) :
  exists id reqs,
    verifyIconifyID E provider title slug w = Done id (sending w reqs)
    /\ (List.length reqs <= 3)%nat.
Proof.
  unfold verifyIconifyID, bind.
  destruct (tryQueries_done [provider ++ lit " " ++ title; title; slug] w)
    as (found & reqs & Htry & Hlen).
  rewrite Htry. destruct found as [icon|]; eexists; exists reqs;
    (split; [reflexivity | exact Hlen]).
Qed.

End Clients.

(** ** The payload assembler *)

Section Assembler.

Variable E : Env.

(** [createIconPayload] always returns: it sends the search queries, draws
    one identifier and fills the record. *)
Lemma createIconPayload_done (p : PendingIcon.t) (e : LLMEnrichmentResponse.t)
      (timestamp : gostring) (w : World) :
  exists iconifyID reqs,
    create E p e timestamp w
    = Done (payload E p e timestamp (uuid_New E (drawn w)) iconifyID)
           (drawing (sending w reqs)).
Proof.
  unfold create, createIconPayload, bind.
  destruct (verifyIconifyID_done E (PendingIcon.Category p) (PendingIcon.Title p)
              (generateSlug (tables E) (PendingIcon.Category p) (PendingIcon.Title p)) w)
    as (iconifyID & reqs & Hv & _).
  rewrite Hv. exists iconifyID, reqs. reflexivity.
Qed.

Lemma built_length ts k pes icons :
  built E ts k pes icons -> List.length icons = List.length pes.
Proof. induction 1; simpl; congruence. Qed.

Lemma built_app ts k pes1 icons1 pes2 icons2 :
  built E ts k pes1 icons1 ->
  built E ts (k + List.length pes1) pes2 icons2 ->
  built E ts k (pes1 ++ pes2) (icons1 ++ icons2).
Proof.
  intros H1. revert pes2 icons2. induction H1; intros pes2 icons2 H2.
  - simpl in *. rewrite Nat.add_0_r in H2. exact H2.
  - simpl. constructor. apply IHbuilt.
    simpl in H2. rewrite Nat.add_succ_r in H2. exact H2.
Qed.



Lemma addIcons_fst (acc : Icons) (icons : list IconPayload.t) :
  fst (addIcons acc icons) = fst acc ++ icons.
Proof.
  unfold addIcons. revert acc.
  induction icons as [|icon icons IH]; intros acc; cbn [fold_left].
  - now rewrite app_nil_r.
  - rewrite IH. cbn [addIcon fst]. now rewrite <- app_assoc.
Qed.

Lemma addIcons_app (acc : Icons) (icons1 icons2 : list IconPayload.t) :
  addIcons (addIcons acc icons1) icons2 = addIcons acc (icons1 ++ icons2).
Proof. unfold addIcons. now rewrite fold_left_app. Qed.

Lemma after_refl w : after w w 0.
Proof.
  repeat split; [lia|]. exists []. now rewrite app_nil_r.
Qed.

Lemma after_trans w1 w2 w3 n m :
  after w1 w2 n -> after w2 w3 m -> after w1 w3 (n + m).
Proof.
  intros (Ha & Hd & r1 & Hs) (Ha' & Hd' & r2 & Hs').
  repeat split; [congruence | lia |].
  exists (r1 ++ r2). rewrite Hs', Hs. now rewrite app_assoc.
Qed.

Lemma after_create w reqs : after w (drawing (sending w reqs)) 1.
Proof. repeat split; simpl; [lia|]. now exists reqs. Qed.

Lemma after_sending w reqs : after w (sending w reqs) 0.
Proof. repeat split; simpl; [lia|]. now exists reqs. Qed.

(** The inner loop of the batch branch never indexes out of range: it
    returns, with one record per pending icon of the batch. *)
Lemma assembleBatch_done (timestamp : gostring)
      (enrichments : list LLMEnrichmentResponse.t) (batch : list PendingIcon.t) :
  forall (j : nat) (acc : Icons) (w : World),
  exists icons w',
    assembleBatch E timestamp enrichments j batch acc w
    = Done (addIcons acc icons) w'
    /\ built E timestamp (drawn w) (paired enrichments j batch) icons
    /\ after w w' (List.length batch).
Proof.
  induction batch as [|pending rest IH]; intros j acc w.
  - exists [], w. repeat split; try constructor; try lia.
    + simpl. lia.
    + exists []. now rewrite app_nil_r.
  - cbn [assembleBatch]. unfold bind at 1.
    assert (Hsel :
      (if (j <? List.length enrichments)%nat
       then index enrichments j else ret LLMEnrichmentResponse.zero) w
      = Done (enrichmentAt enrichments j) w).
    { unfold enrichmentAt, index, ret.
      destruct (j <? List.length enrichments)%nat eqn:Hj.
      - apply Nat.ltb_lt in Hj.
        destruct (nth_error enrichments j) as [e|] eqn:Hnth.
        + now rewrite (nth_error_nth _ _ _ Hnth).
        + apply nth_error_None in Hnth. lia.
      - apply Nat.ltb_ge in Hj. now rewrite nth_overflow. }
    rewrite Hsel. unfold bind.
    destruct (createIconPayload_done pending (enrichmentAt enrichments j) timestamp w)
      as (iconifyID & reqs & Hc).
    unfold create in Hc. rewrite Hc.
    destruct (IH (S j) (addIcon acc
                (payload E pending (enrichmentAt enrichments j) timestamp
                   (uuid_New E (drawn w)) iconifyID))
                (drawing (sending w reqs)))
      as (icons & w' & Hrest & Hbuilt & Hafter).
    exists (payload E pending (enrichmentAt enrichments j) timestamp
              (uuid_New E (drawn w)) iconifyID :: icons), w'.
    split; [exact Hrest|]. split.
    + unfold paired. cbn [List.length seq map combine]. constructor. exact Hbuilt.
    + apply (after_trans _ _ _ 1 _ (after_create w reqs) Hafter).
Qed.

End Assembler.

(** ** The enrichment client *)

Section Enrichment.

Variable E : Env.

Lemma checkLLMService_done (w : World) :
  exists ok reqs, checkLLMService E w = Done ok (sending w reqs).
Proof.
  unfold checkLLMService.
  destruct (NewRequest E "GET" llmHealthURL []) as [req|].
  - unfold bind. rewrite Do_sends.
    destruct (http_Do E (sent w) req) as [|code body];
      eexists; exists [req]; reflexivity.
  - exists false, []. now rewrite sending_nil.
Qed.

(** [batchEnrichIcons] always returns, having sent at most one request. *)
Lemma batchEnrichIcons_done (pending : list PendingIcon.t) (w : World) :
  exists enrichments reqs,
    batchEnrichIcons E pending w = Done enrichments (sending w reqs)
    /\ (List.length reqs <= 1)%nat.
Proof.
  unfold batchEnrichIcons.
  destruct (json_MarshalBatch E _) as [jsonData|];
    [|eexists; exists []; rewrite sending_nil; split; [reflexivity | simpl; lia]].
  destruct (NewRequest E "POST" llmBatchURL jsonData) as [req|];
    [|eexists; exists []; rewrite sending_nil; split; [reflexivity | simpl; lia]].
  unfold bind. rewrite Do_sends.
  destruct (http_Do E (sent w) req) as [|code body];
    [eexists; exists [req]; split; [reflexivity | simpl; lia]|].
  destruct (negb (code =? StatusOK));
    [eexists; exists [req]; split; [reflexivity | simpl; lia]|].
  destruct (json_DecodeBatch E body) as [batchResp|];
    eexists; exists [req]; (split; [reflexivity | simpl; lia]).
Qed.

(** C3.  When the batch request fails in any of these ways,
    [batchEnrichIcons] returns zero-valued results, as many as the chunk has
    icons, and has sent at most one request: nothing is retried. *)
Theorem batchEnrichIcons_failure (pending : list PendingIcon.t) (w : World)
    (Hfail : batchFailure E pending w) :
  exists reqs,
    batchEnrichIcons E pending w
    = Done (repeat LLMEnrichmentResponse.zero (List.length pending)) (sending w reqs)
    /\ (List.length reqs <= 1)%nat
    /\ List.length (repeat LLMEnrichmentResponse.zero (List.length pending))
       = List.length pending.
Proof.
  unfold batchEnrichIcons, zeros.
  destruct Hfail as [Hm | jsonData Hm Hr | jsonData req Hm Hr Hd
                     | jsonData req code body Hm Hr Hd Hc
                     | jsonData req body Hm Hr Hd Hj];
    rewrite Hm; try rewrite Hr; unfold bind; try rewrite Do_sends, Hd.
  - exists []. rewrite sending_nil, repeat_length. simpl. auto.
  - exists []. rewrite sending_nil, repeat_length. simpl. auto.
  - exists [req]. rewrite repeat_length. simpl. auto.
  - exists [req]. rewrite repeat_length.
    apply Z.eqb_neq in Hc. rewrite Hc. simpl. auto.
  - exists [req]. rewrite repeat_length, Z.eqb_refl, Hj. simpl. auto.
Qed.

(** [getLLMEnrichment] draws no identifier. *)
Lemma getLLMEnrichment_after (provider title displayName : gostring)
      (w : World) (e : LLMEnrichmentResponse.t) (w' : World) :
  getLLMEnrichment E provider title displayName w = Done e w' -> after w w' 0.
Proof.
  unfold getLLMEnrichment.
  destruct (NewRequest E "POST" llmServiceURL _) as [req|]; [|discriminate].
  unfold bind. rewrite Do_sends.
  destruct (http_Do E (sent w) req) as [|code body].
  - intros H; inversion H; subst. apply after_sending.
  - destruct (negb (code =? StatusOK)).
    + intros H; inversion H; subst. apply after_sending.
    + destruct (json_DecodeEnrichment E body);
        intros H; inversion H; subst; apply after_sending.
Qed.

End Enrichment.

Lemma batchEnrichIcons_failure_witness :
  exists reqs,
    batchEnrichIcons offline [ec2; s3] world0
    = Done (repeat LLMEnrichmentResponse.zero (List.length [ec2; s3]))
           (sending world0 reqs)
    /\ (List.length reqs <= 1)%nat
    /\ List.length (repeat LLMEnrichmentResponse.zero (List.length [ec2; s3]))
       = List.length [ec2; s3].
Proof.
  apply (batchEnrichIcons_failure offline [ec2; s3] world0).
  eapply fail_transport; vm_compute; reflexivity.
Defined.

(** ** The driver *)

Section Driver.

Variable E : Env.
Variable C : Config.

Lemma paired_fst (enrichments : list LLMEnrichmentResponse.t) (j : nat)
      (batch : list PendingIcon.t) :
  map fst (paired enrichments j batch) = batch.
Proof.
  unfold paired. revert j. induction batch as [|p rest IH]; intros j.
  - reflexivity.
  - cbn [List.length seq map combine fst]. f_equal. apply IH.
Qed.

Lemma paired_length (enrichments : list LLMEnrichmentResponse.t) (j : nat)
      (batch : list PendingIcon.t) :
  List.length (paired enrichments j batch) = List.length batch.
Proof. rewrite <- (paired_fst enrichments j batch) at 2. now rewrite length_map. Qed.

Lemma slice_some {A} (s : list A) (i j : Z) (batch : list A) :
  slice s i j = Some batch ->
  0 <= i <= j /\ j <= Z.of_nat (List.length s)
  /\ batch = firstn (Z.to_nat (j - i)) (skipn (Z.to_nat i) s).
Proof.
  unfold slice. destruct ((0 <=? i) && (i <=? j) && (j <=? Z.of_nat (List.length s))) eqn:H;
    [|discriminate].
  intros Heq. inversion Heq. repeat split; lia.
Qed.

(** Whenever the batch loop returns, the icons it appended are built, in
    order, from the pending icons from index [i] on. *)
Lemma batchLoop_built (timestamp : gostring) (pendingIcons : list PendingIcon.t) :
  forall (fuel : nat) (i : Z) (acc : Icons) (w : World) (acc' : Icons) (w' : World),
    0 <= i ->
    batchLoop E C fuel timestamp pendingIcons i acc w = Done acc' w' ->
    exists icons pes,
      acc' = addIcons acc icons
      /\ built E timestamp (drawn w) pes icons
      /\ map fst pes = skipn (Z.to_nat i) pendingIcons
      /\ after w w' (List.length icons).
Proof.
  induction fuel as [|fuel IH]; intros i acc w acc' w' Hi;
    cbn [batchLoop]; destruct (i <? Z.of_nat (List.length pendingIcons)) eqn:Hlt;
    try discriminate.
  1, 3: intros H; inversion H; subst; exists [], [];
        repeat split;
        [apply built_nil | | simpl; lia | exists []; now rewrite app_nil_r];
        symmetry; apply skipn_all2; lia.
  destruct (slice pendingIcons i _) as [batch|] eqn:Hslice; [|discriminate].
  apply slice_some in Hslice as (Hij & Hjlen & Hbatch).
  unfold bind at 1.
  destruct (batchEnrichIcons_done E batch w) as (enrichments & reqs & Hen & _).
  rewrite Hen. unfold bind at 1.
  destruct (assembleBatch_done E timestamp enrichments batch 0 acc (sending w reqs))
    as (icons1 & w1 & Has & Hb1 & Haf1).
  rewrite Has. intros Hloop.
  assert (HB : 0 <= batchSize C) by (destruct (i + batchSize C >? _) eqn:?; lia).
  apply IH in Hloop as (icons2 & pes2 & Hacc & Hb2 & Hfst & Haf2); [|lia].
  exists (icons1 ++ icons2), (paired enrichments 0 batch ++ pes2).
  pose proof (built_length _ _ _ _ _ Hb1) as Hl1. rewrite paired_length in Hl1.
  split; [now rewrite <- addIcons_app|]. split; [|split].
  - apply built_app; [exact Hb1|].
    destruct Haf1 as (_ & Hd1 & _). simpl in Hd1.
    rewrite paired_length, <- Hd1. exact Hb2.
  - rewrite map_app, paired_fst, Hfst, Hbatch.
    destruct (i + batchSize C >? Z.of_nat (List.length pendingIcons)) eqn:Hend.
    + rewrite firstn_all2 by (rewrite length_skipn; lia).
      rewrite (skipn_all2 (n := Z.to_nat (i + batchSize C))) by lia.
      now rewrite app_nil_r.
    + replace (Z.to_nat (i + batchSize C))
        with (Z.to_nat (i + batchSize C - i) + Z.to_nat i)%nat by lia.
      rewrite <- skipn_skipn. apply firstn_skipn.
  - rewrite length_app, Hl1.
    apply (after_trans _ _ _ _ _ (after_trans _ _ _ 0 _ (after_sending w reqs) Haf1) Haf2).
Qed.

(** The same for the loop that takes the icons one by one. *)
Lemma eachLoop_built (timestamp : gostring) :
  forall (pendingIcons : list PendingIcon.t) (acc : Icons) (w : World)
         (acc' : Icons) (w' : World),
    eachLoop E C timestamp pendingIcons acc w = Done acc' w' ->
    exists icons pes,
      acc' = addIcons acc icons
      /\ built E timestamp (drawn w) pes icons
      /\ map fst pes = pendingIcons
      /\ after w w' (List.length icons).
Proof.
  induction pendingIcons as [|pending rest IH]; intros acc w acc' w'.
  - intros H; inversion H; subst. exists [], [].
    repeat split; [apply built_nil | simpl; lia | exists []; now rewrite app_nil_r].
  - cbn [eachLoop]. unfold bind at 1. unfold getAvailable at 1. unfold bind at 1.
    destruct ((if useLLMEnrichment C && llmServiceAvailable w
               then getLLMEnrichment E (PendingIcon.Category pending)
                      (PendingIcon.Title pending) (PendingIcon.DisplayName pending)
               else ret LLMEnrichmentResponse.zero) w) as [e w1| |] eqn:Hen;
      try discriminate.
    assert (Haf0 : after w w1 0).
    { destruct (useLLMEnrichment C && llmServiceAvailable w).
      - eapply getLLMEnrichment_after; eassumption.
      - inversion Hen; subst. apply after_refl. }
    unfold bind at 1.
    destruct (createIconPayload_done E pending e timestamp w1)
      as (iconifyID & reqs & Hc).
    unfold create in Hc. rewrite Hc. intros Hloop.
    apply IH in Hloop as (icons & pes & Hacc & Hb & Hfst & Haf).
    exists (payload E pending e timestamp (uuid_New E (drawn w1)) iconifyID :: icons),
           ((pending, e) :: pes).
    split; [exact Hacc|]. split; [|split].
    + destruct Haf0 as (_ & Hd0 & _). rewrite Nat.add_0_r in Hd0.
      rewrite <- Hd0. constructor. exact Hb.
    + simpl. now rewrite Hfst.
    + cbn [List.length].
      apply (after_trans _ _ _ 1 _
               (after_trans _ _ _ 0 1 Haf0 (after_create w1 reqs)) Haf).
Qed.

(** With enrichment off, or the service unavailable, the loop always
    returns and pairs every pending icon with the zero-valued enrichment. *)
Lemma eachLoop_off (timestamp : gostring) :
  forall (pendingIcons : list PendingIcon.t) (acc : Icons) (w : World),
    useLLMEnrichment C && llmServiceAvailable w = false ->
    exists icons w',
      eachLoop E C timestamp pendingIcons acc w = Done (addIcons acc icons) w'
      /\ built E timestamp (drawn w)
               (map (fun p => (p, LLMEnrichmentResponse.zero)) pendingIcons) icons
      /\ after w w' (List.length pendingIcons).
Proof.
  induction pendingIcons as [|pending rest IH]; intros acc w Hoff.
  - exists [], w.
    repeat split; [apply built_nil | simpl; lia | exists []; now rewrite app_nil_r].
  - cbn [eachLoop]. unfold bind at 1. unfold getAvailable at 1. unfold bind at 1.
    rewrite Hoff. unfold ret at 1. unfold bind at 1.
    destruct (createIconPayload_done E pending LLMEnrichmentResponse.zero timestamp w)
      as (iconifyID & reqs & Hc).
    unfold create in Hc. rewrite Hc.
    destruct (IH (addIcon acc (payload E pending LLMEnrichmentResponse.zero timestamp
                                 (uuid_New E (drawn w)) iconifyID))
                 (drawing (sending w reqs)) Hoff)
      as (icons & w' & Hloop & Hb & Haf).
    exists (payload E pending LLMEnrichmentResponse.zero timestamp
              (uuid_New E (drawn w)) iconifyID :: icons), w'.
    split; [exact Hloop|]. split.
    + cbn [map]. constructor. exact Hb.
    + apply (after_trans _ _ _ 1 _ (after_create w reqs) Haf).
Qed.

End Driver.

Section Generate.

Variable E : Env.
Variable C : Config.

Lemma checked_drawn (w : World) : drawn (checked E C w) = drawn w.
Proof.
  unfold checked. destruct (useLLMEnrichment C); [|reflexivity].
  destruct (checkLLMService_done E w) as (ok & reqs & H). rewrite H. reflexivity.
Qed.

Lemma Generate_loop (pendingIcons : list PendingIcon.t) (w : World) :
  Generate E C pendingIcons w =
  (if useLLMEnrichment C && llmServiceAvailable (checked E C w) && useBatchProcessing C
   then batchLoop E C (List.length pendingIcons) (time_Now E) pendingIcons 0 ([], [])
   else eachLoop E C (time_Now E) pendingIcons ([], [])) (checked E C w).
Proof.
  unfold Generate, checked, bind at 1.
  destruct (useLLMEnrichment C).
  - unfold bind at 1.
    destruct (checkLLMService_done E w) as (ok & reqs & H). rewrite H.
    destruct ok; reflexivity.
  - reflexivity.
Qed.

(** Whenever [Generate] returns, its records are built, in order, from the
    pending icons, and the identifiers are those drawn during the run. *)
Lemma Generate_built (pendingIcons : list PendingIcon.t) (w : World)
      (icons : list IconPayload.t) (groups : list (gostring * list IconPayload.t))
      (w' : World) :
  Generate E C pendingIcons w = Done (icons, groups) w' ->
  exists pes,
    built E (time_Now E) (drawn w) pes icons /\ map fst pes = pendingIcons.
Proof.
  rewrite Generate_loop. rewrite <- (checked_drawn w).
  destruct (useLLMEnrichment C && llmServiceAvailable (checked E C w) && useBatchProcessing C).
  - intros H. apply batchLoop_built in H as (new & pes & Hacc & Hb & Hfst & _); [|lia].
    exists pes. apply (f_equal fst) in Hacc. rewrite addIcons_fst in Hacc.
    simpl in Hacc. subst new. split; [exact Hb | exact Hfst].
  - intros H. apply eachLoop_built in H as (new & pes & Hacc & Hb & Hfst & _).
    exists pes. apply (f_equal fst) in Hacc. rewrite addIcons_fst in Hacc.
    simpl in Hacc. subst new. split; [exact Hb | exact Hfst].
Qed.

Lemma built_zero (timestamp : gostring) (k : nat)
      (pendingIcons : list PendingIcon.t) (icons : list IconPayload.t) :
  built E timestamp k (map (fun p => (p, LLMEnrichmentResponse.zero)) pendingIcons) icons ->
  Forall unenriched icons.
Proof.
  revert k icons. induction pendingIcons as [|p rest IH]; intros k icons H;
    inversion H; subst; constructor.
  - repeat split.
  - eapply IH. eassumption.
Qed.

(** C2.  When LLM enrichment is disabled, or the health check fails,
    [Generate] returns one record per pending icon, and every record has
    [Aliases] and [Tags] equal to "[]", empty [SemanticProfile] and
    [TechnicalIntent], [IsContainer] false and [IconPosition] "center". *)
Theorem Generate_unavailable (pendingIcons : list PendingIcon.t) (w : World)
    (Hoff : useLLMEnrichment C = false
            \/ exists w1, checkLLMService E w = Done false w1) :
  exists icons groups w',
    Generate E C pendingIcons w = Done (icons, groups) w'
    /\ List.length icons = List.length pendingIcons
    /\ Forall unenriched icons.
Proof.
  rewrite Generate_loop.
  assert (Hflag : useLLMEnrichment C && llmServiceAvailable (checked E C w) = false).
  { destruct Hoff as [Hoff | (w1 & Hcheck)].
    - now rewrite Hoff.
    - unfold checked. rewrite Hcheck.
      destruct (useLLMEnrichment C); reflexivity. }
  rewrite Hflag. cbn [andb].
  destruct (eachLoop_off E C (time_Now E) pendingIcons ([], []) (checked E C w) Hflag)
    as (icons & w' & Hloop & Hb & _).
  exists icons, (snd (addIcons ([], []) icons)), w'.
  split; [|split].
  - rewrite Hloop. f_equal.
    rewrite (surjective_pairing (addIcons ([], []) icons)) at 1.
    now rewrite addIcons_fst.
  - apply built_length in Hb. now rewrite length_map in Hb.
  - eapply built_zero. eassumption.
Qed.


End Generate.

Lemma Generate_unavailable_witness :
  exists icons groups w',
    Generate offline batchConfig sevenIcons world0 = Done (icons, groups) w'
    /\ List.length icons = List.length sevenIcons
    /\ Forall (unenriched) icons.
Proof.
  apply (Generate_unavailable offline batchConfig sevenIcons world0).
  right. eexists. vm_compute. reflexivity.
Defined.



(** ** Batches *)

Lemma ceilDiv_bounds (n b : nat) :
  (0 < b)%nat -> (n <= ceilDiv n b * b < n + b)%nat.
Proof.
  intros Hb. unfold ceilDiv.
  pose proof (Nat.div_mod_eq (n + b - 1) b) as Hdm.
  pose proof (Nat.mod_upper_bound (n + b - 1) b ltac:(lia)) as Hmod.
  rewrite (Nat.mul_comm b) in Hdm. lia.
Qed.

Lemma firstn_plus {A} (n m : nat) (l : list A) :
  firstn (n + m) l = firstn n l ++ firstn m (skipn n l).
Proof.
  revert l. induction n as [|n IH]; intros l; [reflexivity|].
  destruct l as [|a l]; simpl.
  - now rewrite firstn_nil.
  - now rewrite IH.
Qed.

Lemma concat_slices {A} (B : nat) (l : list A) (c : nat) :
  List.concat (map (fun k => firstn B (skipn (k * B) l)) (seq 0 c))
  = firstn (c * B) l.
Proof.
  induction c as [|c IH]; [reflexivity|].
  rewrite seq_S, map_app, concat_app, IH. cbn [map List.concat Nat.add].
  rewrite app_nil_r, <- firstn_plus. f_equal. lia.
Qed.

Lemma batches_concat {A} (B : nat) (l : list A) :
  (0 < B)%nat -> List.concat (batches B l) = l.
Proof.
  intros HB. unfold batches. rewrite concat_slices.
  apply firstn_all2. pose proof (ceilDiv_bounds (List.length l) B HB). lia.
Qed.

Lemma batches_length {A} (B : nat) (l : list A) :
  List.length (batches B l) = ceilDiv (List.length l) B.
Proof. unfold batches. now rewrite length_map, length_seq. Qed.

Lemma nth_map_seq {A} (f : nat -> A) (d : A) (c k : nat) :
  (k < c)%nat -> nth k (map f (seq 0 c)) d = f k.
Proof.
  intros Hk.
  rewrite (nth_indep _ d (f 0%nat)) by (now rewrite length_map, length_seq).
  rewrite map_nth, seq_nth by assumption. reflexivity.
Qed.

Lemma batches_nth {A} (B : nat) (l : list A) (k : nat) :
  (k < List.length (batches B l))%nat ->
  nth k (batches B l) [] = firstn B (skipn (k * B) l).
Proof.
  intros Hk. rewrite batches_length in Hk. unfold batches.
  now rewrite nth_map_seq.
Qed.

Lemma batches_full {A} (B : nat) (l : list A) (k : nat) :
  (0 < B)%nat -> (S k < List.length (batches B l))%nat ->
  List.length (nth k (batches B l) []) = B.
Proof.
  intros HB Hk. rewrite batches_nth by lia.
  rewrite batches_length in Hk.
  pose proof (ceilDiv_bounds (List.length l) B HB) as Hc.
  rewrite length_firstn, length_skipn. nia.
Qed.

Lemma batches_last {A} (B : nat) (l : list A) (k : nat) :
  (0 < B)%nat -> S k = List.length (batches B l) ->
  (1 <= List.length (nth k (batches B l) []) <= B)%nat.
Proof.
  intros HB Hk. rewrite batches_nth by lia.
  rewrite batches_length in Hk.
  pose proof (ceilDiv_bounds (List.length l) B HB) as Hc.
  rewrite length_firstn, length_skipn. nia.
Qed.

(** The slice the batch loop takes at index [i]. *)
Lemma slice_step {A} (l : list A) (i B : nat) :
  (i < List.length l)%nat -> (0 < B)%nat ->
  slice l (Z.of_nat i)
    (if Z.of_nat i + Z.of_nat B >? Z.of_nat (List.length l)
     then Z.of_nat (List.length l) else Z.of_nat i + Z.of_nat B)
  = Some (firstn B (skipn i l)).
Proof.
  intros Hi HB. unfold slice. rewrite Nat2Z.id.
  destruct (Z.of_nat i + Z.of_nat B >? Z.of_nat (List.length l)) eqn:Hend.
  - replace ((0 <=? Z.of_nat i) && (Z.of_nat i <=? Z.of_nat (List.length l))
             && (Z.of_nat (List.length l) <=? Z.of_nat (List.length l))) with true
      by (symmetry; rewrite !andb_true_iff; repeat split; lia).
    f_equal. rewrite !firstn_all2; try reflexivity; rewrite length_skipn; lia.
  - replace ((0 <=? Z.of_nat i) && (Z.of_nat i <=? Z.of_nat i + Z.of_nat B)
             && (Z.of_nat i + Z.of_nat B <=? Z.of_nat (List.length l))) with true
      by (symmetry; rewrite !andb_true_iff; repeat split; lia).
    do 2 f_equal. lia.
Qed.

Section BatchMode.

Variable E : Env.
Variable C : Config.

Lemma bind_ext {A B} (m : M A) (k1 k2 : A -> M B) :
  (forall a w, k1 a w = k2 a w) -> forall w, bind m k1 w = bind m k2 w.
Proof. intros H w. unfold bind. destruct (m w); auto. Qed.

Lemma batchLoop_slices (timestamp : gostring) (pendingIcons : list PendingIcon.t)
      (B : nat) :
  (0 < B)%nat -> batchSize C = Z.of_nat B ->
  forall (m k fuel : nat) (acc : Icons) (w : World),
    (k + m = ceilDiv (List.length pendingIcons) B)%nat ->
    (m <= fuel)%nat ->
    batchLoop E C fuel timestamp pendingIcons (Z.of_nat (k * B)) acc w
    = perChunk E timestamp
        (map (fun k => firstn B (skipn (k * B) pendingIcons)) (seq k m)) acc w.
Proof.
  intros HB Hsize.
  pose proof (ceilDiv_bounds (List.length pendingIcons) B HB) as Hc.
  induction m as [|m IH]; intros k fuel acc w Hkm Hfuel.
  - destruct fuel; cbn [batchLoop seq map perChunk];
      replace (Z.of_nat (k * B) <? Z.of_nat (List.length pendingIcons)) with false
        by (symmetry; apply Z.ltb_ge; nia); reflexivity.
  - destruct fuel as [|fuel]; [lia|].
    cbn [batchLoop seq map perChunk].
    assert (HkB : (k * B < List.length pendingIcons)%nat) by nia.
    replace (Z.of_nat (k * B) <? Z.of_nat (List.length pendingIcons)) with true
      by (symmetry; apply Z.ltb_lt; lia).
    rewrite Hsize, (slice_step pendingIcons (k * B) B HkB HB).
    apply bind_ext. intros enrichments w1.
    apply bind_ext. intros acc' w2.
    replace (Z.of_nat (k * B) + Z.of_nat B) with (Z.of_nat (S k * B)) by lia.
    apply IH; lia.
Qed.

(** In batch mode, with a positive batch size [B] (5 in the source),
    [Generate] calls [batchEnrichIcons] once for each of the ceil(N/B)
    slices [pendingIcons[kB : kB+B]], in order.  The slices are contiguous
    and do not overlap, their concatenation is the input, each has [B]
    icons except the last, which has between 1 and [B]. *)
Lemma Generate_slices (pendingIcons : list PendingIcon.t) (w w1 : World) (B : nat)
    (Hllm : useLLMEnrichment C = true)
    (Hbatch : useBatchProcessing C = true)
    (HB : (0 < B)%nat)
    (Hsize : batchSize C = Z.of_nat B)
    (Hhealth : checkLLMService E w = Done true w1) :
  Generate E C pendingIcons w
  = perChunk E (time_Now E) (batches B pendingIcons) ([], []) (setting w1 true)
  /\ List.length (batches B pendingIcons) = ceilDiv (List.length pendingIcons) B
  /\ List.concat (batches B pendingIcons) = pendingIcons
  /\ (forall k, (k < List.length (batches B pendingIcons))%nat ->
        nth k (batches B pendingIcons) [] = firstn B (skipn (k * B) pendingIcons))
  /\ (forall k, (S k < List.length (batches B pendingIcons))%nat ->
        List.length (nth k (batches B pendingIcons) []) = B)
  /\ (forall k, S k = List.length (batches B pendingIcons) ->
        (1 <= List.length (nth k (batches B pendingIcons) []) <= B)%nat).
Proof.
  split; [|split; [|split; [|split; [|split]]]].
  - rewrite Generate_loop. unfold checked. rewrite Hllm, Hhealth, Hbatch.
    cbn [setting llmServiceAvailable andb].
    pose proof (ceilDiv_bounds (List.length pendingIcons) B HB) as Hc.
    apply (batchLoop_slices (time_Now E) pendingIcons B HB Hsize
             (ceilDiv (List.length pendingIcons) B) 0); [reflexivity | nia].
  - apply batches_length.
  - now apply batches_concat.
  - intros k. apply batches_nth.
  - intros k. now apply batches_full.
  - intros k. now apply batches_last.
Qed.

End BatchMode.

(** ** Generate returns *)

Section Returns.

Variable E : Env.
Variable C : Config.

Lemma perChunk_done (timestamp : gostring) (chunks : list (list PendingIcon.t)) :
  forall (acc : Icons) (w : World),
  exists acc' w', perChunk E timestamp chunks acc w = Done acc' w'.
Proof.
  induction chunks as [|chunk rest IH]; intros acc w.
  - exists acc, w. reflexivity.
  - cbn [perChunk]. unfold bind at 1.
    destruct (batchEnrichIcons_done E chunk w) as (enrichments & reqs & Hen & _).
    rewrite Hen. unfold bind at 1.
    destruct (assembleBatch_done E timestamp enrichments chunk 0 acc (sending w reqs))
      as (icons & w1 & Has & _).
    rewrite Has. apply IH.
Qed.

Lemma getLLMEnrichment_done (provider title displayName : gostring) (w : World) :
  validRequest E "POST" llmServiceURL = true ->
  exists e w', getLLMEnrichment E provider title displayName w = Done e w'.
Proof.
  intros Hvalid. unfold getLLMEnrichment, NewRequest. rewrite Hvalid.
  unfold bind. rewrite Do_sends.
  destruct (http_Do E (sent w) _) as [|code body]; [eexists; eexists; reflexivity|].
  destruct (negb (code =? StatusOK)); [eexists; eexists; reflexivity|].
  destruct (json_DecodeEnrichment E body); eexists; eexists; reflexivity.
Qed.

Lemma eachLoop_done (timestamp : gostring) :
  validRequest E "POST" llmServiceURL = true ->
  forall (pendingIcons : list PendingIcon.t) (acc : Icons) (w : World),
  exists acc' w', eachLoop E C timestamp pendingIcons acc w = Done acc' w'.
Proof.
  intros Hvalid. induction pendingIcons as [|pending rest IH]; intros acc w.
  - exists acc, w. reflexivity.
  - cbn [eachLoop]. unfold bind at 1. unfold getAvailable at 1. unfold bind at 1.
    assert (Hen : exists e w1,
      (if useLLMEnrichment C && llmServiceAvailable w
       then getLLMEnrichment E (PendingIcon.Category pending)
              (PendingIcon.Title pending) (PendingIcon.DisplayName pending)
       else ret LLMEnrichmentResponse.zero) w = Done e w1).
    { destruct (useLLMEnrichment C && llmServiceAvailable w).
      - now apply getLLMEnrichment_done.
      - eexists; eexists; reflexivity. }
    destruct Hen as (e & w1 & Hen). rewrite Hen. unfold bind at 1.
    destruct (createIconPayload_done E pending e timestamp w1)
      as (iconifyID & reqs & Hc).
    unfold create in Hc. rewrite Hc. apply IH.
Qed.

(** With a positive batch size (and a classify URL from which a request
    can be built) the health check and the loop of [Generate] over the
    pending icons complete, whatever the network answers: the batch loop
    ends and no slice or index expression panics. *)
Lemma Generate_returns (pendingIcons : list PendingIcon.t) (w : World) :
  0 < batchSize C ->
  validRequest E "POST" llmServiceURL = true ->
  exists acc w', Generate E C pendingIcons w = Done acc w'.
Proof.
  intros HB Hvalid. rewrite Generate_loop.
  destruct (useLLMEnrichment C && llmServiceAvailable (checked E C w)
            && useBatchProcessing C).
  - pose proof (ceilDiv_bounds (List.length pendingIcons) (Z.to_nat (batchSize C))
                  ltac:(lia)) as Hc.
    rewrite (batchLoop_slices E C (time_Now E) pendingIcons (Z.to_nat (batchSize C))
               ltac:(lia) ltac:(lia)
               (ceilDiv (List.length pendingIcons) (Z.to_nat (batchSize C))) 0);
      [apply perChunk_done | reflexivity | nia].
  - now apply eachLoop_done.
Qed.

End Returns.

(** ** Assembling a batch *)

Section Assembly.

Variable E : Env.

(** The guarded read [if j < len(enrichments) { enrichment = enrichments[j] }]
    never panics. *)
Lemma guarded_index (enrichments : list LLMEnrichmentResponse.t) (j : nat) (w : World) :
  (if (j <? List.length enrichments)%nat
   then index enrichments j else ret LLMEnrichmentResponse.zero) w
  = Done (enrichmentAt enrichments j) w.
Proof.
  unfold enrichmentAt, index, ret.
  destruct (j <? List.length enrichments)%nat eqn:Hj.
  - apply Nat.ltb_lt in Hj.
    destruct (nth_error enrichments j) as [e|] eqn:Hnth.
    + now rewrite (nth_error_nth _ _ _ Hnth).
    + apply nth_error_None in Hnth. lia.
  - apply Nat.ltb_ge in Hj. now rewrite nth_overflow.
Qed.

(** The assembly reads [enrichments] only at the positions of the batch. *)
Lemma assembleBatch_ext (timestamp : gostring)
      (es1 es2 : list LLMEnrichmentResponse.t) (batch : list PendingIcon.t) :
  forall (j : nat) (acc : Icons) (w : World),
    (forall k, (j <= k < j + List.length batch)%nat ->
               enrichmentAt es1 k = enrichmentAt es2 k) ->
    assembleBatch E timestamp es1 j batch acc w
    = assembleBatch E timestamp es2 j batch acc w.
Proof.
  induction batch as [|pending rest IH]; intros j acc w Hsame; [reflexivity|].
  assert (Hj : enrichmentAt es1 j = enrichmentAt es2 j)
    by (apply Hsame; cbn [List.length]; lia).
  cbn [assembleBatch]. unfold bind at 1 3.
  rewrite !guarded_index, Hj.
  apply bind_ext. intros icon w1. apply IH.
  intros k Hk. apply Hsame. cbn [List.length]. lia.
Qed.

Lemma built_nth (timestamp : gostring) (k : nat)
      (pes : list (PendingIcon.t * LLMEnrichmentResponse.t))
      (icons : list IconPayload.t) :
  built E timestamp k pes icons ->
  forall j p e, nth_error pes j = Some (p, e) ->
    exists iconifyID,
      nth_error icons j = Some (payload E p e timestamp (uuid_New E (k + j)) iconifyID).
Proof.
  induction 1 as [|k p0 e0 iconifyID pes icons Hb IH]; intros j p e Hj.
  - destruct j; discriminate.
  - destruct j as [|j]; simpl in Hj.
    + inversion Hj; subst. exists iconifyID. now rewrite Nat.add_0_r.
    + destruct (IH j p e Hj) as (id & Hid). exists id.
      cbn [nth_error]. rewrite Hid.
      now replace (k + S j)%nat with (S k + j)%nat by lia.
Qed.

Lemma paired_nth_from (enrichments : list LLMEnrichmentResponse.t)
      (batch : list PendingIcon.t) :
  forall (j0 j : nat) (pending : PendingIcon.t),
    nth_error batch j = Some pending ->
    nth_error (paired enrichments j0 batch) j
    = Some (pending, enrichmentAt enrichments (j0 + j)).
Proof.
  unfold paired. induction batch as [|p rest IH]; intros j0 j pending Hj.
  - destruct j; discriminate.
  - cbn [List.length seq map combine]. destruct j as [|j]; cbn [nth_error] in *.
    + inversion Hj. now rewrite Nat.add_0_r.
    + rewrite (IH (S j0) j pending Hj). do 3 f_equal. lia.
Qed.

Lemma paired_nth (enrichments : list LLMEnrichmentResponse.t)
      (batch : list PendingIcon.t) (j : nat) (pending : PendingIcon.t) :
  nth_error batch j = Some pending ->
  nth_error (paired enrichments 0 batch) j
  = Some (pending, enrichmentAt enrichments j).
Proof. apply paired_nth_from. Qed.

(** C10.  For every chunk and every slice of enrichment results, whatever
    its length, the batch branch returns: no index is out of range.  It
    appends one record per pending icon; the record at position [j] is built
    from result [j] when [j] is below the number of results and from the
    zero-valued enrichment otherwise.  Results beyond the length of the
    chunk are not read. *)
Theorem assembleBatch_safe (timestamp : gostring)
    (enrichments : list LLMEnrichmentResponse.t) (batch : list PendingIcon.t)
    (acc : Icons) (w : World) :
  (exists icons acc' w',
     assembleBatch E timestamp enrichments 0 batch acc w = Done acc' w'
     /\ fst acc' = fst acc ++ icons
     /\ List.length icons = List.length batch
     /\ forall j pending,
          nth_error batch j = Some pending ->
          exists id iconifyID,
            nth_error icons j
            = Some (payload E pending
                      (if (j <? List.length enrichments)%nat
                       then nth j enrichments LLMEnrichmentResponse.zero
                       else LLMEnrichmentResponse.zero)
                      timestamp id iconifyID))
  /\ assembleBatch E timestamp enrichments 0 batch acc w
     = assembleBatch E timestamp (firstn (List.length batch) enrichments) 0 batch acc w.
Proof.
  split.
  - destruct (assembleBatch_done E timestamp enrichments batch 0 acc w)
      as (icons & w' & Hrun & Hb & _).
    exists icons, (addIcons acc icons), w'.
    split; [exact Hrun|]. split; [apply addIcons_fst|]. split.
    + rewrite (built_length _ _ _ _ _ Hb). apply paired_length.
    + intros j pending Hj.
      destruct (built_nth _ _ _ _ Hb j pending (enrichmentAt enrichments j)
                  (paired_nth enrichments batch j pending Hj)) as (iconifyID & Hnth).
      exists (uuid_New E (drawn w + j)), iconifyID. rewrite Hnth.
      unfold enrichmentAt.
      destruct (j <? List.length enrichments)%nat eqn:Hlt; [reflexivity|].
      apply Nat.ltb_ge in Hlt. now rewrite nth_overflow.
  - apply assembleBatch_ext. intros k Hk. unfold enrichmentAt.
    rewrite nth_firstn.
    replace (k <? List.length batch)%nat with true
      by (symmetry; apply Nat.ltb_lt; lia).
    reflexivity.
Qed.

End Assembly.

(** ** calculatePopularity *)

Lemma existsb_Permutation {A} (f : A -> bool) (l1 l2 : list A) :
  Permutation l1 l2 -> existsb f l1 = existsb f l2.
Proof.
  induction 1 as [|x l1 l2 _ IH|x y l|l1 l2 l3 _ IH1 _ IH2]; cbn [existsb].
  - reflexivity.
  - now rewrite IH.
  - destruct (f x), (f y); reflexivity.
  - now rewrite IH1.
Qed.

(** The order in which the map of popular services is visited does not
    change the result. *)
Lemma calculatePopularity_order (E : Env) (order : list gostring) (title : gostring) :
  Permutation popularServices order ->
  calculatePopularityIn E order title = calculatePopularity E title.
Proof.
  intros Hperm. unfold calculatePopularity, calculatePopularityIn.
  now rewrite (existsb_Permutation _ _ _ Hperm).
Qed.

(** ** The end-to-end example *)

(** C1, as the specification states it, fails: the slug of the title
    "ec2_instance" is not "aws-ec2-instance". *)
Lemma ec2_instance_slug_counterexample :
  ~ (cleanDisplayName (tables offline) "ec2_instance" = lit "Ec2 Instance"
     /\ generateSlug (tables offline) "AWS" "ec2_instance" = lit "aws-ec2-instance"
     /\ calculatePopularity offline "ec2_instance" = 1%Q
     /\ getFullProviderName offline "AWS" = lit "Amazon Web Services"
     /\ determineDefaultWidth "compute" = 64).
Proof. intros (_ & Hslug & _). vm_compute in Hslug. discriminate Hslug. Qed.

Lemma determineDefaultWidth_default (category : gostring) :
  ~ In category [lit "network"; lit "container"; lit "storage"; lit "database"] ->
  determineDefaultWidth category = 64.
Proof.
  intros Hnot. unfold determineDefaultWidth.
  rewrite !gostring_eqb_neq; [reflexivity | | | |];
    intros Heq; apply Hnot; subst category; simpl; auto.
Qed.

(** C1, amended.  For the icon element with title "ec2_instance" under the
    provider "AWS", the pipeline produces a record with display name
    "Ec2 Instance", slug "aws-ec2instance" (the underscore is not a space,
    so the sanitizer deletes it), popularity 1.0, provider
    "Amazon Web Services", and default width 64 when the enrichment
    category is none of network, container, storage, database. *)
Theorem ec2_instance_pipeline (E : Env) (link : gostring) (p : PendingIcon.t)
    (e : LLMEnrichmentResponse.t) (timestamp : gostring) (w : World)
    (Hcollect : collectIcon E link "ec2_instance" = Some p)
    (Hprovider : PendingIcon.Category p = lit "AWS")
    (Hcategory : ~ In (LLMEnrichmentResponse.Category e)
                   [lit "network"; lit "container"; lit "storage"; lit "database"]) :
  exists icon w',
    createIconPayload E (PendingIcon.Category p) (PendingIcon.Title p)
      (PendingIcon.Link p) (PendingIcon.DisplayName p) e timestamp w = Done icon w'
    /\ IconPayload.DisplayName icon = lit "Ec2 Instance"
    /\ IconPayload.Slug icon = lit "aws-ec2instance"
    /\ IconPayload.Popularity icon = 1%Q
    /\ IconPayload.Provider icon = lit "Amazon Web Services"
    /\ IconPayload.DefaultWidth icon = 64.
Proof.
  destruct (createIconPayload_done E p e timestamp w) as (iconifyID & reqs & Hc).
  unfold create in Hc. rewrite Hc. eexists; eexists. split; [reflexivity|].
  unfold collectIcon in Hcollect.
  destruct (negb (gostring_eqb link []) && strings_Contains link "%");
    [|discriminate].
  inversion Hcollect as [Hp]. rewrite <- Hp in Hprovider. cbn in Hprovider.
  unfold payload. cbn [IconPayload.DisplayName IconPayload.Slug IconPayload.Popularity
                       IconPayload.Provider IconPayload.DefaultWidth].
  cbn [PendingIcon.Category PendingIcon.Title PendingIcon.DisplayName].
  rewrite Hprovider. repeat split.
  now apply determineDefaultWidth_default.
Qed.

Lemma ec2_instance_pipeline_witness :
  exists icon w',
    createIconPayload offline (PendingIcon.Category ec2) (PendingIcon.Title ec2)
      (PendingIcon.Link ec2) (PendingIcon.DisplayName ec2) sampleEnrichment
      (time_Now offline) world0 = Done icon w'
    /\ IconPayload.DisplayName icon = lit "Ec2 Instance"
    /\ IconPayload.Slug icon = lit "aws-ec2instance"
    /\ IconPayload.Popularity icon = 1%Q
    /\ IconPayload.Provider icon = lit "Amazon Web Services"
    /\ IconPayload.DefaultWidth icon = 64.
Proof.
  apply (ec2_instance_pipeline offline "aws%2FCompute%2Fec2_instance.svg" ec2
           sampleEnrichment (time_Now offline) world0).
  - reflexivity.
  - reflexivity.
  - simpl. intros [H | [H | [H | [H | []]]]]; discriminate H.
Defined.

(** ** cleanDisplayName *)

Section DisplayName.

Variable T : CaseTables.

Lemma EncodeRune_ascii (b : byte) : byteZ b < RuneSelf -> EncodeRune (byteZ b) = [b].
Proof.
  intros Hb. pose proof (byteZ_range b) as Hr. unfold RuneSelf in Hb.
  unfold EncodeRune.
  replace (byteZ b <? 0) with false by (symmetry; apply Z.ltb_ge; lia).
  replace (byteZ b <=? 127) with true by (symmetry; apply Z.leb_le; lia).
  now rewrite zbyte_byteZ.
Qed.

(** On a word that starts with an ASCII byte the program capitalizes as the
    specification asks. *)
Lemma capitalize_ascii (b : byte) (rest : gostring) :
  byteZ b < RuneSelf -> capitalize T (b :: rest) = capitalizeRune T (b :: rest).
Proof.
  intros Hb. unfold capitalize, capitalizeRune.
  rewrite (EncodeRune_ascii b Hb).
  unfold DecodeRune. apply Z.ltb_lt in Hb. rewrite Hb. reflexivity.
Qed.

Lemma map_capitalize_ascii (words : list gostring) :
  Forall asciiInitial words -> map (capitalize T) words = map (capitalizeRune T) words.
Proof.
  induction 1 as [|word words Hw _ IH]; [reflexivity|].
  cbn [map]. rewrite IH. f_equal.
  destruct word as [|b rest]; [reflexivity|]. now apply capitalize_ascii.
Qed.

End DisplayName.

(** *** ASCII titles *)

Lemma range_ascii (s : gostring) :
  isASCII s = true -> range s = map chunk1 s.
Proof.
  induction s as [|b t IH]; intros Hs; [reflexivity|].
  cbn [isASCII forallb] in Hs. apply andb_true_iff in Hs as [Hb Ht].
  rewrite range_cons. unfold DecodeRune. rewrite Hb.
  cbn [fst snd firstn skipn map]. now rewrite (IH Ht).
Qed.

Lemma fieldsLoop_leading (cs sp : list (rune * gostring)) :
  Forall (fun c => unicode_IsSpace (fst c) = true) sp ->
  fieldsLoop unicode_IsSpace None (sp ++ cs) = fieldsLoop unicode_IsSpace None cs.
Proof.
  induction 1 as [|[r bs] sp Hc _ IH]; [reflexivity|].
  cbn [app fieldsLoop]. cbn [fst] in Hc. now rewrite Hc.
Qed.

Lemma fieldsLoop_trailing (sp : list (rune * gostring)) :
  Forall (fun c => unicode_IsSpace (fst c) = true) sp ->
  forall cs start,
    fieldsLoop unicode_IsSpace start (cs ++ sp) = fieldsLoop unicode_IsSpace start cs.
Proof.
  intros Hsp.
  assert (Hend : forall start,
             fieldsLoop unicode_IsSpace start sp = fieldsLoop unicode_IsSpace start []).
  { induction Hsp as [|[r bs] sp Hc _ IH]; intros start; [reflexivity|].
    cbn [fieldsLoop]. cbn [fst] in Hc. rewrite Hc.
    destruct start; rewrite IH; reflexivity. }
  induction cs as [|[r bs] cs IH]; intros start; [apply Hend|].
  cbn [app fieldsLoop].
  destruct (unicode_IsSpace r), start; rewrite IH; reflexivity.
Qed.

Lemma dropSpaces_split (cs : list (rune * gostring)) :
  exists sp,
    cs = sp ++ dropSpaces cs
    /\ Forall (fun c => unicode_IsSpace (fst c) = true) sp.
Proof.
  induction cs as [|c cs (sp & Hcs & Hsp)].
  - exists []. split; [reflexivity | constructor].
  - cbn [dropSpaces]. destruct (unicode_IsSpace (fst c)) eqn:Hc.
    + exists (c :: sp). split; [cbn [app]; now rewrite <- Hcs | now constructor].
    + exists []. split; [reflexivity | constructor].
Qed.

(** Trimming takes runs of white space off the two ends. *)
Lemma trim_split (cs : list (rune * gostring)) :
  exists sp1 sp2,
    cs = sp1 ++ rev (dropSpaces (rev (dropSpaces cs))) ++ sp2
    /\ Forall (fun c => unicode_IsSpace (fst c) = true) sp1
    /\ Forall (fun c => unicode_IsSpace (fst c) = true) sp2.
Proof.
  destruct (dropSpaces_split cs) as (sp1 & H1 & Hsp1).
  destruct (dropSpaces_split (rev (dropSpaces cs))) as (sp2 & H2 & Hsp2).
  exists sp1, (rev sp2). split; [|split].
  - rewrite H1 at 1. f_equal.
    rewrite <- (rev_involutive (dropSpaces cs)) at 1.
    rewrite H2 at 1. now rewrite rev_app_distr.
  - exact Hsp1.
  - apply Forall_rev. exact Hsp2.
Qed.

Lemma separate_ReplaceAll (s : gostring) :
  strings_ReplaceAll (strings_ReplaceAll s "_" " ") "-" " " = map separate s.
Proof.
  change (lit "_") with ["_"%byte]. change (lit " ") with [" "%byte].
  change (lit "-") with ["-"%byte].
  rewrite !ReplaceAll_byte, map_map. apply map_ext. intros b. unfold separate.
  destruct (byte_eqb "_" b); reflexivity.
Qed.

Lemma separate_ascii (b : byte) :
  (byteZ b <? RuneSelf) = true -> (byteZ (separate b) <? RuneSelf) = true.
Proof. destruct b; intros H; try discriminate H; reflexivity. Qed.

Lemma separate_space (b : byte) :
  unicode_IsSpace (byteZ b) = true -> unicode_IsSpace (byteZ (separate b)) = true.
Proof. destruct b; intros H; try discriminate H; reflexivity. Qed.

Lemma chunks_bytes (s : gostring) : List.concat (map snd (map chunk1 s)) = s.
Proof. induction s as [|b s IH]; [reflexivity|]. cbn. now rewrite IH. Qed.

Lemma chunk1_sub (s : gostring) (pre mid post : list (rune * gostring)) :
  map chunk1 s = pre ++ mid ++ post ->
  exists s1 s2 s3,
    s = s1 ++ s2 ++ s3 /\ pre = map chunk1 s1 /\ mid = map chunk1 s2
    /\ post = map chunk1 s3.
Proof.
  intros H. apply map_eq_app in H as (s1 & s23 & Hs & Hpre & H).
  apply map_eq_app in H as (s2 & s3 & Hs' & Hmid & Hpost).
  exists s1, s2, s3. subst. auto.
Qed.

Lemma isASCII_app (s1 s2 : gostring) :
  isASCII (s1 ++ s2) = isASCII s1 && isASCII s2.
Proof. unfold isASCII. apply forallb_app. Qed.

Lemma isASCII_separate (s : gostring) :
  isASCII s = true -> isASCII (map separate s) = true.
Proof.
  unfold isASCII. rewrite !forallb_forall. intros H b Hb.
  apply in_map_iff in Hb as (a & Ha & Hin). subst b.
  apply separate_ascii, H, Hin.
Qed.

Lemma spaces_separate (s : gostring) :
  Forall (fun c => unicode_IsSpace (fst c) = true) (map chunk1 s) ->
  Forall (fun c => unicode_IsSpace (fst c) = true) (map chunk1 (map separate s)).
Proof.
  rewrite !Forall_map. apply Forall_impl. intros b. apply separate_space.
Qed.

(** Every word of an ASCII string starts with an ASCII byte. *)
Lemma fieldsLoop_asciiInitial (s : gostring) :
  isASCII s = true ->
  forall start,
    match start with Some w => asciiInitial w /\ w <> [] | None => True end ->
    Forall asciiInitial (fieldsLoop unicode_IsSpace start (map chunk1 s)).
Proof.
  induction s as [|b s IH]; intros Hs start Hstart.
  - destruct start; cbn; repeat constructor. apply Hstart.
  - cbn [isASCII forallb] in Hs. apply andb_true_iff in Hs as [Hb Hs].
    cbn [map chunk1 fieldsLoop].
    destruct (unicode_IsSpace (byteZ b)), start as [w|].
    + constructor; [apply Hstart | now apply IH].
    + now apply IH.
    + apply IH; [exact Hs|]. destruct Hstart as [Hw Hne].
      destruct w as [|c w]; [contradiction|]. split; [exact Hw | discriminate].
    + apply IH; [exact Hs|]. split; [apply Z.ltb_lt, Hb | discriminate].
Qed.

(** On ASCII titles [cleanDisplayName] computes what the specification
    asks: separators to spaces, every word capitalized, single spaces. *)
Lemma cleanDisplayName_ascii (T : CaseTables) (title : gostring) :
  isASCII title = true ->
  cleanDisplayName T title = cleanDisplayName_spec T title.
Proof.
  intros Hascii. unfold cleanDisplayName, cleanDisplayName_spec.
  rewrite !separate_ReplaceAll. unfold strings_TrimSpace, strings_Fields.
  rewrite (range_ascii title Hascii).
  destruct (trim_split (map chunk1 title)) as (sp1 & sp2 & Hsplit & Hsp1 & Hsp2).
  destruct (chunk1_sub _ _ _ _ Hsplit) as (s1 & s2 & s3 & Htitle & H1 & H2 & H3).
  rewrite H2, chunks_bytes.
  rewrite Htitle, !isASCII_app in Hascii.
  apply andb_true_iff in Hascii as [Ha1 Ha23].
  apply andb_true_iff in Ha23 as [Ha2 Ha3].
  rewrite (range_ascii (map separate s2)) by now apply isASCII_separate.
  rewrite (range_ascii (map separate title)).
  2:{ apply isASCII_separate. rewrite Htitle, !isASCII_app, Ha1, Ha2, Ha3.
      reflexivity. }
  rewrite Htitle, !map_app.
  rewrite fieldsLoop_leading by (apply spaces_separate; now rewrite <- H1).
  rewrite fieldsLoop_trailing by (apply spaces_separate; now rewrite <- H3).
  rewrite map_capitalize_ascii; [reflexivity|].
  apply fieldsLoop_asciiInitial; [now apply isASCII_separate | exact I].
Qed.

(** *** A title that does not start with an ASCII letter *)

(** C7 at a title whose first letter is not ASCII.  For "émile" (the bytes
    C3 A9 6D 69 6C 65) the specification asks for "Émile" (C3 89 6D 69 6C
    65).  The program uppercases the first byte, C3, read as the rune U+00C3,
    and lowercases the now invalid rest: it returns C3 83 EF BF BD 6D 69 6C
    65. *)
Theorem cleanDisplayName_first_byte :
  cleanDisplayName latin1 [xc3; xa9; "m"; "i"; "l"; "e"]%byte
  = [xc3; x83; xef; xbf; xbd; "m"; "i"; "l"; "e"]%byte
  /\ cleanDisplayName_spec latin1 [xc3; xa9; "m"; "i"; "l"; "e"]%byte
     = [xc3; x89; "m"; "i"; "l"; "e"]%byte.
Proof. split; vm_compute; reflexivity. Qed.

(** ** arrayToJSON *)

(** The decoder on a text with white space, raw UTF-8, an escape, a lone
    surrogate and an empty string. *)
Example decode_sample :
  json_DecodeStrings
    (lit "[ " ++ [x22] ++ lit "a" ++ [xc3; xa9] ++ lit "\n" ++ [xf0; x9f; x98; x80] ++ lit "\ud800x" ++ [x22]
     ++ lit " , " ++ [x22; x22] ++ lit "]")
  = Some [ [x61; xc3; xa9; x0a; xf0; x9f; x98; x80; xef; xbf; xbd; x78]; [] ]%byte.
Proof. vm_compute. reflexivity. Qed.

(** C8, as stated, fails on a string that is not valid UTF-8:
    [json.Marshal] writes the byte FF as the escape [\ufffd], which reads
    back as the three bytes EF BF BD. *)
Lemma arrayToJSON_roundtrip_counterexample :
  arrayToJSON [[xff]] = [x5b; x22] ++ lit "\ufffd" ++ [x22; x5d]
  /\ json_DecodeStrings (arrayToJSON [[xff]]) = Some [[xef; xbf; xbd]]
  /\ json_DecodeStrings (arrayToJSON [[xff]]) <> Some [[xff]].
Proof.
  split; [vm_compute; reflexivity|]. split; [vm_compute; reflexivity|].
  vm_compute. discriminate.
Qed.

Lemma jrun_app (st : jstate) (s1 s2 : gostring) :
  jrun st (s1 ++ s2)
  = match jrun st s1 with
    | Some st' => jrun st' s2
    | None => None
    end.
Proof.
  revert st. induction s1 as [|b s1 IH]; intros st; [reflexivity|].
  cbn [jrun app]. destruct (jstep st b); [apply IH | reflexivity].
Qed.

Lemma jstep_high (cur : gostring) (acc : list gostring) (b : byte) :
  0x80 <= byteZ b ->
  jstep (inString cur acc) b = Some (inString (cur ++ [b]) acc).
Proof.
  intros Hb. unfold jstep, inString. cbn [jmod jcur jhigh jacc jflush].
  replace (byteZ b =? 34) with false by (symmetry; apply Z.eqb_neq; lia).
  replace (byteZ b =? 92) with false by (symmetry; apply Z.eqb_neq; lia).
  replace (byteZ b <? 32) with false by (symmetry; apply Z.ltb_ge; lia).
  reflexivity.
Qed.

(** Bytes with the high bit set are copied. *)
Lemma jrun_high (bs : gostring) :
  Forall (fun b => 0x80 <= byteZ b) bs ->
  forall cur acc,
    jrun (inString cur acc) bs = Some (inString (cur ++ bs) acc).
Proof.
  induction 1 as [|b bs Hb _ IH]; intros cur acc.
  - now rewrite app_nil_r.
  - cbn [jrun]. rewrite (jstep_high cur acc b Hb), IH, <- app_assoc. reflexivity.
Qed.

(** An ASCII byte, as [json.Marshal] writes it, reads back as itself. *)
Lemma jrun_ascii (b : byte) (cur : gostring) (acc : list gostring) :
  byteZ b < 0x80 ->
  jrun (inString cur acc) (appendRune (byteZ b, [b]))
  = Some (inString (cur ++ [b]) acc).
Proof.
  intros Hb.
  destruct b; try (exfalso; vm_compute in Hb; discriminate Hb); reflexivity.
Qed.

Lemma appendRune_copy (r : rune) (bs : gostring) :
  RuneSelf <= r -> (1 < List.length bs)%nat -> r <> 0x2028 -> r <> 0x2029 ->
  appendRune (r, bs) = bs.
Proof.
  unfold RuneSelf. intros Hr Hlen H1 H2. unfold appendRune.
  replace (r <? RuneSelf) with false by (symmetry; apply Z.ltb_ge; unfold RuneSelf; lia).
  replace (List.length bs =? 1)%nat with false by (symmetry; apply Nat.eqb_neq; lia).
  rewrite andb_false_r.
  replace (r =? 8232) with false by (symmetry; apply Z.eqb_neq; lia).
  replace (r =? 8233) with false by (symmetry; apply Z.eqb_neq; lia).
  reflexivity.
Qed.

(** A rune of a valid string, as [json.Marshal] writes it, reads back as
    the bytes it was decoded from. *)
Lemma jrun_rune (s : gostring) (r : rune) (w : nat) :
  decoded s r w ->
  negb ((r =? RuneError) && (List.length (firstn w s) =? 1)%nat) = true ->
  forall cur acc,
    jrun (inString cur acc) (appendRune (r, firstn w s))
    = Some (inString (cur ++ firstn w s) acc).
Proof.
  intros Hd Hvalid cur acc.
  pose proof (decoded_high _ _ _ Hd) as Hhigh.
  destruct Hd as [b t Hb | b t Hb | b0 b1 t H0 H1
                  | b0 b1 b2 t H0 H1 Hlo Hhi H2
                  | b0 b1 b2 b3 t H0 H1 Hlo Hhi H2 H3].
  - cbn [firstn]. now apply jrun_ascii.
  - discriminate Hvalid.
  - rewrite appendRune_copy; try (unfold RuneSelf; cbn [firstn List.length]; lia).
    apply jrun_high, Hhigh. unfold RuneSelf. lia.
  - cbn [firstn] in *.
    destruct (Z.eq_dec ((byteZ b0 mod 16) * 4096 + (byteZ b1 mod 64) * 64
                        + byteZ b2 mod 64) 0x2028) as [Hls | Hnls];
    [|destruct (Z.eq_dec ((byteZ b0 mod 16) * 4096 + (byteZ b1 mod 64) * 64
                          + byteZ b2 mod 64) 0x2029) as [Hps | Hnps]].
    + rewrite Hls.
      assert (b0 = xe2) by (apply byteZ_inj; change (byteZ xe2) with 226; lia).
      assert (b1 = x80) by (apply byteZ_inj; change (byteZ x80) with 128; lia).
      assert (b2 = xa8) by (apply byteZ_inj; change (byteZ xa8) with 168; lia).
      subst. reflexivity.
    + rewrite Hps.
      assert (b0 = xe2) by (apply byteZ_inj; change (byteZ xe2) with 226; lia).
      assert (b1 = x80) by (apply byteZ_inj; change (byteZ x80) with 128; lia).
      assert (b2 = xa9) by (apply byteZ_inj; change (byteZ xa9) with 169; lia).
      subst. reflexivity.
    + rewrite appendRune_copy; try (unfold RuneSelf; cbn [List.length]; lia).
      apply jrun_high, Hhigh. unfold RuneSelf. lia.
  - rewrite appendRune_copy; try (unfold RuneSelf; cbn [firstn List.length]; lia).
    apply jrun_high, Hhigh. unfold RuneSelf. lia.
Qed.

Lemma ValidString_cons (b : byte) (t : gostring) (r : rune) (w : nat) :
  range (b :: t) = (r, firstn w (b :: t)) :: range (skipn w (b :: t)) ->
  ValidString (b :: t) = true ->
  negb ((r =? RuneError) && (List.length (firstn w (b :: t)) =? 1)%nat) = true
  /\ ValidString (skipn w (b :: t)) = true.
Proof.
  unfold ValidString. intros Hr. rewrite Hr. cbn [forallb fst snd].
  intros H. apply andb_true_iff in H. exact H.
Qed.

(** A valid string, as [json.Marshal] writes its characters, reads back. *)
Lemma jrun_string (v : gostring) :
  ValidString v = true ->
  forall cur acc,
    jrun (inString cur acc) (flat_map appendRune (range v))
    = Some (inString (cur ++ v) acc).
Proof.
  induction v as [|b t r w Hd Hr IH] using range_ind; intros Hvalid cur acc.
  - cbn. now rewrite app_nil_r.
  - destruct (ValidString_cons b t r w Hr Hvalid) as [Hhead Htail].
    rewrite Hr. cbn [flat_map]. rewrite jrun_app.
    rewrite (jrun_rune _ _ _ Hd Hhead), (IH Htail), <- app_assoc, firstn_skipn.
    reflexivity.
Qed.

Lemma jrun_quoted (m : jmode) (v : gostring) (acc : list gostring) :
  m = JFirst \/ m = JValue ->
  ValidString v = true ->
  jrun (between m acc) (appendString v) = Some (between JAfter (acc ++ [v])).
Proof.
  intros Hm Hvalid. unfold appendString.
  assert (Hopen : jstep (between m acc) x22 = Some (inString [] acc))
    by (destruct Hm; subst m; reflexivity).
  cbn [app jrun]. rewrite Hopen, jrun_app, (jrun_string v Hvalid). reflexivity.
Qed.

Lemma jrun_elems (arr : list gostring) :
  Forall (fun v => ValidString v = true) arr -> arr <> [] ->
  forall m acc,
    m = JFirst \/ m = JValue ->
    jrun (between m acc) (appendElems arr ++ lit "]")
    = Some (between JEnd (acc ++ arr)).
Proof.
  induction 1 as [|v rest Hv Hrest IH]; intros Hne m acc Hm; [contradiction|].
  destruct rest as [|v' rest'].
  - cbn [appendElems]. rewrite jrun_app, (jrun_quoted m v acc Hm Hv). reflexivity.
  - change (appendElems (v :: v' :: rest'))
      with (appendString v ++ lit "," ++ appendElems (v' :: rest')).
    rewrite <- !app_assoc, jrun_app, (jrun_quoted m v acc Hm Hv).
    change (lit "," ++ appendElems (v' :: rest') ++ lit "]")
      with (x2c :: (appendElems (v' :: rest') ++ lit "]")).
    cbn [jrun]. change (jstep (between JAfter (acc ++ [v])) x2c)
      with (Some (between JValue (acc ++ [v]))).
    cbv iota. rewrite IH by (auto; discriminate).
    now rewrite <- app_assoc.
Qed.

(** C8, amended.  [arrayToJSON] of the empty (or nil) list is "[]"; for
    every non-empty list of valid UTF-8 strings the returned text is a JSON
    array that decodes to the list itself. *)
Theorem arrayToJSON_roundtrip (arr : list gostring)
    (Hvalid : Forall (fun v => ValidString v = true) arr) :
  arrayToJSON [] = lit "[]"
  /\ json_DecodeStrings (arrayToJSON arr) = Some arr.
Proof.
  split; [reflexivity|].
  destruct arr as [|v rest]; [reflexivity|].
  unfold arrayToJSON. cbn [List.length Nat.eqb]. unfold json_MarshalStrings.
  unfold json_DecodeStrings.
  change (lit "[" ++ appendElems (v :: rest) ++ lit "]")
    with (x5b :: (appendElems (v :: rest) ++ lit "]")).
  cbn [jrun]. change (jstep jinit x5b) with (Some (between JFirst [])).
  cbv iota. rewrite (jrun_elems (v :: rest) Hvalid) by (auto; discriminate).
  reflexivity.
Qed.

Lemma arrayToJSON_roundtrip_witness :
  arrayToJSON [] = lit "[]"
  /\ json_DecodeStrings (arrayToJSON [lit "a"; lit "b"]) = Some [lit "a"; lit "b"].
Proof.
  apply (arrayToJSON_roundtrip [lit "a"; lit "b"]).
  repeat constructor.
Defined.

(** * Further properties *)

(** ** The provider groups *)

Lemma gostring_eqb_refl (a : gostring) : gostring_eqb a a = true.
Proof. now apply gostring_eqb_eq. Qed.

Lemma gostring_eqb_sym (a b : gostring) : gostring_eqb a b = gostring_eqb b a.
Proof.
  destruct (gostring_eqb a b) eqn:Hab, (gostring_eqb b a) eqn:Hba; try reflexivity.
  - apply gostring_eqb_eq in Hab. subst. now rewrite gostring_eqb_refl in Hba.
  - apply gostring_eqb_eq in Hba. subst. now rewrite gostring_eqb_refl in Hab.
Qed.

Lemma appendAt_keys (m : list (gostring * list IconPayload.t)) (k : gostring)
      (icon : IconPayload.t) :
  map fst (appendAt m k icon)
  = match lookup m k with
    | Some _ => map fst m
    | None => map fst m ++ [k]
    end.
Proof.
  induction m as [|[k' v] m IH]; [reflexivity|].
  cbn [appendAt lookup]. destruct (gostring_eqb k' k); [reflexivity|].
  cbn [map fst]. rewrite IH. destruct (lookup m k); reflexivity.
Qed.

Lemma lookup_None_keys {V} (m : list (gostring * V)) (k : gostring) :
  lookup m k = None -> ~ In k (map fst m).
Proof.
  induction m as [|[k' v] m IH]; intros Hl Hin; [contradiction|].
  cbn [lookup] in Hl. destruct (gostring_eqb k' k) eqn:Hk; [discriminate|].
  destruct Hin as [Heq | Hin].
  - cbn in Heq. subst. now rewrite gostring_eqb_refl in Hk.
  - now apply IH.
Qed.

Lemma appendAt_lookup (m : list (gostring * list IconPayload.t)) (k k0 : gostring)
      (icon : IconPayload.t) :
  lookup (appendAt m k icon) k0
  = if gostring_eqb k k0
    then Some (match lookup m k with Some v => v ++ [icon] | None => [icon] end)
    else lookup m k0.
Proof.
  induction m as [|[k' v] m IH].
  - cbn [appendAt lookup]. destruct (gostring_eqb k k0); reflexivity.
  - cbn [appendAt lookup]. destruct (gostring_eqb k' k) eqn:Hk.
    + apply gostring_eqb_eq in Hk. subst k'. cbn [lookup].
      destruct (gostring_eqb k k0); reflexivity.
    + cbn [lookup]. destruct (gostring_eqb k' k0) eqn:Hk0.
      * apply gostring_eqb_eq in Hk0. subst k'.
        rewrite gostring_eqb_sym, Hk. reflexivity.
      * exact IH.
Qed.

Lemma ofProvider_snoc (k : gostring) (icons : list IconPayload.t) (icon : IconPayload.t) :
  ofProvider k (icons ++ [icon])
  = ofProvider k icons
    ++ (if gostring_eqb (IconPayload.Provider icon) k then [icon] else []).
Proof. unfold ofProvider. now rewrite filter_app. Qed.

Lemma grouped_addIcon (acc : Icons) (icon : IconPayload.t) :
  grouped acc -> grouped (addIcon acc icon).
Proof.
  intros [Hkeys Hgroups]. unfold grouped, addIcon. cbn [fst snd]. split.
  - rewrite appendAt_keys.
    destruct (lookup (snd acc) (IconPayload.Provider icon)) eqn:Hl; [exact Hkeys|].
    apply NoDup_app; [exact Hkeys | repeat constructor; intros [] |].
    intros x Hx [Heq | []]. subst x. now apply (lookup_None_keys _ _ Hl).
  - intros k. rewrite appendAt_lookup, ofProvider_snoc.
    destruct (gostring_eqb (IconPayload.Provider icon) k) eqn:Hk.
    + apply gostring_eqb_eq in Hk. subst k.
      specialize (Hgroups (IconPayload.Provider icon)).
      destruct (lookup (snd acc) (IconPayload.Provider icon)) as [v|].
      * destruct Hgroups as [Hv Hne]. split; [now rewrite Hv|].
        intros H. now apply app_eq_nil in H as [_ H].
      * rewrite Hgroups. split; [reflexivity | discriminate].
    + specialize (Hgroups k). rewrite app_nil_r. exact Hgroups.
Qed.

Lemma grouped_addIcons (icons : list IconPayload.t) :
  forall acc, grouped acc -> grouped (addIcons acc icons).
Proof.
  unfold addIcons. induction icons as [|icon icons IH]; intros acc Hacc; [exact Hacc|].
  cbn [fold_left]. apply IH. now apply grouped_addIcon.
Qed.

Lemma grouped_empty : grouped ([], []).
Proof. split; [constructor | intros k; reflexivity]. Qed.

(** Whenever [Generate] returns, its two accumulators are the empty ones
    with the icons added one after the other. *)
Lemma Generate_addIcons (E : Env) (C : Config) (pending : list PendingIcon.t)
      (w : World) (acc : Icons) (w' : World) :
  Generate E C pending w = Done acc w' ->
  acc = addIcons ([], []) (fst acc).
Proof.
  rewrite Generate_loop.
  destruct (useLLMEnrichment C && llmServiceAvailable (checked E C w)
            && useBatchProcessing C); intros H.
  - apply batchLoop_built in H as (icons & pes & Hacc & _); [|lia].
    rewrite Hacc at 2. now rewrite addIcons_fst.
  - apply eachLoop_built in H as (icons & pes & Hacc & _).
    rewrite Hacc at 2. now rewrite addIcons_fst.
Qed.

(** The provider groups of a run partition its records: the keys are
    pairwise distinct, the group of a provider is exactly the records of
    that provider in the order of [allIcons], it is never empty, and a
    provider without records has no group. *)
Theorem Generate_groups (E : Env) (C : Config) (pending : list PendingIcon.t)
    (w : World) (icons : list IconPayload.t)
    (groups : list (gostring * list IconPayload.t)) (w' : World)
    (Hrun : Generate E C pending w = Done (icons, groups) w') :
  NoDup (map fst groups)
  /\ forall k,
       match lookup groups k with
       | Some group => group = ofProvider k icons /\ group <> []
       | None => ofProvider k icons = []
       end.
Proof.
  apply Generate_addIcons in Hrun. cbn [fst] in Hrun.
  pose proof (grouped_addIcons icons ([], []) grouped_empty) as Hg.
  rewrite <- Hrun in Hg. exact Hg.
Qed.

Lemma Generate_groups_witness :
  exists icons groups,
    NoDup (map fst groups)
    /\ forall k,
         match lookup groups k with
         | Some group => group = ofProvider k icons /\ group <> []
         | None => ofProvider k icons = []
         end.
Proof.
  eexists. eexists.
  eapply (Generate_groups online batchConfig sevenIcons world0).
  vm_compute. reflexivity.
Defined.

(** ** The records of a run *)

Lemma built_payloads (E : Env) (ts : gostring) (k : nat)
      (pes : list (PendingIcon.t * LLMEnrichmentResponse.t))
      (icons : list IconPayload.t) :
  built E ts k pes icons ->
  Forall2 (fun pe icon =>
             exists id iconifyID, icon = payload E (fst pe) (snd pe) ts id iconifyID)
          pes icons.
Proof.
  induction 1; constructor; [|assumption].
  cbn [fst snd]. eauto.
Qed.

Lemma payload_inRange (E : Env) (p : PendingIcon.t) (e : LLMEnrichmentResponse.t)
      (ts id iconifyID : gostring) :
  inRange (payload E p e ts id iconifyID).
Proof.
  unfold inRange, payload. cbn. split; [|split].
  - unfold determineDefaultWidth.
    destruct (_ || _); [auto|]. destruct (_ || _); auto.
  - unfold calculatePopularity, calculatePopularityIn. destruct (existsb _ _); auto.
  - destruct (LLMEnrichmentResponse.IsContainer e); auto.
Qed.

(** [Generate] keeps the order of the scraped icons: the record at each
    position is the one of the pending icon at that position, with its
    display name, URL, slug, provider name and popularity, and all records
    carry the one timestamp taken before the loop. *)
Theorem Generate_in_order (E : Env) (C : Config) (pending : list PendingIcon.t)
    (w : World) (icons : list IconPayload.t)
    (groups : list (gostring * list IconPayload.t)) (w' : World)
    (Hrun : Generate E C pending w = Done (icons, groups) w') :
  Forall2 (fromPending E (time_Now E)) pending icons.
Proof.
  destruct (Generate_built _ _ _ _ _ _ _ Hrun) as (pes & Hb & Hfst).
  apply built_payloads in Hb. subst pending. clear Hrun.
  induction Hb as [|pe icon pes icons (id & iid & Hicon) _ IH]; constructor.
  - subst icon. repeat split.
  - exact IH.
Qed.

Lemma Generate_in_order_witness :
  exists icons,
    Forall2 (fromPending online (time_Now online)) sevenIcons icons.
Proof.
  eexists.
  eapply (Generate_in_order online batchConfig sevenIcons world0).
  vm_compute. reflexivity.
Defined.

(** Every record of a run has a default width of 64, 96 or 128, a
    popularity of 1.0 or 0.5, and an icon position that is "top-left" for a
    container and "center" otherwise. *)
Theorem Generate_in_range (E : Env) (C : Config) (pending : list PendingIcon.t)
    (w : World) (icons : list IconPayload.t)
    (groups : list (gostring * list IconPayload.t)) (w' : World)
    (Hrun : Generate E C pending w = Done (icons, groups) w') :
  Forall inRange icons.
Proof.
  destruct (Generate_built _ _ _ _ _ _ _ Hrun) as (pes & Hb & _).
  apply built_payloads in Hb. clear Hrun.
  induction Hb as [|pe icon pes icons (id & iid & Hicon) _ IH]; constructor.
  - subst icon. apply payload_inRange.
  - exact IH.
Qed.

Lemma Generate_in_range_witness :
  exists icons, icons <> [] /\ Forall inRange icons.
Proof.
  eexists. split; [|eapply (Generate_in_range online batchConfig sevenIcons world0)].
  2:{ vm_compute. reflexivity. }
  discriminate.
Defined.

(** ** The requests of a run *)

Section Requests.

Variable E : Env.
Variable C : Config.

Lemma Get_search (query : gostring) (w : World) :
  exists resp reqs,
    Get E (searchURL query) w = Done resp (sending w reqs)
    /\ Forall isSearch reqs /\ (List.length reqs <= 1)%nat
    /\ (resp = Failed \/ exists log req, resp = http_Do E log req).
Proof.
  unfold Get, NewRequest. destruct (validRequest E "GET" (searchURL query)).
  - eexists. exists [{| Method := "GET"; ReqURL := searchURL query; Body := [] |}].
    split; [reflexivity|]. split; [|split; [simpl; lia | right; eauto]].
    repeat constructor. now exists query.
  - exists Failed, []. rewrite sending_nil.
    split; [reflexivity|]. split; [constructor | split; [simpl; lia | now left]].
Qed.

Lemma tryQueries_search (queries : list gostring) (w : World) :
  exists found reqs,
    tryQueries E queries w = Done found (sending w reqs)
    /\ Forall isSearch reqs
    /\ (List.length reqs <= List.length queries)%nat
    /\ ((forall log req, firstIcon E (http_Do E log req) = None) -> found = None).
Proof.
  revert w. induction queries as [|query rest IH]; intros w.
  - exists None, []. rewrite sending_nil.
    split; [reflexivity|]. split; [constructor | split; [simpl; lia | auto]].
  - destruct (Get_search query w) as (resp & reqs & HGet & Hs & Hlen & Hresp).
    rewrite (tryQueries_cons _ _ _ _ _ _ HGet).
    destruct (firstIcon E resp) as [icon|] eqn:Hfirst.
    + exists (Some icon), reqs.
      split; [reflexivity|]. split; [exact Hs|]. split; [simpl; lia|].
      intros Hnone. destruct Hresp as [-> | (log & req & ->)].
      * discriminate Hfirst.
      * rewrite Hnone in Hfirst. discriminate Hfirst.
    + destruct (IH (sending w reqs)) as (found & reqs' & Hrest & Hs' & Hlen' & Hf).
      exists found, (reqs ++ reqs'). rewrite Hrest, sending_app.
      split; [reflexivity|]. split; [now apply Forall_app|].
      split; [rewrite length_app; simpl; lia | exact Hf].
Qed.

(** [createIconPayload] only talks to the search service, at most three
    times; when no search offers an icon the reference is "logos:" followed
    by the slug. *)
Lemma createIconPayload_search (p : PendingIcon.t) (e : LLMEnrichmentResponse.t)
      (timestamp : gostring) (w : World) :
  exists iconifyID reqs,
    create E p e timestamp w
    = Done (payload E p e timestamp (uuid_New E (drawn w)) iconifyID)
           (drawing (sending w reqs))
    /\ Forall isSearch reqs /\ (List.length reqs <= 3)%nat
    /\ ((forall log req, firstIcon E (http_Do E log req) = None) ->
        iconifyID
        = lit "logos:"
          ++ generateSlug (tables E) (PendingIcon.Category p) (PendingIcon.Title p)).
Proof.
  unfold create, createIconPayload, verifyIconifyID, bind.
  destruct (tryQueries_search
              [PendingIcon.Category p ++ lit " " ++ PendingIcon.Title p;
               PendingIcon.Title p;
               generateSlug (tables E) (PendingIcon.Category p) (PendingIcon.Title p)] w)
    as (found & reqs & Htry & Hs & Hlen & Hnone).
  rewrite Htry. destruct found as [icon|].
  - exists icon, reqs. split; [reflexivity|]. split; [exact Hs|]. split; [exact Hlen|].
    intros H. specialize (Hnone H). discriminate Hnone.
  - eexists. exists reqs. split; [reflexivity|]. split; [exact Hs|].
    split; [exact Hlen | reflexivity].
Qed.

Lemma eachLoop_off_search (timestamp : gostring) :
  forall (pending : list PendingIcon.t) (acc : Icons) (w : World),
    useLLMEnrichment C && llmServiceAvailable w = false ->
    exists acc' w' reqs,
      eachLoop E C timestamp pending acc w = Done acc' w'
      /\ sent w' = sent w ++ reqs
      /\ Forall isSearch reqs
      /\ (List.length reqs <= 3 * List.length pending)%nat.
Proof.
  induction pending as [|p rest IH]; intros acc w Hoff.
  - exists acc, w, []. rewrite app_nil_r.
    split; [reflexivity|]. split; [reflexivity|]. split; [constructor | simpl; lia].
  - cbn [eachLoop]. unfold bind at 1. unfold getAvailable at 1. unfold bind at 1.
    rewrite Hoff. unfold ret at 1. unfold bind at 1.
    destruct (createIconPayload_search p LLMEnrichmentResponse.zero timestamp w)
      as (iconifyID & reqs & Hc & Hs & Hlen & _).
    unfold create in Hc. rewrite Hc.
    destruct (IH (addIcon acc (payload E p LLMEnrichmentResponse.zero timestamp
                                 (uuid_New E (drawn w)) iconifyID))
                 (drawing (sending w reqs)) Hoff)
      as (acc' & w' & reqs' & Hloop & Hsent & Hs' & Hlen').
    exists acc', w', (reqs ++ reqs').
    split; [exact Hloop|]. split; [|split].
    + rewrite Hsent. cbn [drawing sending sent]. now rewrite app_assoc.
    + now apply Forall_app.
    + rewrite length_app. cbn [List.length]. lia.
Qed.

(** A search does not go to the classification service. *)
Lemma isSearch_elsewhere (req : Request) : isSearch req -> ~ toService req.
Proof.
  intros (_ & _ & query & Hurl) Hto. unfold toService in Hto. rewrite Hurl in Hto.
  destruct Hto as [H | [H | H]]; vm_compute in H; discriminate H.
Qed.

(** With LLM enrichment disabled (as the source has it) [Generate] makes no
    health check, and its loop over the pending icons completes having sent,
    through [httpClient], nothing but [GET]s to the icon search, at most
    three per icon: no request goes to the classification service. *)
Theorem Generate_disabled_requests (pending : list PendingIcon.t) (w : World)
    (Hoff : useLLMEnrichment C = false) :
  exists acc w' reqs,
    Generate E C pending w = Done acc w'
    /\ sent w' = sent w ++ reqs
    /\ Forall isSearch reqs
    /\ (List.length reqs <= 3 * List.length pending)%nat
    /\ Forall (fun req => ~ toService req) reqs.
Proof.
  rewrite Generate_loop. unfold checked. rewrite Hoff. cbn [andb].
  destruct (eachLoop_off_search (time_Now E) pending ([], []) w)
    as (acc & w' & reqs & Hloop & Hsent & Hs & Hlen); [now rewrite Hoff|].
  exists acc, w', reqs. repeat split; try assumption.
  apply (Forall_impl _ isSearch_elsewhere), Hs.
Qed.

(** When no search offers an icon, the icon reference of the record that
    [createIconPayload] returns is "logos:" followed by its slug. *)
Theorem createIconPayload_fallback (provider title link displayName : gostring)
    (e : LLMEnrichmentResponse.t) (timestamp : gostring) (w : World)
    (Hnone : forall log req, firstIcon E (http_Do E log req) = None) :
  exists icon w',
    createIconPayload E provider title link displayName e timestamp w = Done icon w'
    /\ IconPayload.IconifyID icon = lit "logos:" ++ IconPayload.Slug icon.
Proof.
  destruct (createIconPayload_search
              (PendingIcon.mk provider title link displayName) e timestamp w)
    as (iconifyID & reqs & Hc & _ & _ & Hid).
  unfold create in Hc. cbn in Hc. rewrite Hc.
  eexists. eexists. split; [reflexivity|]. cbn. now apply Hid.
Qed.

End Requests.

Lemma Generate_disabled_requests_witness :
  exists acc w' reqs,
    Generate offline config sevenIcons world0 = Done acc w'
    /\ sent w' = sent world0 ++ reqs
    /\ Forall isSearch reqs
    /\ (List.length reqs <= 3 * List.length sevenIcons)%nat
    /\ Forall (fun req => ~ toService req) reqs.
Proof.
  apply (Generate_disabled_requests offline config sevenIcons world0).
  reflexivity.
Defined.

Lemma createIconPayload_fallback_witness :
  exists icon w',
    createIconPayload offline "AWS" "EC2 Instance" "aws%2Fec2.svg" "Ec2 Instance"
      sampleEnrichment (time_Now offline) world0 = Done icon w'
    /\ IconPayload.IconifyID icon = lit "logos:" ++ IconPayload.Slug icon.
Proof.
  apply (createIconPayload_fallback offline "AWS" "EC2 Instance" "aws%2Fec2.svg"
           "Ec2 Instance" sampleEnrichment (time_Now offline) world0).
  intros log req. reflexivity.
Defined.

Lemma Generate_returns_witness :
  exists acc w', Generate online batchConfig sevenIcons world0 = Done acc w'.
Proof.
  apply (Generate_returns online batchConfig sevenIcons world0).
  - reflexivity.
  - reflexivity.
Defined.

(** ** getUnescaped *)

Lemma escapeAt_backslash (s : gostring) (v : Z) :
  escapeAt s = Some v -> exists t, s = x5c :: t.
Proof.
  unfold escapeAt.
  destruct s as [|b0 [|b1 [|h1 [|h2 [|h3 [|h4 t]]]]]]; try discriminate.
  destruct (byte_eqb b0 x5c) eqn:H0; [|discriminate].
  apply byte_eqb_eq in H0. subst. eauto.
Qed.

Ltac break_hex :=
  repeat match goal with
         | |- context [hexDigit (byteZ ?h)] =>
           is_var h; destruct (hexDigit (byteZ h))
         end.

(** An escape cannot run across a byte that ends it. *)
Lemma escapeAt_app (b c : byte) (pre t : gostring) :
  endsEscape c ->
  escapeAt ((b :: pre) ++ c :: t) = escapeAt (b :: pre)
  /\ (forall v, escapeAt (b :: pre) = Some v -> (5 <= List.length pre)%nat).
Proof.
  intros [Hu Hhex].
  destruct pre as [|b1 [|h1 [|h2 [|h3 [|h4 p]]]]]; cbn [app].
  6: { split; [reflexivity|]. intros _ _. cbn [List.length]. lia. }
  all: split; [|discriminate].
  all: destruct t as [|t1 [|t2 [|t3 [|t4 t]]]]; try reflexivity.
  all: unfold escapeAt; rewrite ?Hu, ?Hhex, ?andb_false_r; try reflexivity.
  all: destruct (byte_eqb b x5c && byte_eqb b1 "u"); try reflexivity.
  all: break_hex; reflexivity.
Qed.

Lemma unescapeFrom_nil (skip : nat) : unescapeFrom skip [] = [].
Proof. destruct skip; reflexivity. Qed.

Lemma unescapeFrom_app (c : byte) (t : gostring) :
  endsEscape c ->
  forall (pre : gostring) (skip : nat),
    (skip <= List.length pre)%nat ->
    unescapeFrom skip (pre ++ c :: t) = unescapeFrom skip pre ++ unescapeFrom 0 (c :: t).
Proof.
  intros Hc. induction pre as [|b pre IH]; intros skip Hskip.
  - cbn [List.length] in Hskip. replace skip with 0%nat by lia. reflexivity.
  - destruct skip as [|k].
    + destruct (escapeAt_app b c pre t Hc) as [Heq Hlen].
      change (unescapeFrom 0 ((b :: pre) ++ c :: t))
        with (match escapeAt ((b :: pre) ++ c :: t) with
              | Some unicodeValue => EncodeRune unicodeValue ++ unescapeFrom 5 (pre ++ c :: t)
              | None => b :: unescapeFrom 0 (pre ++ c :: t)
              end).
      change (unescapeFrom 0 (b :: pre))
        with (match escapeAt (b :: pre) with
              | Some unicodeValue => EncodeRune unicodeValue ++ unescapeFrom 5 pre
              | None => b :: unescapeFrom 0 pre
              end).
      rewrite Heq. destruct (escapeAt (b :: pre)) as [v|].
      * rewrite IH by (apply (Hlen v); reflexivity). now rewrite app_assoc.
      * rewrite IH by lia. reflexivity.
    + cbn [app unescapeFrom]. apply IH. cbn [List.length] in Hskip. lia.
Qed.

Lemma unescapeFrom_plain_app (p s : gostring) :
  ~ In x5c p -> unescapeFrom 0 (p ++ s) = p ++ unescapeFrom 0 s.
Proof.
  induction p as [|b t IH]; intros Hplain; [reflexivity|].
  cbn [app unescapeFrom]. destruct (escapeAt (b :: t ++ s)) as [v|] eqn:He.
  - apply escapeAt_backslash in He as (t' & Ht). inversion Ht; subst.
    exfalso. apply Hplain. now left.
  - rewrite IH; [reflexivity|]. intros Hin. apply Hplain. now right.
Qed.

(** A string without a backslash is left as it is. *)
Theorem getUnescaped_plain (s : gostring) (Hplain : ~ In x5c s) :
  getUnescaped s = s.
Proof.
  unfold getUnescaped. rewrite <- (app_nil_r s) at 1.
  rewrite unescapeFrom_plain_app by exact Hplain. apply app_nil_r.
Qed.

Lemma getUnescaped_plain_witness :
  getUnescaped "aws%2FCompute%2FEC2.svg" = lit "aws%2FCompute%2FEC2.svg".
Proof.
  apply (getUnescaped_plain "aws%2FCompute%2FEC2.svg").
  vm_compute. intuition discriminate.
Defined.

(** An escape [\uXXXX] becomes the UTF-8 encoding of the code point its four
    hexadecimal digits denote, wherever it stands; what is before and after
    it is unescaped on its own. *)
Theorem getUnescaped_escape (pre post : gostring) (h1 h2 h3 h4 : byte) (d1 d2 d3 d4 : Z)
    (H1 : hexDigit (byteZ h1) = Some d1) (H2 : hexDigit (byteZ h2) = Some d2)
    (H3 : hexDigit (byteZ h3) = Some d3) (H4 : hexDigit (byteZ h4) = Some d4) :
  getUnescaped (pre ++ x5c :: "u"%byte :: h1 :: h2 :: h3 :: h4 :: post)
  = getUnescaped pre
    ++ EncodeRune (((d1 * 16 + d2) * 16 + d3) * 16 + d4)
    ++ getUnescaped post.
Proof.
  unfold getUnescaped.
  rewrite unescapeFrom_app; [|split; reflexivity | lia].
  f_equal. cbn [unescapeFrom]. unfold escapeAt.
  change (byte_eqb x5c x5c && byte_eqb "u" "u") with true.
  cbv iota. rewrite H1, H2, H3, H4. reflexivity.
Qed.

Lemma getUnescaped_escape_witness :
  getUnescaped (lit "a" ++ x5c :: "u"%byte :: "0"%byte :: "0"%byte :: "2"%byte :: "6"%byte
                  :: lit "b")
  = getUnescaped "a" ++ EncodeRune (((0 * 16 + 0) * 16 + 2) * 16 + 6) ++ getUnescaped "b".
Proof.
  apply (getUnescaped_escape "a" "b" "0" "0" "2" "6" 0 0 2 6); reflexivity.
Defined.

(** ** The link of an element *)

Lemma HasPrefix_app (p s : gostring) : HasPrefix (p ++ s) p = true.
Proof.
  induction p as [|b p IH]; [destruct s; reflexivity|].
  cbn [app HasPrefix]. rewrite IH, andb_true_r. now apply byte_eqb_eq.
Qed.

Lemma TrimPrefix_app (p s : gostring) : strings_TrimPrefix (p ++ s) p = s.
Proof.
  unfold strings_TrimPrefix. rewrite HasPrefix_app.
  rewrite skipn_app, skipn_all, Nat.sub_diag. reflexivity.
Qed.

Lemma TrimSuffix_app (s suffix : gostring) : strings_TrimSuffix (s ++ suffix) suffix = s.
Proof.
  unfold strings_TrimSuffix, HasSuffix. rewrite length_app.
  replace (List.length s + List.length suffix - List.length suffix)%nat
    with (List.length s) by lia.
  rewrite skipn_app, skipn_all, Nat.sub_diag. cbn [skipn app].
  rewrite gostring_eqb_refl, andb_true_r.
  replace (List.length suffix <=? List.length s + List.length suffix)%nat with true
    by (symmetry; apply Nat.leb_le; lia).
  rewrite firstn_app, firstn_all, Nat.sub_diag. cbn [firstn]. now rewrite app_nil_r.
Qed.

(** The link of an element whose [onclick] is a call [clickIcon("...")] is
    the unescaped argument of the call. *)
Theorem linkOf_clickIcon (e : Element) (argument : gostring)
    (Hcall : onclick e = lit "clickIcon(" ++ [x22] ++ argument ++ [x22] ++ lit ")") :
  linkOf e = getUnescaped argument.
Proof.
  unfold linkOf. rewrite Hcall.
  assert (Hun : getUnescaped (lit "clickIcon(" ++ [x22] ++ argument ++ [x22] ++ lit ")")
                = (lit "clickIcon(" ++ [x22]) ++ getUnescaped argument ++ [x22] ++ lit ")").
  { unfold getUnescaped.
    replace (lit "clickIcon(" ++ [x22] ++ argument ++ [x22] ++ lit ")")
      with ((lit "clickIcon(" ++ [x22]) ++ (argument ++ x22 :: lit ")"))
      by (now rewrite <- app_assoc).
    rewrite unescapeFrom_plain_app by (vm_compute; intuition discriminate).
    rewrite (unescapeFrom_app x22 (lit ")")); [|split; reflexivity | lia].
    reflexivity. }
  rewrite Hun, TrimPrefix_app, TrimSuffix_app. reflexivity.
Qed.

Lemma linkOf_clickIcon_witness :
  linkOf {| classAttr := "icon";
            onclick := lit "clickIcon(" ++ [x22] ++ lit "aws%2Fec2.svg" ++ [x22] ++ lit ")";
            dataSearch := "ec2" |}
  = getUnescaped "aws%2Fec2.svg".
Proof.
  apply (linkOf_clickIcon _ "aws%2Fec2.svg"). reflexivity.
Defined.

(** ** Scraping *)

Lemma lookup_assign_same {V} (m : list (gostring * V)) (k : gostring) (v : V) :
  lookup (assign m k v) k = Some v.
Proof.
  induction m as [|[k' v'] m IH]; cbn [assign lookup].
  - now rewrite gostring_eqb_refl.
  - destruct (gostring_eqb k' k) eqn:Hk; cbn [lookup]; rewrite Hk; [reflexivity | exact IH].
Qed.

Lemma lookup_assign_other {V} (m : list (gostring * V)) (k c : gostring) (v : V) :
  gostring_eqb k c = false -> lookup (assign m k v) c = lookup m c.
Proof.
  intros Hkc. induction m as [|[k' v'] m IH]; cbn [assign lookup].
  - now rewrite Hkc.
  - destruct (gostring_eqb k' k) eqn:Hk; cbn [lookup].
    + apply gostring_eqb_eq in Hk. subst k'. now rewrite Hkc.
    + now rewrite IH.
Qed.

Lemma ofCategory_snoc (c : gostring) (l : list PendingIcon.t) (p : PendingIcon.t) :
  ofCategory c (l ++ [p])
  = if gostring_eqb (PendingIcon.Category p) c then ofCategory c l ++ [p]
    else ofCategory c l.
Proof.
  unfold ofCategory. rewrite filter_app. cbn [filter].
  destruct (gostring_eqb (PendingIcon.Category p) c); [reflexivity | apply app_nil_r].
Qed.

Section Visit.

Variable T : CaseTables.
Variable TM : TestMode.

(** What the callback does on an element: nothing, or one more icon. *)
Lemma onDiv_cases (st : Scraped) (e : Element) :
  onDiv T TM st e = st
  \/ exists p,
       scrapedIcon T p
       /\ PendingIcon.Title p = dataSearch e
       /\ PendingIcon.Link p = linkOf e
       /\ classAttr e = lit "icon"
       /\ (testingMode TM = true ->
           count (categoryCount st) (PendingIcon.Category p) < testLimit TM)
       /\ onDiv T TM st e
          = {| collected := collected st ++ [p];
               categoryCount :=
                 assign (categoryCount st) (PendingIcon.Category p)
                        (count (categoryCount st) (PendingIcon.Category p) + 1);
               categories := assign (categories st) (PendingIcon.Category p) true |}.
Proof.
  unfold onDiv.
  destruct (gostring_eqb (classAttr e) "icon") eqn:Hclass; [|now left].
  destruct (gostring_eqb (linkOf e) []) eqn:Hempty; cbn [negb andb]; [now left|].
  destruct (strings_Contains (linkOf e) "%") eqn:Hpercent; [|now left].
  destruct (testingMode TM
            && (count (categoryCount st) (strings_ToUpper T (beforePercent (linkOf e)))
                >=? testLimit TM)) eqn:Htest; [now left|].
  right.
  exists (PendingIcon.mk (strings_ToUpper T (beforePercent (linkOf e))) (dataSearch e)
                         (linkOf e) (cleanDisplayName T (dataSearch e))).
  unfold scrapedIcon.
  cbn [PendingIcon.Category PendingIcon.Title PendingIcon.Link PendingIcon.DisplayName].
  split; [|split; [reflexivity|split; [reflexivity|split;
           [now apply gostring_eqb_eq|split; [|reflexivity]]]]].
  - repeat split; try assumption.
    intros Hnil. rewrite Hnil in Hempty. discriminate Hempty.
  - intros Hon. rewrite Hon in Htest. cbn [andb] in Htest. lia.
Qed.

Lemma onDiv_registry (st : Scraped) (e : Element) :
  registry st -> registry (onDiv T TM st e).
Proof.
  intros Hst. destruct (onDiv_cases st e) as [-> | (p & _ & _ & _ & _ & _ & ->)];
    [exact Hst|].
  intros c. destruct (Hst c) as [Hcount Hcat].
  cbn [collected categoryCount categories].
  rewrite ofCategory_snoc, existsb_app. cbn [existsb]. rewrite orb_false_r.
  unfold count in *.
  destruct (gostring_eqb (PendingIcon.Category p) c) eqn:Hc.
  - apply gostring_eqb_eq in Hc. subst c.
    rewrite !lookup_assign_same, orb_true_r, length_app. cbn [List.length].
    split; [lia | reflexivity].
  - rewrite !lookup_assign_other by exact Hc. rewrite orb_false_r.
    split; assumption.
Qed.

Lemma onDiv_limit (st : Scraped) (e : Element) (c : gostring) :
  testingMode TM = true ->
  registry st ->
  count (categoryCount st) c <= Z.max 0 (testLimit TM) ->
  count (categoryCount (onDiv T TM st e)) c <= Z.max 0 (testLimit TM).
Proof.
  intros Hon Hreg Hst.
  destruct (onDiv_cases st e) as [-> | (p & _ & _ & _ & _ & Hlt & ->)];
    [exact Hst|].
  specialize (Hlt Hon). cbn [categoryCount]. unfold count in *.
  destruct (gostring_eqb (PendingIcon.Category p) c) eqn:Hc.
  - apply gostring_eqb_eq in Hc. subst c. rewrite lookup_assign_same. lia.
  - now rewrite lookup_assign_other.
Qed.

Lemma registry_scraped0 : registry scraped0.
Proof. intros c. split; reflexivity. Qed.

Lemma visit_snoc (st : Scraped) (page : list Element) (e : Element) :
  visit T TM st (page ++ [e]) = onDiv T TM (visit T TM st page) e.
Proof. unfold visit. now rewrite fold_left_app. Qed.

Lemma visit_registry_from (st : Scraped) (page : list Element) :
  registry st -> registry (visit T TM st page).
Proof.
  induction page as [|e page IH] using rev_ind; intros Hst; [exact Hst|].
  rewrite visit_snoc. apply onDiv_registry. now apply IH.
Qed.

Lemma onDiv_skips (st : Scraped) (e : Element) :
  iconLink e = false -> onDiv T TM st e = st.
Proof.
  unfold iconLink, onDiv. intros Hskip.
  destruct (gostring_eqb (classAttr e) "icon"); [|reflexivity].
  cbn [andb] in Hskip. now rewrite Hskip.
Qed.

Lemma visit_skips (page : list Element) :
  forall st, visit T TM st page = visit T TM st (filter iconLink page).
Proof.
  unfold visit. induction page as [|e page IH]; intros st; [reflexivity|].
  cbn [filter fold_left]. destruct (iconLink e) eqn:He.
  - cbn [fold_left]. apply IH.
  - rewrite (onDiv_skips st e He). apply IH.
Qed.

(** Every icon the visit collects comes from an element of class [icon] of
    the page and is well formed: its title is the [data-search] attribute
    and its link the link of that element, the link is not empty and has a
    percent sign, its category is the upper-cased part of the link before
    the first percent sign, and its display name is the cleaned title.  The
    other elements add nothing: the callback leaves everything as it is on
    an element that is not of class [icon] or whose link is empty or has no
    percent sign, and the visit of the page is the visit of the page
    without these elements. *)
Theorem visit_well_formed (page : list Element) :
  Forall (fun p =>
            scrapedIcon T p
            /\ exists e,
                 In e page /\ classAttr e = lit "icon"
                 /\ PendingIcon.Link p = linkOf e
                 /\ PendingIcon.Title p = dataSearch e)
         (collected (visit T TM scraped0 page))
  /\ (forall st e,
        classAttr e <> lit "icon" \/ linkOf e = []
        \/ strings_Contains (linkOf e) "%" = false ->
        onDiv T TM st e = st)
  /\ visit T TM scraped0 page = visit T TM scraped0 (filter iconLink page).
Proof.
  split; [|split].
  - induction page as [|e page IH] using rev_ind; [constructor|].
    rewrite visit_snoc.
    assert (Hold : Forall (fun p =>
              scrapedIcon T p
              /\ exists e0,
                   In e0 (page ++ [e]) /\ classAttr e0 = lit "icon"
                   /\ PendingIcon.Link p = linkOf e0
                   /\ PendingIcon.Title p = dataSearch e0)
              (collected (visit T TM scraped0 page))).
    { apply (Forall_impl _ (P := fun p =>
              scrapedIcon T p
              /\ exists e0,
                   In e0 page /\ classAttr e0 = lit "icon"
                   /\ PendingIcon.Link p = linkOf e0
                   /\ PendingIcon.Title p = dataSearch e0)); [|exact IH].
      intros p (Hp & e0 & Hin & Hrest). split; [exact Hp|].
      exists e0. split; [apply in_or_app; now left | exact Hrest]. }
    destruct (onDiv_cases (visit T TM scraped0 page) e)
      as [-> | (p & Hp & Htitle & Hlink & Hclass & _ & ->)]; [exact Hold|].
    cbn [collected]. apply Forall_app. split; [exact Hold|].
    constructor; [|constructor]. split; [exact Hp|].
    exists e. split; [apply in_or_app; right; now left|]. auto.
  - intros st e Hskip. apply onDiv_skips. unfold iconLink.
    destruct Hskip as [Hclass | [Hlink | Hpercent]].
    + now rewrite (gostring_eqb_neq _ _ Hclass).
    + rewrite Hlink. cbn [gostring_eqb negb]. now rewrite andb_false_r.
    + rewrite Hpercent. apply andb_false_r.
  - apply visit_skips.
Qed.

(** After the visit the counter of a category is the number of collected
    icons of that category, and the categories registered (for which an
    output directory is made) are exactly the categories of the collected
    icons. *)
Theorem visit_registry (page : list Element) (c : gostring) :
  count (categoryCount (visit T TM scraped0 page)) c
  = Z.of_nat (List.length (ofCategory c (collected (visit T TM scraped0 page))))
  /\ lookup (categories (visit T TM scraped0 page)) c
     = if existsb (fun p => gostring_eqb (PendingIcon.Category p) c)
                  (collected (visit T TM scraped0 page))
       then Some true else None.
Proof. apply visit_registry_from, registry_scraped0. Qed.

(** In test mode the visit collects at most [testLimit] icons of each
    category. *)
Theorem visit_test_limit (page : list Element) (c : gostring)
    (Hon : testingMode TM = true) :
  Z.of_nat (List.length (ofCategory c (collected (visit T TM scraped0 page))))
  <= Z.max 0 (testLimit TM).
Proof.
  destruct (visit_registry_from scraped0 page registry_scraped0 c) as [<- _].
  induction page as [|e page IH] using rev_ind; [cbn; lia|].
  rewrite visit_snoc. apply onDiv_limit; [exact Hon | | exact IH].
  apply visit_registry_from, registry_scraped0.
Qed.

End Visit.

(** With test mode off (as the source has it) the visit collects, in
    document order, one icon for each element of class [icon] whose link is
    not empty and has a percent sign, and nothing else. *)
Theorem visit_collects (E : Env) (TM : TestMode) (page : list Element)
    (Hoff : testingMode TM = false) :
  collected (visit (tables E) TM scraped0 page)
  = flat_map (fun e =>
                if gostring_eqb (classAttr e) "icon" then
                  match collectIcon E (linkOf e) (dataSearch e) with
                  | Some p => [p]
                  | None => []
                  end
                else []) page.
Proof.
  induction page as [|e page IH] using rev_ind; [reflexivity|].
  rewrite visit_snoc, flat_map_app, <- IH. cbn [flat_map]. rewrite app_nil_r.
  unfold onDiv, collectIcon. rewrite Hoff. cbn [andb].
  destruct (gostring_eqb (classAttr e) "icon"); [|now rewrite app_nil_r].
  destruct (negb (gostring_eqb (linkOf e) []) && strings_Contains (linkOf e) "%");
    [reflexivity | now rewrite app_nil_r].
Qed.

Lemma visit_test_limit_witness :
  Z.of_nat (List.length
              (ofCategory "AWS"
                 (collected (visit latin1 {| testingMode := true; testLimit := 1 |}
                                   scraped0 samplePage))))
  <= Z.max 0 1.
Proof.
  apply (visit_test_limit latin1 {| testingMode := true; testLimit := 1 |}
           samplePage "AWS").
  reflexivity.
Defined.

Lemma visit_collects_witness :
  collected (visit (tables offline) testMode scraped0 samplePage)
  = flat_map (fun e =>
                if gostring_eqb (classAttr e) "icon" then
                  match collectIcon offline (linkOf e) (dataSearch e) with
                  | Some p => [p]
                  | None => []
                  end
                else []) samplePage.
Proof.
  apply (visit_collects offline testMode samplePage). reflexivity.
Defined.

(** ** The provider tables *)

(** [getProviderKey] undoes [getFullProviderName] on the providers of the
    table: the key of the full name is the lower-cased code, the name of the
    directory made for the category. *)
Theorem getProviderKey_getFullProviderName (E : Env) (provider code fullName : gostring)
    (Hcode : strings_ToUpper (tables E) provider = code)
    (Hlisted : In (code, fullName) providerMap) :
  getFullProviderName E provider = fullName
  /\ getProviderKey (tables E) fullName = strings_ToLower (tables E) code.
Proof.
  unfold getFullProviderName. rewrite Hcode. clear Hcode.
  unfold providerMap in Hlisted. cbn [In] in Hlisted.
  repeat (destruct Hlisted as [Heq | Hlisted];
          [inversion Heq; subst; split; reflexivity|]).
  contradiction.
Qed.

Lemma getProviderKey_getFullProviderName_witness :
  getFullProviderName offline "aws" = lit "Amazon Web Services"
  /\ getProviderKey (tables offline) "Amazon Web Services"
     = strings_ToLower (tables offline) "AWS".
Proof.
  apply (getProviderKey_getFullProviderName offline "aws" "AWS" "Amazon Web Services").
  - reflexivity.
  - left. reflexivity.
Defined.

(** ** Substrings *)

Lemma HasPrefix_spec (s p : gostring) :
  HasPrefix s p = true <-> exists post, s = p ++ post.
Proof.
  split.
  - revert s. induction p as [|b p IH]; intros s H.
    + now exists s.
    + destruct s as [|c s]; [discriminate|]. cbn [HasPrefix] in H.
      apply andb_true_iff in H as [Hb Hp]. apply byte_eqb_eq in Hb. subst c.
      destruct (IH s Hp) as (post & ->). now exists post.
  - intros (post & ->). apply HasPrefix_app.
Qed.

Lemma Contains_spec (s substr : gostring) :
  strings_Contains s substr = true <-> exists pre post, s = pre ++ substr ++ post.
Proof.
  split.
  - induction s as [|b t IH]; cbn [strings_Contains]; intros H.
    + rewrite orb_false_r in H. apply HasPrefix_spec in H as (post & H).
      now exists [], post.
    + apply orb_true_iff in H as [H | H].
      * apply HasPrefix_spec in H as (post & H). now exists [], post.
      * destruct (IH H) as (pre & post & ->). now exists (b :: pre), post.
  - intros (pre & post & ->). induction pre as [|b pre IH].
    + cbn [app]. destruct (substr ++ post) eqn:Heq; cbn [strings_Contains];
        rewrite <- ?Heq, HasPrefix_app; reflexivity.
    + cbn [app strings_Contains]. rewrite IH. apply orb_true_r.
Qed.

(** ** calculatePopularity, by substrings *)

(** [calculatePopularity] is 1 when the lower-cased title has the name of a
    popular service somewhere inside it, and 1/2 when it has none, in
    whatever order the map of popular services is visited. *)
Theorem calculatePopularity_substring (E : Env) (order : list gostring) (title : gostring)
    (Hperm : Permutation popularServices order) :
  (calculatePopularityIn E order title = 1%Q
   /\ exists service pre post,
        In service popularServices
        /\ strings_ToLower (tables E) title = pre ++ service ++ post)
  \/ (calculatePopularityIn E order title = (1 # 2)%Q
      /\ forall service pre post,
           In service popularServices ->
           strings_ToLower (tables E) title <> pre ++ service ++ post).
Proof.
  rewrite (calculatePopularity_order E order title Hperm).
  unfold calculatePopularity, calculatePopularityIn.
  destruct (existsb _ popularServices) eqn:Hex.
  - left. split; [reflexivity|].
    apply existsb_exists in Hex as (service & Hin & Hc).
    apply Contains_spec in Hc as (pre & post & Heq). now exists service, pre, post.
  - right. split; [reflexivity|]. intros service pre post Hin Heq.
    assert (Htrue : existsb (fun service =>
                      strings_Contains (strings_ToLower (tables E) title) service)
                    popularServices = true).
    { apply existsb_exists. exists service. split; [exact Hin|].
      apply Contains_spec. now exists pre, post. }
    rewrite Htrue in Hex. discriminate Hex.
Qed.

Lemma calculatePopularity_substring_witness :
  (calculatePopularityIn offline (rev popularServices) "My EC2 Instance" = 1%Q
   /\ exists service pre post,
        In service popularServices
        /\ strings_ToLower (tables offline) "My EC2 Instance" = pre ++ service ++ post)
  \/ (calculatePopularityIn offline (rev popularServices) "My EC2 Instance" = (1 # 2)%Q
      /\ forall service pre post,
           In service popularServices ->
           strings_ToLower (tables offline) "My EC2 Instance" <> pre ++ service ++ post).
Proof.
  apply (calculatePopularity_substring offline (rev popularServices) "My EC2 Instance").
  apply Permutation_rev.
Defined.

(** ** Slugs of clean titles *)

Lemma clean_isASCII (s : gostring) : Forall lowerDigitHyphen s -> isASCII s = true.
Proof.
  intros H. unfold isASCII. apply forallb_forall. intros b Hb.
  rewrite Forall_forall in H. specialize (H b Hb).
  unfold lowerDigitHyphen in H. unfold RuneSelf. lia.
Qed.

Lemma clean_no_upper (s : gostring) :
  Forall lowerDigitHyphen s -> existsb isUpperByte s = false.
Proof.
  induction 1 as [|b s Hb _ IH]; [reflexivity|].
  cbn [existsb]. rewrite IH, orb_false_r.
  unfold lowerDigitHyphen in Hb. unfold isUpperByte. lia.
Qed.

Lemma clean_hyphenate (s : gostring) :
  Forall lowerDigitHyphen s -> map hyphenate s = s.
Proof.
  induction 1 as [|b s Hb _ IH]; [reflexivity|].
  cbn [map]. rewrite IH. f_equal. unfold hyphenate.
  destruct (byte_eqb " " b) eqn:Hsp; [|reflexivity].
  apply byte_eqb_eq in Hsp. subst b. unfold lowerDigitHyphen in Hb.
  change (byteZ " ") with 32 in Hb. lia.
Qed.

Lemma clean_filter (s : gostring) :
  Forall lowerDigitHyphen s -> filter slugByte s = s.
Proof.
  induction 1 as [|b s Hb _ IH]; [reflexivity|].
  cbn [filter]. apply slugByte_spec in Hb. now rewrite Hb, IH.
Qed.

(** A title that consists of lowercase ASCII letters, digits and hyphens
    goes into the slug unchanged. *)
Theorem generateSlug_clean_title (T : CaseTables) (provider title : gostring)
    (Hclean : Forall lowerDigitHyphen title) :
  generateSlug T provider title = strings_ToLower T provider ++ lit "-" ++ title.
Proof.
  change (generateSlug T provider title)
    with (strings_ToLower T provider ++ lit "-" ++ sanitize T title).
  rewrite sanitize_filter, (clean_hyphenate title Hclean).
  unfold strings_ToLower at 2.
  rewrite (clean_isASCII title Hclean), (clean_no_upper title Hclean).
  now rewrite (clean_filter title Hclean).
Qed.

Lemma generateSlug_clean_title_witness :
  generateSlug latin1 "AWS" "ec2-instance"
  = strings_ToLower latin1 "AWS" ++ lit "-" ++ lit "ec2-instance".
Proof.
  apply (generateSlug_clean_title latin1 "AWS" "ec2-instance").
  repeat constructor; vm_compute; intuition discriminate.
Defined.

(** Sanitizing is idempotent: the title part of a slug, used as a title,
    gives the same slug again. *)
Theorem generateSlug_idempotent (T : CaseTables) (provider title : gostring) :
  exists rest,
    generateSlug T provider title = strings_ToLower T provider ++ lit "-" ++ rest
    /\ generateSlug T provider rest = generateSlug T provider title.
Proof.
  exists (sanitize T title). split; [reflexivity|].
  change (generateSlug T provider (sanitize T title))
    with (strings_ToLower T provider ++ lit "-" ++ sanitize T (sanitize T title)).
  change (generateSlug T provider title)
    with (strings_ToLower T provider ++ lit "-" ++ sanitize T title).
  do 2 f_equal.
  pose proof (sanitize_clean T title) as Hclean.
  rewrite (sanitize_filter T (sanitize T title)), (clean_hyphenate _ Hclean).
  unfold strings_ToLower at 1.
  rewrite (clean_isASCII _ Hclean), (clean_no_upper _ Hclean).
  apply (clean_filter _ Hclean).
Qed.

(** ** The single request of getLLMEnrichment *)

Section Classify.

Variable E : Env.

(** When the classify request fails, [getLLMEnrichment] returns the zero
    value and has sent that one request: nothing is retried. *)
Theorem getLLMEnrichment_failure (provider title displayName : gostring)
    (req : Request) (w : World)
    (Hreq : NewRequest E "POST" llmServiceURL (classifyBody E provider title displayName)
            = Some req)
    (Hfail : classifyFailure E (http_Do E (sent w) req)) :
  getLLMEnrichment E provider title displayName w
  = Done LLMEnrichmentResponse.zero (sending w [req]).
Proof.
  unfold getLLMEnrichment. unfold classifyBody in Hreq. rewrite Hreq.
  unfold bind. rewrite Do_sends.
  destruct (http_Do E (sent w) req) as [|code body]; [reflexivity|].
  destruct Hfail as [Hcode | Hdecode].
  - apply Z.eqb_neq in Hcode. rewrite Hcode. reflexivity.
  - destruct (negb (code =? StatusOK)); [reflexivity|]. rewrite Hdecode. reflexivity.
Qed.

End Classify.

Lemma getLLMEnrichment_failure_witness :
  getLLMEnrichment offline "AWS" "ec2_instance" "Ec2 Instance" world0
  = Done LLMEnrichmentResponse.zero
         (sending world0
            [{| Method := "POST"; ReqURL := llmServiceURL;
                Body := classifyBody offline "AWS" "ec2_instance" "Ec2 Instance" |}]).
Proof.
  apply (getLLMEnrichment_failure offline "AWS" "ec2_instance" "Ec2 Instance").
  - reflexivity.
  - vm_compute. exact I.
Defined.

Lemma cleanDisplayName_ascii_witness :
  cleanDisplayName latin1 "  ec2_instance-v2 " = cleanDisplayName_spec latin1 "  ec2_instance-v2 ".
Proof.
  apply (cleanDisplayName_ascii latin1 "  ec2_instance-v2 "). reflexivity.
Defined.

(** ** arrayToJSON on arbitrary strings *)

Lemma jrun_rune_any (s : gostring) (r : rune) (w : nat) :
  decoded s r w ->
  forall cur acc,
    jrun (inString cur acc) (appendRune (r, firstn w s))
    = Some (inString
              (cur ++ (if (r =? RuneError) && (List.length (firstn w s) =? 1)%nat
                       then [xef; xbf; xbd] else firstn w s)) acc).
Proof.
  intros Hd cur acc.
  destruct ((r =? RuneError) && (List.length (firstn w s) =? 1)%nat) eqn:Hinv.
  - apply andb_true_iff in Hinv as [Hr Hlen].
    apply Z.eqb_eq in Hr. subst r. unfold appendRune.
    change (RuneError <? RuneSelf) with false. cbv iota.
    rewrite Hlen. change (RuneError =? RuneError) with true. cbn [andb].
    reflexivity.
  - apply jrun_rune; [exact Hd | now rewrite Hinv].
Qed.

Lemma jrun_string_any (v : gostring) :
  forall cur acc,
    jrun (inString cur acc) (flat_map appendRune (range v))
    = Some (inString (cur ++ replaceInvalid v) acc).
Proof.
  unfold replaceInvalid.
  induction v as [|b t r w Hd Hr IH] using range_ind; intros cur acc.
  - cbn. now rewrite app_nil_r.
  - rewrite Hr. cbn [flat_map fst snd]. rewrite jrun_app.
    rewrite (jrun_rune_any _ _ _ Hd), IH, <- app_assoc. reflexivity.
Qed.

Lemma jrun_quoted_any (m : jmode) (v : gostring) (acc : list gostring) :
  m = JFirst \/ m = JValue ->
  jrun (between m acc) (appendString v)
  = Some (between JAfter (acc ++ [replaceInvalid v])).
Proof.
  intros Hm. unfold appendString.
  assert (Hopen : jstep (between m acc) x22 = Some (inString [] acc))
    by (destruct Hm; subst m; reflexivity).
  cbn [app jrun]. rewrite Hopen, jrun_app, (jrun_string_any v). reflexivity.
Qed.

Lemma jrun_elems_any (arr : list gostring) :
  arr <> [] ->
  forall m acc,
    m = JFirst \/ m = JValue ->
    jrun (between m acc) (appendElems arr ++ lit "]")
    = Some (between JEnd (acc ++ map replaceInvalid arr)).
Proof.
  induction arr as [|v rest IH]; intros Hne m acc Hm; [contradiction|].
  destruct rest as [|v' rest'].
  - cbn [appendElems]. rewrite jrun_app, (jrun_quoted_any m v acc Hm). reflexivity.
  - change (appendElems (v :: v' :: rest'))
      with (appendString v ++ lit "," ++ appendElems (v' :: rest')).
    rewrite <- !app_assoc, jrun_app, (jrun_quoted_any m v acc Hm).
    change (lit "," ++ appendElems (v' :: rest') ++ lit "]")
      with (x2c :: (appendElems (v' :: rest') ++ lit "]")).
    cbn [jrun]. change (jstep (between JAfter (acc ++ [v])) x2c)
      with (Some (between JValue (acc ++ [v]))).
    change (jstep (between JAfter (acc ++ [replaceInvalid v])) x2c)
      with (Some (between JValue (acc ++ [replaceInvalid v]))).
    cbv iota. rewrite IH by (auto; discriminate).
    cbn [map]. now rewrite <- app_assoc.
Qed.

(** Whatever the strings are, the text [arrayToJSON] returns is a JSON
    array that decodes: to the list itself, except that every byte outside a
    well-formed UTF-8 sequence comes back as U+FFFD. *)
Theorem arrayToJSON_reads_back (arr : list gostring) :
  json_DecodeStrings (arrayToJSON arr) = Some (map replaceInvalid arr).
Proof.
  destruct arr as [|v rest]; [reflexivity|].
  unfold arrayToJSON. cbn [List.length Nat.eqb]. unfold json_MarshalStrings.
  unfold json_DecodeStrings.
  change (lit "[" ++ appendElems (v :: rest) ++ lit "]")
    with (x5b :: (appendElems (v :: rest) ++ lit "]")).
  cbn [jrun]. change (jstep jinit x5b) with (Some (between JFirst [])).
  cbv iota. rewrite (jrun_elems_any (v :: rest)) by (auto; discriminate).
  reflexivity.
Qed.

(** ** The requests of the individual mode *)

Lemma filter_isPost_search (reqs : list Request) :
  Forall isSearch reqs -> filter isPost reqs = [].
Proof.
  intros Hs. apply filter_none. intros req Hin.
  rewrite Forall_forall in Hs. destruct (Hs req Hin) as (Hget & _).
  unfold isPost. rewrite Hget. reflexivity.
Qed.

Lemma filter_notPost_search (reqs : list Request) :
  Forall isSearch reqs -> filter (fun req => negb (isPost req)) reqs = reqs.
Proof.
  induction 1 as [|req reqs (Hget & _) _ IH]; [reflexivity|].
  cbn [filter]. unfold isPost at 1. rewrite Hget, IH. reflexivity.
Qed.

Section Individual.

Variable E : Env.
Variable C : Config.

Lemma getLLMEnrichment_sends (p : PendingIcon.t) (w : World) :
  validRequest E "POST" llmServiceURL = true ->
  exists e,
    getLLMEnrichment E (PendingIcon.Category p) (PendingIcon.Title p)
      (PendingIcon.DisplayName p) w
    = Done e (sending w [classifyRequest E p]).
Proof.
  intros Hvalid. unfold getLLMEnrichment, NewRequest. rewrite Hvalid.
  unfold bind. rewrite Do_sends.
  change {| Method := "POST"; ReqURL := llmServiceURL;
            Body := match json_MarshalClassify E (PendingIcon.Category p)
                            (PendingIcon.Title p) (PendingIcon.DisplayName p) with
                    | Some d => d
                    | None => []
                    end |}
    with (classifyRequest E p).
  destruct (http_Do E (sent w) (classifyRequest E p)) as [|code body];
    [eexists; reflexivity|].
  destruct (negb (code =? StatusOK)); [eexists; reflexivity|].
  destruct (json_DecodeEnrichment E body); eexists; reflexivity.
Qed.

Lemma eachLoop_on_requests (timestamp : gostring) :
  useLLMEnrichment C = true ->
  validRequest E "POST" llmServiceURL = true ->
  forall (pending : list PendingIcon.t) (acc : Icons) (w : World),
    llmServiceAvailable w = true ->
    exists acc' w' reqs,
      eachLoop E C timestamp pending acc w = Done acc' w'
      /\ sent w' = sent w ++ reqs
      /\ filter isPost reqs = map (classifyRequest E) pending
      /\ Forall isSearch (filter (fun req => negb (isPost req)) reqs).
Proof.
  intros Hllm Hvalid. induction pending as [|p rest IH]; intros acc w Hup.
  - exists acc, w, []. rewrite app_nil_r. repeat split; try reflexivity. constructor.
  - cbn [eachLoop]. unfold bind at 1. unfold getAvailable at 1. unfold bind at 1.
    rewrite Hllm, Hup. cbn [andb].
    destruct (getLLMEnrichment_sends p w Hvalid) as (e & He). rewrite He.
    unfold bind at 1.
    destruct (createIconPayload_search E p e timestamp (sending w [classifyRequest E p]))
      as (iconifyID & reqs & Hc & Hs & _ & _).
    unfold create in Hc. rewrite Hc.
    destruct (IH (addIcon acc (payload E p e timestamp
                                 (uuid_New E (drawn (sending w [classifyRequest E p])))
                                 iconifyID))
                 (drawing (sending (sending w [classifyRequest E p]) reqs)) Hup)
      as (acc' & w' & reqs' & Hloop & Hsent & Hposts & Hothers).
    exists acc', w', ([classifyRequest E p] ++ reqs ++ reqs').
    split; [exact Hloop|]. split; [|split].
    + rewrite Hsent. cbn [drawing sending sent]. now rewrite <- !app_assoc.
    + rewrite !filter_app, (filter_isPost_search reqs Hs), Hposts. reflexivity.
    + rewrite !filter_app, (filter_notPost_search reqs Hs).
      change (filter (fun req => negb (isPost req)) [classifyRequest E p])
        with (@nil Request).
      cbn [app]. apply Forall_app. split; [exact Hs | exact Hothers].
Qed.

(** In the individual mode, with the service available, the loop of
    [Generate] posts exactly one classify request per pending icon, in the
    order of the icons, each to [llmServiceURL] with the marshalled
    provider, title and display name of its icon; every other request of
    the loop is a [GET] to the icon search. *)
Theorem Generate_individual_requests (pending : list PendingIcon.t) (w : World)
    (Hllm : useLLMEnrichment C = true)
    (Heach : useBatchProcessing C = false)
    (Hup : llmServiceAvailable (checked E C w) = true)
    (Hvalid : validRequest E "POST" llmServiceURL = true) :
  exists acc w' reqs,
    Generate E C pending w = Done acc w'
    /\ sent w' = sent (checked E C w) ++ reqs
    /\ filter isPost reqs = map (classifyRequest E) pending
    /\ Forall isSearch (filter (fun req => negb (isPost req)) reqs).
Proof.
  rewrite Generate_loop, Heach, andb_false_r.
  now apply eachLoop_on_requests.
Qed.

End Individual.

Lemma Generate_individual_requests_witness :
  exists acc w' reqs,
    Generate online {| useLLMEnrichment := true; useBatchProcessing := false;
                       batchSize := 5 |} [ec2; s3] world0 = Done acc w'
    /\ sent w' = sent (checked online {| useLLMEnrichment := true;
                                         useBatchProcessing := false;
                                         batchSize := 5 |} world0) ++ reqs
    /\ filter isPost reqs = map (classifyRequest online) [ec2; s3]
    /\ Forall isSearch (filter (fun req => negb (isPost req)) reqs).
Proof.
  apply (Generate_individual_requests online
           {| useLLMEnrichment := true; useBatchProcessing := false; batchSize := 5 |}
           [ec2; s3] world0); reflexivity.
Defined.

(** ** The requests of the batch mode *)

Section BatchRequests.

Variable E : Env.
Variable C : Config.

(** When the request can be serialized and built, [batchEnrichIcons] sends
    it, whatever the answer is. *)
Lemma batchEnrichIcons_sends (chunk : list PendingIcon.t) (w : World) :
  (forall input, json_MarshalBatch E input <> None) ->
  validRequest E "POST" llmBatchURL = true ->
  exists enrichments,
    batchEnrichIcons E chunk w = Done enrichments (sending w [batchRequest E chunk]).
Proof.
  intros Hmarshal Hvalid.
  unfold batchEnrichIcons, batchRequest, batchInputOf.
  destruct (json_MarshalBatch E _) as [jsonData|] eqn:Hm;
    [|exfalso; exact (Hmarshal _ Hm)].
  unfold NewRequest. rewrite Hvalid. unfold bind. rewrite Do_sends.
  destruct (http_Do E (sent w) _) as [|code body]; [eexists; reflexivity|].
  destruct (negb (code =? StatusOK)); [eexists; reflexivity|].
  destruct (json_DecodeBatch E body); eexists; reflexivity.
Qed.

(** The assembly of a batch sends searches only. *)
Lemma assembleBatch_search (timestamp : gostring)
      (enrichments : list LLMEnrichmentResponse.t) (batch : list PendingIcon.t) :
  forall (j : nat) (acc : Icons) (w : World),
  exists acc' w' reqs,
    assembleBatch E timestamp enrichments j batch acc w = Done acc' w'
    /\ sent w' = sent w ++ reqs
    /\ Forall isSearch reqs.
Proof.
  induction batch as [|p rest IH]; intros j acc w.
  - exists acc, w, []. rewrite app_nil_r. repeat split. constructor.
  - cbn [assembleBatch]. unfold bind at 1. rewrite guarded_index.
    unfold bind at 1.
    destruct (createIconPayload_search E p (enrichmentAt enrichments j) timestamp w)
      as (iconifyID & reqs & Hc & Hs & _ & _).
    unfold create in Hc. rewrite Hc.
    destruct (IH (S j)
                 (addIcon acc (payload E p (enrichmentAt enrichments j) timestamp
                                 (uuid_New E (drawn w)) iconifyID))
                 (drawing (sending w reqs)))
      as (acc' & w' & reqs' & Hrest & Hsent & Hs').
    exists acc', w', (reqs ++ reqs').
    split; [exact Hrest|]. split.
    + rewrite Hsent. cbn [drawing sending sent]. now rewrite app_assoc.
    + now apply Forall_app.
Qed.

Lemma perChunk_requests (timestamp : gostring) :
  (forall input, json_MarshalBatch E input <> None) ->
  validRequest E "POST" llmBatchURL = true ->
  forall (chunks : list (list PendingIcon.t)) (acc : Icons) (w : World),
  exists acc' w' reqs,
    perChunk E timestamp chunks acc w = Done acc' w'
    /\ sent w' = sent w ++ reqs
    /\ filter isPost reqs = map (batchRequest E) chunks
    /\ Forall isSearch (filter (fun req => negb (isPost req)) reqs).
Proof.
  intros Hmarshal Hvalid.
  induction chunks as [|chunk rest IH]; intros acc w.
  - exists acc, w, []. rewrite app_nil_r. repeat split. constructor.
  - cbn [perChunk]. unfold bind at 1.
    destruct (batchEnrichIcons_sends chunk w Hmarshal Hvalid) as (enrichments & Hen).
    rewrite Hen.
    unfold bind at 1.
    destruct (assembleBatch_search timestamp enrichments chunk 0 acc
                (sending w [batchRequest E chunk]))
      as (acc1 & w1 & reqs & Has & Hsent1 & Hs).
    rewrite Has.
    destruct (IH acc1 w1) as (acc' & w' & reqs' & Hrest & Hsent & Hposts & Hothers).
    exists acc', w', ([batchRequest E chunk] ++ reqs ++ reqs').
    split; [exact Hrest|]. split; [|split].
    + rewrite Hsent, Hsent1. cbn [sending sent]. now rewrite <- !app_assoc.
    + rewrite !filter_app, (filter_isPost_search reqs Hs), Hposts. reflexivity.
    + rewrite !filter_app, (filter_notPost_search reqs Hs).
      change (filter (fun req => negb (isPost req)) [batchRequest E chunk])
        with (@nil Request).
      cbn [app]. apply Forall_app. split; [exact Hs | exact Hothers].
Qed.

(** C4.  In batch mode, with a positive batch size [B] (5 in the source)
    and batch requests that can be serialized and built, [Generate] posts
    exactly ceil(N/B) batch requests: the k-th goes to [llmBatchURL] and
    carries the provider, title and display name of the icons of the slice
    [pendingIcons[kB : kB+B]], in order; every other request of the loop is
    a search.  The slices are contiguous and do not overlap, their
    concatenation is the input, each has [B] icons except the last, which
    has between 1 and [B]. *)
Theorem Generate_batches (pendingIcons : list PendingIcon.t) (w w1 : World) (B : nat)
    (Hllm : useLLMEnrichment C = true)
    (Hbatch : useBatchProcessing C = true)
    (HB : (0 < B)%nat)
    (Hsize : batchSize C = Z.of_nat B)
    (Hhealth : checkLLMService E w = Done true w1)
    (Hmarshal : forall input, json_MarshalBatch E input <> None)
    (Hvalid : validRequest E "POST" llmBatchURL = true) :
  exists acc w' reqs,
    Generate E C pendingIcons w = Done acc w'
    /\ Generate E C pendingIcons w
       = perChunk E (time_Now E) (batches B pendingIcons) ([], []) (setting w1 true)
    /\ sent w' = sent w1 ++ reqs
    /\ filter isPost reqs = map (batchRequest E) (batches B pendingIcons)
    /\ List.length (filter isPost reqs) = ceilDiv (List.length pendingIcons) B
    /\ Forall isSearch (filter (fun req => negb (isPost req)) reqs)
    /\ List.length (batches B pendingIcons) = ceilDiv (List.length pendingIcons) B
    /\ List.concat (batches B pendingIcons) = pendingIcons
    /\ (forall k, (k < List.length (batches B pendingIcons))%nat ->
          nth k (batches B pendingIcons) [] = firstn B (skipn (k * B) pendingIcons))
    /\ (forall k, (S k < List.length (batches B pendingIcons))%nat ->
          List.length (nth k (batches B pendingIcons) []) = B)
    /\ (forall k, S k = List.length (batches B pendingIcons) ->
          (1 <= List.length (nth k (batches B pendingIcons) []) <= B)%nat).
Proof.
  destruct (Generate_slices E C pendingIcons w w1 B Hllm Hbatch HB Hsize Hhealth)
    as (Hgen & Hlen & Hconcat & Hnth & Hfull & Hlast).
  destruct (perChunk_requests (time_Now E) Hmarshal Hvalid
              (batches B pendingIcons) ([], []) (setting w1 true))
    as (acc & w' & reqs & Hrun & Hsent & Hposts & Hothers).
  exists acc, w', reqs.
  split; [now rewrite Hgen|]. split; [exact Hgen|]. split; [exact Hsent|].
  split; [exact Hposts|]. split; [now rewrite Hposts, length_map|].
  split; [exact Hothers|]. repeat split; auto; now apply Hlast.
Qed.

End BatchRequests.

Lemma Generate_batches_witness :
  exists w1 acc w' reqs,
    Generate online batchConfig sevenIcons world0 = Done acc w'
    /\ Generate online batchConfig sevenIcons world0
       = perChunk online (time_Now online) (batches 5 sevenIcons) ([], [])
           (setting w1 true)
    /\ sent w' = sent w1 ++ reqs
    /\ filter isPost reqs = map (batchRequest online) (batches 5 sevenIcons)
    /\ List.length (filter isPost reqs) = ceilDiv (List.length sevenIcons) 5
    /\ Forall isSearch (filter (fun req => negb (isPost req)) reqs)
    /\ List.length (batches 5 sevenIcons) = ceilDiv (List.length sevenIcons) 5
    /\ List.concat (batches 5 sevenIcons) = sevenIcons
    /\ (forall k, (k < List.length (batches 5 sevenIcons))%nat ->
          nth k (batches 5 sevenIcons) [] = firstn 5 (skipn (k * 5) sevenIcons))
    /\ (forall k, (S k < List.length (batches 5 sevenIcons))%nat ->
          List.length (nth k (batches 5 sevenIcons) []) = 5%nat)
    /\ (forall k, S k = List.length (batches 5 sevenIcons) ->
          (1 <= List.length (nth k (batches 5 sevenIcons) []) <= 5)%nat).
Proof.
  eexists.
  apply (Generate_batches online batchConfig sevenIcons world0 _ 5).
  - reflexivity.
  - reflexivity.
  - lia.
  - reflexivity.
  - vm_compute. reflexivity.
  - intros input. discriminate.
  - reflexivity.
Defined.

(** ** The display names of ASCII titles *)

Lemma plainByte_ascii (b : byte) : plainByte b = true -> (byteZ b <? RuneSelf) = true.
Proof. destruct b; intros H; try discriminate H; reflexivity. Qed.

Lemma plainByte_nospace (b : byte) :
  plainByte b = true -> unicode_IsSpace (byteZ b) = false.
Proof. destruct b; intros H; try discriminate H; reflexivity. Qed.

Lemma plainByte_separate (b : byte) : plainByte b = true -> separate b = b.
Proof. destruct b; intros H; try discriminate H; reflexivity. Qed.

Lemma plainByte_upper (b : byte) : plainByte b = true -> plainByte (upperByte b) = true.
Proof. destruct b; intros H; try discriminate H; reflexivity. Qed.

Lemma plainByte_lower (b : byte) : plainByte b = true -> plainByte (lowerByte b) = true.
Proof. destruct b; intros H; try discriminate H; reflexivity. Qed.

Lemma separate_plain (b : byte) :
  (byteZ b <? RuneSelf) = true -> unicode_IsSpace (byteZ (separate b)) = false ->
  plainByte (separate b) = true.
Proof. destruct b; intros Ha Hs; try discriminate Ha; try discriminate Hs; reflexivity. Qed.

Lemma upperByte_not_lower (b : byte) : isLowerByte (upperByte b) = false.
Proof. destruct b; reflexivity. Qed.

Lemma lowerByte_not_upper (b : byte) : isUpperByte (lowerByte b) = false.
Proof. destruct b; reflexivity. Qed.

Lemma plain_isASCII (w : gostring) : forallb plainByte w = true -> isASCII w = true.
Proof.
  unfold isASCII. rewrite !forallb_forall. intros H b Hb. apply plainByte_ascii, H, Hb.
Qed.

Lemma ToLower_ascii (T : CaseTables) (s : gostring) :
  isASCII s = true -> strings_ToLower T s = map lowerByte s.
Proof.
  intros H. unfold strings_ToLower. rewrite H. clear H.
  destruct (existsb isUpperByte s) eqn:Hex; [reflexivity|].
  induction s as [|b s IH]; [reflexivity|].
  cbn [existsb] in Hex. apply orb_false_iff in Hex as [Hb Hs].
  cbn [map]. rewrite <- (IH Hs). unfold lowerByte. now rewrite Hb.
Qed.

Lemma ToUpper_ascii (T : CaseTables) (s : gostring) :
  isASCII s = true -> strings_ToUpper T s = map upperByte s.
Proof.
  intros H. unfold strings_ToUpper. rewrite H. clear H.
  destruct (existsb isLowerByte s) eqn:Hex; [reflexivity|].
  induction s as [|b s IH]; [reflexivity|].
  cbn [existsb] in Hex. apply orb_false_iff in Hex as [Hb Hs].
  cbn [map]. rewrite <- (IH Hs). unfold upperByte. now rewrite Hb.
Qed.

Lemma capitalize_plain (T : CaseTables) (b : byte) (rest : gostring) :
  forallb plainByte (b :: rest) = true ->
  capitalize T (b :: rest) = upperByte b :: map lowerByte rest.
Proof.
  intros H. cbn [forallb] in H. apply andb_true_iff in H as [Hb Hrest].
  unfold capitalize.
  rewrite EncodeRune_ascii by (apply Z.ltb_lt, plainByte_ascii, Hb).
  rewrite ToUpper_ascii
    by (unfold isASCII; cbn [forallb]; now rewrite (plainByte_ascii b Hb)).
  rewrite ToLower_ascii by now apply plain_isASCII.
  reflexivity.
Qed.

Lemma not_upper_map_lower (s : gostring) : existsb isUpperByte (map lowerByte s) = false.
Proof.
  induction s as [|b s IH]; [reflexivity|].
  cbn [map existsb]. now rewrite lowerByte_not_upper, IH.
Qed.

Lemma capitalize_capitalized (T : CaseTables) (w : gostring) :
  plainWord w -> capitalized (capitalize T w).
Proof.
  intros [Hne Hplain]. destruct w as [|b rest]; [contradiction|].
  rewrite (capitalize_plain T b rest Hplain).
  cbn [forallb] in Hplain. apply andb_true_iff in Hplain as [Hb Hrest].
  split; [split; [discriminate|] | split].
  - cbn [forallb]. rewrite (plainByte_upper b Hb). cbn [andb].
    rewrite forallb_forall in *. intros c Hc.
    apply in_map_iff in Hc as (a & <- & Ha). apply plainByte_lower, Hrest, Ha.
  - apply upperByte_not_lower.
  - apply not_upper_map_lower.
Qed.

Lemma capitalize_fixed (T : CaseTables) (w : gostring) :
  capitalized w -> capitalize T w = w.
Proof.
  intros [[Hne Hplain] Hcap]. destruct w as [|b rest]; [contradiction|].
  destruct Hcap as [Hb Hrest].
  rewrite (capitalize_plain T b rest Hplain). f_equal.
  - unfold upperByte. now rewrite Hb.
  - clear Hplain Hne Hb. induction rest as [|c rest IH]; [reflexivity|].
    cbn [existsb] in Hrest. apply orb_false_iff in Hrest as [Hc Hrest].
    cbn [map]. rewrite (IH Hrest). unfold lowerByte. now rewrite Hc.
Qed.

(** The words of an ASCII string whose separators were replaced. *)
Lemma fields_plain (s : gostring) :
  isASCII s = true ->
  forall start,
    match start with Some w => plainWord w | None => True end ->
    Forall plainWord (fieldsLoop unicode_IsSpace start (map chunk1 (map separate s))).
Proof.
  induction s as [|b s IH]; intros Hs start Hstart.
  - destruct start; cbn; repeat constructor; apply Hstart.
  - cbn [isASCII forallb] in Hs. apply andb_true_iff in Hs as [Hb Hs].
    cbn [map chunk1 fieldsLoop].
    destruct (unicode_IsSpace (byteZ (separate b))) eqn:Hsp; destruct start as [w|].
    + constructor; [exact Hstart | now apply IH].
    + now apply IH.
    + apply IH; [exact Hs|]. destruct Hstart as [Hne Hw]. split.
      * destruct w; discriminate.
      * rewrite forallb_app, Hw. cbn [forallb andb].
        now rewrite (separate_plain b Hb Hsp).
    + apply IH; [exact Hs|]. split; [discriminate|].
      cbn [forallb]. now rewrite (separate_plain b Hb Hsp).
Qed.

Lemma fieldsLoop_word_some (w : gostring) :
  forallb plainByte w = true ->
  forall s0 cs,
    fieldsLoop unicode_IsSpace (Some s0) (map chunk1 w ++ cs)
    = fieldsLoop unicode_IsSpace (Some (s0 ++ w)) cs.
Proof.
  induction w as [|b w IH]; intros Hw s0 cs.
  - now rewrite app_nil_r.
  - cbn [forallb] in Hw. apply andb_true_iff in Hw as [Hb Hw].
    cbn [map chunk1 app fieldsLoop]. rewrite (plainByte_nospace b Hb).
    rewrite (IH Hw), <- app_assoc. reflexivity.
Qed.

Lemma fieldsLoop_word_none (w : gostring) (cs : list (rune * gostring)) :
  plainWord w ->
  fieldsLoop unicode_IsSpace None (map chunk1 w ++ cs)
  = fieldsLoop unicode_IsSpace (Some w) cs.
Proof.
  intros [Hne Hw]. destruct w as [|b w]; [contradiction|].
  cbn [forallb] in Hw. apply andb_true_iff in Hw as [Hb Hw].
  cbn [map chunk1 app fieldsLoop]. rewrite (plainByte_nospace b Hb).
  now rewrite (fieldsLoop_word_some w Hw).
Qed.

(** Splitting what was joined by single spaces gives the words back. *)
Lemma Fields_Join (words : list gostring) :
  Forall plainWord words ->
  fieldsLoop unicode_IsSpace None (map chunk1 (strings_Join words " ")) = words.
Proof.
  induction 1 as [|w rest Hw Hrest IH]; [reflexivity|].
  destruct rest as [|w' rest'].
  - cbn [strings_Join]. rewrite <- (app_nil_r (map chunk1 w)).
    now rewrite (fieldsLoop_word_none w [] Hw).
  - change (strings_Join (w :: w' :: rest') " ")
      with (w ++ " "%byte :: strings_Join (w' :: rest') " ").
    rewrite map_app, (fieldsLoop_word_none w _ Hw).
    cbn [map chunk1 fieldsLoop].
    change (unicode_IsSpace (byteZ " ")) with true. cbv iota.
    now rewrite IH.
Qed.

Lemma Join_bytes (words : list gostring) :
  Forall plainWord words ->
  isASCII (strings_Join words " ") = true
  /\ map separate (strings_Join words " ") = strings_Join words " ".
Proof.
  induction 1 as [|w rest [_ Hw] Hrest [IH1 IH2]]; [split; reflexivity|].
  assert (Hsep : map separate w = w).
  { clear - Hw. induction w as [|b w IH]; [reflexivity|].
    cbn [forallb] in Hw. apply andb_true_iff in Hw as [Hb Hw].
    cbn [map]. now rewrite (plainByte_separate b Hb), (IH Hw). }
  destruct rest as [|w' rest'].
  - cbn [strings_Join]. split; [now apply plain_isASCII | exact Hsep].
  - change (strings_Join (w :: w' :: rest') " ")
      with (w ++ " "%byte :: strings_Join (w' :: rest') " ").
    split.
    + rewrite isASCII_app, (plain_isASCII w Hw).
      unfold isASCII in *. cbn [forallb andb]. exact IH1.
    + rewrite map_app. cbn [map]. now rewrite Hsep, IH2.
Qed.

Section DisplayNames.

Variable T : CaseTables.

(** [cleanDisplayName] on an ASCII title, without the trimming: the words
    of the title with its separators replaced, each capitalized. *)
Lemma cleanDisplayName_words (title : gostring) :
  isASCII title = true ->
  cleanDisplayName T title
  = strings_Join
      (map (capitalize T)
           (fieldsLoop unicode_IsSpace None (map chunk1 (map separate title)))) " ".
Proof.
  intros Hascii. unfold cleanDisplayName.
  rewrite !separate_ReplaceAll. unfold strings_TrimSpace, strings_Fields.
  rewrite (range_ascii title Hascii).
  destruct (trim_split (map chunk1 title)) as (sp1 & sp2 & Hsplit & Hsp1 & Hsp2).
  destruct (chunk1_sub _ _ _ _ Hsplit) as (s1 & s2 & s3 & Htitle & H1 & H2 & H3).
  rewrite H2, chunks_bytes.
  rewrite Htitle, !isASCII_app in Hascii.
  apply andb_true_iff in Hascii as [Ha1 Ha23].
  apply andb_true_iff in Ha23 as [Ha2 Ha3].
  rewrite (range_ascii (map separate s2)) by now apply isASCII_separate.
  rewrite Htitle, !map_app.
  rewrite fieldsLoop_leading by (apply spaces_separate; now rewrite <- H1).
  rewrite fieldsLoop_trailing by (apply spaces_separate; now rewrite <- H3).
  reflexivity.
Qed.

Lemma cleanDisplayName_capitalized (title : gostring) :
  isASCII title = true ->
  exists words,
    cleanDisplayName T title = strings_Join words " " /\ Forall capitalized words.
Proof.
  intros Hascii. rewrite (cleanDisplayName_words title Hascii).
  eexists. split; [reflexivity|].
  apply Forall_map.
  apply (Forall_impl _ (capitalize_capitalized T)).
  now apply fields_plain.
Qed.

(** The display name of an ASCII title consists of words joined by single
    spaces; a word is not empty, has no white space, underscore or hyphen,
    does not start with a lowercase letter and has no uppercase letter
    after its first byte. *)
Theorem cleanDisplayName_ascii_words (title : gostring)
    (Hascii : isASCII title = true) :
  exists words,
    cleanDisplayName T title = strings_Join words " " /\ Forall capitalized words.
Proof. now apply cleanDisplayName_capitalized. Qed.

(** Cleaning the display name of an ASCII title again changes nothing. *)
Theorem cleanDisplayName_idempotent (title : gostring)
    (Hascii : isASCII title = true) :
  cleanDisplayName T (cleanDisplayName T title) = cleanDisplayName T title.
Proof.
  destruct (cleanDisplayName_capitalized title Hascii) as (words & -> & Hwords).
  assert (Hplain : Forall plainWord words)
    by (apply (Forall_impl _ (fun w (H : capitalized w) => proj1 H)), Hwords).
  destruct (Join_bytes words Hplain) as [Hjoin Hsep].
  rewrite (cleanDisplayName_words _ Hjoin), Hsep, (Fields_Join words Hplain).
  f_equal. clear - Hwords.
  induction Hwords as [|w rest Hw _ IH]; [reflexivity|].
  cbn [map]. now rewrite (capitalize_fixed T w Hw), IH.
Qed.

End DisplayNames.

Lemma cleanDisplayName_ascii_words_witness :
  exists words,
    cleanDisplayName latin1 "  ec2_instance-v2 " = strings_Join words " "
    /\ Forall capitalized words.
Proof.
  apply (cleanDisplayName_ascii_words latin1 "  ec2_instance-v2 "). reflexivity.
Defined.

Lemma cleanDisplayName_idempotent_witness :
  cleanDisplayName latin1 (cleanDisplayName latin1 "  ec2_instance-v2 ")
  = cleanDisplayName latin1 "  ec2_instance-v2 ".
Proof.
  apply (cleanDisplayName_idempotent latin1 "  ec2_instance-v2 "). reflexivity.
Defined.

(** ** The batch settings at their edges *)

Lemma eachLoop_config (E : Env) (C1 C2 : Config) (timestamp : gostring) :
  useLLMEnrichment C1 = useLLMEnrichment C2 ->
  forall (pending : list PendingIcon.t) (acc : Icons) (w : World),
    eachLoop E C1 timestamp pending acc w = eachLoop E C2 timestamp pending acc w.
Proof.
  intros Heq. induction pending as [|p rest IH]; intros acc w; [reflexivity|].
  cbn [eachLoop]. apply bind_ext. intros available w1. rewrite Heq.
  apply bind_ext. intros enrichment w2. apply bind_ext. intros icon w3. apply IH.
Qed.

(** With LLM enrichment disabled (as the source has it) the batch settings
    have no effect: two configurations that differ in [useBatchProcessing]
    and [batchSize] only, whatever their values, give the same run. *)
Theorem Generate_disabled_ignores_batch (E : Env) (C1 C2 : Config)
    (pending : list PendingIcon.t) (w : World)
    (Hoff1 : useLLMEnrichment C1 = false) (Hoff2 : useLLMEnrichment C2 = false) :
  Generate E C1 pending w = Generate E C2 pending w.
Proof.
  rewrite !Generate_loop. unfold checked. rewrite Hoff1, Hoff2. cbn [andb].
  apply eachLoop_config. now rewrite Hoff1, Hoff2.
Qed.

Lemma Generate_disabled_ignores_batch_witness :
  Generate offline config sevenIcons world0
  = Generate offline {| useLLMEnrichment := false; useBatchProcessing := false;
                        batchSize := 0 |} sevenIcons world0.
Proof.
  apply (Generate_disabled_ignores_batch offline config
           {| useLLMEnrichment := false; useBatchProcessing := false; batchSize := 0 |}
           sevenIcons world0); reflexivity.
Defined.

Section BatchEdges.

Variable E : Env.
Variable C : Config.

(** With a negative batch size the first slice expression of the batch
    branch, [pendingIcons[0:batchSize]], is out of range: on a non-empty
    list the run panics, whatever the network answers. *)
Theorem Generate_negative_batchSize (pending : list PendingIcon.t) (w : World)
    (Hllm : useLLMEnrichment C = true)
    (Hbatch : useBatchProcessing C = true)
    (Hup : llmServiceAvailable (checked E C w) = true)
    (Hsome : pending <> [])
    (Hneg : batchSize C < 0) :
  Generate E C pending w = Panic
  /\ slice pending 0 (0 + batchSize C) = None.
Proof.
  assert (Hslice : slice pending 0 (0 + batchSize C) = None).
  { unfold slice.
    replace (0 <=? 0 + batchSize C) with false by (symmetry; apply Z.leb_gt; lia).
    reflexivity. }
  split; [|exact Hslice].
  rewrite Generate_loop, Hllm, Hup, Hbatch. cbn [andb].
  destruct pending as [|p rest]; [contradiction|].
  cbn [List.length batchLoop].
  replace (0 <? Z.of_nat (S (List.length rest))) with true
    by (symmetry; apply Z.ltb_lt; lia).
  replace (0 + batchSize C >? Z.of_nat (S (List.length rest))) with false
    by (symmetry; rewrite Z.gtb_ltb; apply Z.ltb_ge; lia).
  cbn [List.length] in Hslice. rewrite Hslice. reflexivity.
Qed.

Lemma batchLoop_zero (timestamp : gostring) (pending : list PendingIcon.t) :
  pending <> [] ->
  batchSize C = 0 ->
  forall (fuel : nat) (acc : Icons) (w : World),
    batchLoop E C fuel timestamp pending 0 acc w = Diverge.
Proof.
  intros Hsome Hzero.
  assert (Hlt : (0 <? Z.of_nat (List.length pending)) = true)
    by (apply Z.ltb_lt; destruct pending; [contradiction | cbn [List.length]; lia]).
  induction fuel as [|fuel IH]; intros acc w; cbn [batchLoop]; rewrite Hlt;
    [reflexivity|].
  rewrite Hzero.
  replace (0 + 0 >? Z.of_nat (List.length pending)) with false
    by (symmetry; rewrite Z.gtb_ltb; apply Z.ltb_ge; lia).
  change (0 + 0) with 0.
  replace (slice pending 0 0) with (Some (@nil PendingIcon.t))
    by (unfold slice; cbn [Z.leb Z.compare andb];
        replace (0 <=? Z.of_nat (List.length pending)) with true
          by (symmetry; apply Z.leb_le; lia);
        reflexivity).
  unfold bind at 1.
  destruct (batchEnrichIcons_done E [] w) as (enrichments & reqs & Hen & _).
  rewrite Hen. unfold bind at 1. cbn [assembleBatch]. unfold ret at 1.
  apply IH.
Qed.

(** With batch size zero the batch loop never advances: on a non-empty
    list the run does not return, however many turns the loop is given; it
    neither panics nor returns records. *)
Theorem Generate_zero_batchSize (pending : list PendingIcon.t) (w : World)
    (Hllm : useLLMEnrichment C = true)
    (Hbatch : useBatchProcessing C = true)
    (Hup : llmServiceAvailable (checked E C w) = true)
    (Hsome : pending <> [])
    (Hzero : batchSize C = 0) :
  Generate E C pending w = Diverge
  /\ forall (fuel : nat) (acc : Icons) (w0 : World),
       batchLoop E C fuel (time_Now E) pending 0 acc w0 = Diverge.
Proof.
  split.
  - rewrite Generate_loop, Hllm, Hup, Hbatch. cbn [andb].
    now apply batchLoop_zero.
  - now apply batchLoop_zero.
Qed.

End BatchEdges.

Lemma Generate_negative_batchSize_witness :
  Generate online {| useLLMEnrichment := true; useBatchProcessing := true;
                     batchSize := -1 |} sevenIcons world0 = Panic
  /\ slice sevenIcons 0
       (0 + batchSize {| useLLMEnrichment := true; useBatchProcessing := true;
                         batchSize := -1 |}) = None.
Proof.
  apply (Generate_negative_batchSize online
           {| useLLMEnrichment := true; useBatchProcessing := true; batchSize := -1 |}
           sevenIcons world0); try reflexivity.
  discriminate.
Defined.

Lemma Generate_zero_batchSize_witness :
  Generate online {| useLLMEnrichment := true; useBatchProcessing := true;
                     batchSize := 0 |} sevenIcons world0 = Diverge
  /\ forall (fuel : nat) (acc : Icons) (w0 : World),
       batchLoop online {| useLLMEnrichment := true; useBatchProcessing := true;
                           batchSize := 0 |} fuel (time_Now online) sevenIcons 0 acc w0
       = Diverge.
Proof.
  apply (Generate_zero_batchSize online
           {| useLLMEnrichment := true; useBatchProcessing := true; batchSize := 0 |}
           sevenIcons world0); try reflexivity.
  discriminate.
Defined.
